(** * UNO, four seats: the rules engine of [src/App.tsx]

    A shallow embedding of the game logic of the React component [UNO]:
    the card and deck model, the legality predicates, the draw/recycle
    routine, the seat ring, the two handlers of the human seat and the
    opponent-turn effect.

    Conventions of the embedding.
    - A JavaScript array is a [list] in array order: the last element of the
      list is the top of a pile ([pop] takes it).
    - [Color] is [option ColorName]; [None] is the source's [null].
    - Object identity of cards ([Array.prototype.includes] compares
      references) is record equality: the [id] field is the identity of a card.
    - [Math.random] is an explicit random source threaded through every
      function that consumes it (class [RandomSource]).
    - A handler that returns without calling [setGameState] returns the state
      it was given; several [setGameState] updaters issued by one handler are
      composed in program order. *)

From Stdlib Require Import String DecimalString ZArith Bool Arith List Lia Permutation.
Import ListNotations.

Set Implicit Arguments.

(** ** Data model *)

(** [Exclude<Color, null>] *)
Inductive ColorName : Type := red | blue | green | yellow.

(** [type Color = 'red' | 'blue' | 'green' | 'yellow' | null] *)
Definition Color : Type := option ColorName.

Inductive CardType : Type := number | action | wild.

(** [CardValue]: a number, an [ActionValue] or a [WildValue].  The source
    only ever builds the values listed here. *)
Inductive CardValue : Type :=
| VNum (n : nat)
| Skip
| Reverse
| Draw2
| Wild
| WildPlus4.

Record Card : Type := mkCard {
  id : string;
  type : CardType;
  color : Color;
  value : CardValue
}.

(** Text shown to the player; one constructor per message of the source. *)
Inductive Message : Type :=
| MsgYourTurn                       (* "A ton tour !" *)
| MsgYouWon                         (* "Tu as gagne !" *)
| MsgAITurn                         (* "Tour de l'IA..." *)
| MsgYouDrew                        (* "Tu as pioche une carte. Tour de l'IA..." *)
| MsgAIWon (seat : nat)             (* "<PLAYERS[seat]> a gagne !" *)
| MsgSkipped (by_seat skipped : nat)(* "<..> a joue Skip ! <..> est passe !" *).

Record GameState : Type := mkGameState {
  deck : list Card;
  discard : list Card;
  hands : list (list Card);
  currentColor : Color;
  currentPlayerIdx : nat;
  direction : Z;                    (* 1 | -1 *)
  gameOver : bool;
  winner : option nat;
  message : Message;
  selectedColor : Color;
  selectedCards : list nat;         (* indices in player's hand *)
  skipNextPlayer : bool
}.

Definition COLORS : list ColorName := [red; blue; green; yellow].
Definition ACTION_CARDS : list CardValue := [Skip; Reverse; Draw2].

(** ** Strict equality ([===]) on the data *)

Definition ColorName_eqb (a b : ColorName) : bool :=
  match a, b with
  | red, red | blue, blue | green, green | yellow, yellow => true
  | _, _ => false
  end.

Definition Color_eqb (a b : Color) : bool :=
  match a, b with
  | Some x, Some y => ColorName_eqb x y
  | None, None => true
  | _, _ => false
  end.

Definition CardType_eqb (a b : CardType) : bool :=
  match a, b with
  | number, number | action, action | wild, wild => true
  | _, _ => false
  end.

Definition CardValue_eqb (a b : CardValue) : bool :=
  match a, b with
  | VNum n, VNum m => Nat.eqb n m
  | Skip, Skip | Reverse, Reverse | Draw2, Draw2
  | Wild, Wild | WildPlus4, WildPlus4 => true
  | _, _ => false
  end.

(** Reference equality of two card objects. *)
Definition Card_eqb (a b : Card) : bool :=
  String.eqb (id a) (id b) && CardType_eqb (type a) (type b)
  && Color_eqb (color a) (color b) && CardValue_eqb (value a) (value b).

(** ** Array primitives *)

Section Arrays.
Variable A : Type.

(** [arr.pop()]: the last element and the array without it. *)
Fixpoint pop (l : list A) : option (A * list A) :=
  match l with
  | [] => None
  | x :: t =>
      match pop t with
      | None => Some (x, [])
      | Some (y, t') => Some (y, x :: t')
      end
  end.

(** [arr[arr.length - 1]], [undefined] on the empty array. *)
Definition lastElem (l : list A) : option A :=
  match pop l with
  | Some (x, _) => Some x
  | None => None
  end.

(** [arr.slice(0, -1)] *)
Definition slice_0_m1 (l : list A) : list A := removelast l.

(** [arr.splice(-n)]: removes the last [n] elements (all of them when the
    array is shorter); gives the removed elements and what is left. *)
Definition splice_last (n : nat) (l : list A) : list A * list A :=
  (skipn (length l - n) l, firstn (length l - n) l).

(** [arr[i] = x] for an index inside the array.  JavaScript extends the
    array on an assignment past its end; here such an assignment leaves
    the array as it is.  The engine assigns at seat indices only, and
    these are below the number of hands of a session, four. *)
Fixpoint assign (i : nat) (x : A) (l : list A) : list A :=
  match l, i with
  | [], _ => []
  | _ :: t, O => x :: t
  | h :: t, S i' => h :: assign i' x t
  end.

(** [arr.filter((x, i) => p(x, i))] *)
Fixpoint filter_idx (p : A -> nat -> bool) (i : nat) (l : list A) : list A :=
  match l with
  | [] => []
  | x :: t => if p x i then x :: filter_idx p (S i) t else filter_idx p (S i) t
  end.

(** [arr.indexOf(x)], [-1] when absent. *)
Fixpoint indexOf_from (eqb : A -> A -> bool) (x : A) (l : list A) (i : Z) : Z :=
  match l with
  | [] => (-1)%Z
  | y :: t => if eqb y x then i else indexOf_from eqb x t (i + 1)%Z
  end.

Definition indexOf (eqb : A -> A -> bool) (x : A) (l : list A) : Z :=
  indexOf_from eqb x l 0%Z.

(** [arr.includes(x)] *)
Definition includes (eqb : A -> A -> bool) (x : A) (l : list A) : bool :=
  existsb (fun y => eqb y x) l.
End Arrays.

(** ** Legality rules *)

(** [canCardBePlayed]; a missing card or top card is [None]. *)
Definition canCardBePlayed (card topCard : option Card) (activeColor : Color) : bool :=
  match card, topCard with
  | Some c, Some t =>
      if CardType_eqb (type c) wild then true
      else if Color_eqb (color c) activeColor then true
      else if CardValue_eqb (value c) (value t) then true
      else false
  | _, _ => false
  end.

(** [cards.every((c) => c && c.value === firstValue)] *)
Definition allSameValue (cards : list Card) : bool :=
  match cards with
  | [] => true
  | c0 :: _ => forallb (fun c => CardValue_eqb (value c) (value c0)) cards
  end.

Definition canPlayMultipleCards (cards : list Card) (topCard : option Card)
    (activeColor : Color) : bool :=
  match cards, topCard with
  | [], _ => false
  | _, None => false
  | [c], _ => canCardBePlayed (Some c) topCard activeColor
  | c0 :: _, _ =>
      if negb (allSameValue cards) then false
      else if negb (canCardBePlayed (Some c0) topCard activeColor) then false
      else true
  end.

(** ** The seat ring *)

Definition clockwiseOrder : list nat := [0; 3; 1; 2].

(** [getNextPlayerIdx]; [%] is JavaScript's remainder ([Z.rem]). *)
Definition getNextPlayerIdx (currentIdx : nat) (dir : Z) : nat :=
  let currentPosition := indexOf Nat.eqb currentIdx clockwiseOrder in
  let nextPosition :=
    if (dir =? 1)%Z then Z.rem (currentPosition + 1) 4
    else Z.rem (currentPosition - 1 + 4) 4 in
  nth (Z.to_nat nextPosition) clockwiseOrder 0.

(** ** Requests of the human seat *)

(** The two requests the human seat can make. *)
Inductive Request : Type := PlaySelection | DrawOne.

(** ** The random source

    [Math.random] is the only source of nondeterminism.  The engine consumes
    it in three ways: [randId] draws a card id, [arr.sort(() => Math.random()
    - 0.5)] rearranges an array, and [Math.floor(Math.random() * 4)] draws an
    index into [COLORS].  Each consumer takes the state of the source and
    gives the state after it.  A comparator-driven sort rearranges the
    elements it is given and the floor of four times a number of [0, 1) is
    below four: these are the two laws of the interface. *)
Class RandomSource : Type := {
  Rng : Type;
  randId : Rng -> string * Rng;
  shuffle : Rng -> list Card -> list Card * Rng;
  random4 : Rng -> nat * Rng;
  shuffle_perm : forall r l, Permutation (fst (shuffle r l)) l;
  random4_lt : forall r, fst (random4 r) < 4
}.

Section Engine.
Context {RS : RandomSource}.

(** ** Deck construction *)

(** [deck.push({ type, color, value, id: randId() })] on the pair of the
    deck under construction and the random source. *)
Definition push (t : CardType) (c : Color) (v : CardValue)
    (st : list Card * Rng) : list Card * Rng :=
  (fst st ++ [mkCard (fst (randId (snd st))) t c v], snd (randId (snd st))).

Definition generateDeck (r : Rng) : list Card * Rng :=
  let st0 : list Card * Rng := ([], r) in
  (* Number cards 0-9 (0 once, others twice) *)
  let st1 :=
    fold_left (fun st col =>
      fold_left (fun st num =>
        let st' := push number (Some col) (VNum num) st in
        if negb (num =? 0) then push number (Some col) (VNum num) st' else st')
        (seq 0 10) st)
      COLORS st0 in
  (* Action cards (two of each color) *)
  let st2 :=
    fold_left (fun st col =>
      fold_left (fun st act =>
        push action (Some col) act (push action (Some col) act st))
        ACTION_CARDS st)
      COLORS st1 in
  (* Wild cards *)
  let st3 :=
    fold_left (fun st (_ : nat) =>
      push wild None WildPlus4 (push wild None Wild st))
      (seq 0 4) st2 in
  shuffle (snd st3) (fst st3).

(** ** Draw / recycle *)

(** The body of the [for] loop of [drawCardsFromDeck], [count] iterations
    left; [break] leaves the loop with the current [drawn] and [newDeck]. *)
Fixpoint drawLoop (currentDiscard : list Card) (count : nat)
    (newDeck drawn : list Card) (r : Rng) : (list Card * list Card) * Rng :=
  match count with
  | O => ((drawn, newDeck), r)
  | S count' =>
      let refill : option (list Card * Rng) :=
        if length newDeck =? 0 then
          if 1 <? length currentDiscard then
            (* shuffle discard except top *)
            Some (shuffle r (slice_0_m1 currentDiscard))
          else None
        else Some (newDeck, r) in
      match refill with
      | None => ((drawn, newDeck), r)
      | Some (newDeck1, r1) =>
          match pop newDeck1 with
          | Some (c, newDeck2) =>
              drawLoop currentDiscard count' newDeck2 (drawn ++ [c]) r1
          | None => drawLoop currentDiscard count' newDeck1 drawn r1
          end
      end
  end.

(** [drawCardsFromDeck]: the pair [(drawn, newDeck)] and the random source
    after the call. *)
Definition drawCardsFromDeck (count : nat) (currentDeck currentDiscard : list Card)
    (r : Rng) : (list Card * list Card) * Rng :=
  drawLoop currentDiscard count currentDeck [] r.

(** ** Draw / recycle on the arrays themselves

    The same routine with its arrays as objects of a store, to see which
    arrays it writes: a reference is an index into the store, [...arr]
    and [arr.slice] allocate a new array, [arr.sort], [arr.pop] and
    [arr.push] write the array they are called on. *)

Definition Ref : Type := nat.
Definition Store : Type := list (list Card).

Definition readArr (st : Store) (p : Ref) : list Card := nth p st [].
Definition writeArr (st : Store) (p : Ref) (a : list Card) : Store := assign p a st.
Definition allocArr (st : Store) (a : list Card) : Store * Ref :=
  (st ++ [a], length st).

(** The [for] loop of [drawCardsFromDeck]; the variable [newDeck] holds a
    reference, which the recycling step rebinds.  Gives the reference in
    [newDeck] and the store when the loop is left. *)
Fixpoint drawLoopS (currentDiscard : Ref) (count : nat) (newDeck drawn : Ref)
    (st : Store) (r : Rng) : (Ref * Store) * Rng :=
  match count with
  | O => ((newDeck, st), r)
  | S count' =>
      let refill : option (Ref * Store * Rng) :=
        if length (readArr st newDeck) =? 0 then
          if 1 <? length (readArr st currentDiscard) then
            (* currentDiscard.slice(0, -1) is a new array, sorted in place *)
            let sliced := allocArr st (slice_0_m1 (readArr st currentDiscard)) in
            let sh := shuffle r (readArr (fst sliced) (snd sliced)) in
            Some (snd sliced, writeArr (fst sliced) (snd sliced) (fst sh), snd sh)
          else None
        else Some (newDeck, st, r) in
      match refill with
      | None => ((newDeck, st), r)
      | Some (newDeck1, st1, r1) =>
          match pop (readArr st1 newDeck1) with
          | Some (c, rest) =>
              (* drawn.push(newDeck.pop()) *)
              let st2 := writeArr st1 newDeck1 rest in
              let st3 := writeArr st2 drawn (readArr st2 drawn ++ [c]) in
              drawLoopS currentDiscard count' newDeck1 drawn st3 r1
          | None => drawLoopS currentDiscard count' newDeck1 drawn st1 r1
          end
      end
  end.

(** [drawCardsFromDeck] on references: the references of [drawn] and of
    [newDeck], the store and the random source after the call. *)
Definition drawCardsFromDeckS (count : nat) (currentDeck currentDiscard : Ref)
    (st : Store) (r : Rng) : (Ref * Ref * Store) * Rng :=
  let copied := allocArr st (readArr st currentDeck) in   (* [...currentDeck] *)
  let fresh := allocArr (fst copied) [] in                (* const drawn = [] *)
  let out := drawLoopS currentDiscard count (snd copied) (snd fresh) (fst fresh) r in
  ((snd fresh, fst (fst out), snd (fst out)), snd out).

(** ** Session creation *)

(** [starter.color ?? 'red'] *)
Definition colorOrRed (c : Color) : Color :=
  match c with
  | Some x => Some x
  | None => Some red
  end.

(** [for (let i = 0; i < 4; i++) hands[i] = newDeck.splice(-7)] on the pair
    of the hands and the remaining deck. *)
Definition dealHands (newDeck : list Card) : list (list Card) * list Card :=
  fold_left (fun (st : list (list Card) * list Card) i =>
    let sp := splice_last 7 (snd st) in
    (assign i (fst sp) (fst st), snd sp))
    (seq 0 4) ([[]; []; []; []], newDeck).

(** The fresh session built from a generated deck.  [newDeck.pop()] on an
    empty deck gives [undefined], whose [color] cannot be read: [None]. *)
Definition freshSession (generated : list Card) : option GameState :=
  match pop generated with
  | None => None
  | Some (starter, newDeck) =>
      let dealt := dealHands newDeck in
      Some {| deck := snd dealt;
              discard := [starter];
              hands := fst dealt;
              currentColor := colorOrRed (color starter);
              currentPlayerIdx := 0;
              direction := 1;
              gameOver := false;
              winner := None;
              message := MsgYourTurn;
              selectedColor := None;
              selectedCards := [];
              skipNextPlayer := false |}
  end.

(** [initialState], the initialiser of [useState]. *)
Definition initialState (r : Rng) : option GameState * Rng :=
  (freshSession (fst (generateDeck r)), snd (generateDeck r)).

(** [resetGame] replaces the current state, whatever it is. *)
Definition resetGame (r : Rng) (g : GameState) : option GameState * Rng :=
  (freshSession (fst (generateDeck r)), snd (generateDeck r)).
(** ** The human seat *)

(** [arr.filter(Boolean)] on an array of cards or [undefined]. *)
Definition filter_Boolean (l : list (option Card)) : list Card :=
  flat_map (fun o => match o with Some c => [c] | None => [] end) l.

(** [gameState.selectedCards.map((i) => gameState.hands[0][i]).filter(Boolean)] *)
Definition selectedCardObjects (g : GameState) : list Card :=
  filter_Boolean (map (fun i => nth_error (nth 0 (hands g) []) i) (selectedCards g)).

(** [{ ...prev, selectedCards: [] }] *)
Definition clearSelection (g : GameState) : GameState :=
  {| deck := deck g; discard := discard g; hands := hands g;
     currentColor := currentColor g; currentPlayerIdx := currentPlayerIdx g;
     direction := direction g; gameOver := gameOver g; winner := winner g;
     message := message g; selectedColor := selectedColor g;
     selectedCards := []; skipNextPlayer := skipNextPlayer g |}.

(** [selectedCardObjects.filter((c) => c.value === v).length] *)
Definition countValue (v : CardValue) (cards : list Card) : nat :=
  length (filter (fun c => CardValue_eqb (value c) v) cards).

(** [(gameState.direction === 1 ? -1 : 1)] *)
Definition flipDirection (d : Z) : Z := if (d =? 1)%Z then (-1)%Z else 1%Z.

(** The hands after the seat [seat] receives what
    [drawCardsFromDeck(count, deck, discard)] draws; only [drawn] is kept
    from the result of the call. *)
Definition penaltyDraw (count : nat) (dk dc : list Card) (seat : nat)
    (newHands : list (list Card)) (r : Rng) : list (list Card) * Rng :=
  let res := drawCardsFromDeck count dk dc r in
  (assign seat (nth seat newHands [] ++ fst (fst res)) newHands, snd res).

(** The special effect of the last played card, as both the human
    handler and the opponent effect compute it for the seat [seat]:
    the next seat, the skip flag, the direction, the hands and the random
    source after the effect.  [nextPlayerIdx] is the provisional next seat,
    [getNextPlayerIdx(seat, direction)]. *)
Definition cardEffect (seat : nat) (dir : Z) (lastCard : Card) (played : list Card)
    (dk newDiscard : list Card) (newHands : list (list Card)) (r : Rng)
    : nat * bool * Z * list (list Card) * Rng :=
  let nextPlayerIdx := getNextPlayerIdx seat dir in
  match value lastCard with
  | Skip => (nextPlayerIdx, true, dir, newHands, r)
  | Reverse =>
      let newDirection := flipDirection dir in
      (getNextPlayerIdx seat newDirection, false, newDirection, newHands, r)
  | Draw2 =>
      let pd := penaltyDraw (countValue Draw2 played * 2) dk newDiscard
                            nextPlayerIdx newHands r in
      (nextPlayerIdx, false, dir, fst pd, snd pd)
  | WildPlus4 =>
      let pd := penaltyDraw (countValue WildPlus4 played * 4) dk newDiscard
                            nextPlayerIdx newHands r in
      (nextPlayerIdx, false, dir, fst pd, snd pd)
  | _ => (nextPlayerIdx, false, dir, newHands, r)
  end.

(** [gameState.hands[0].filter((_, i) => !gameState.selectedCards.includes(i))] *)
Definition remainingHand (g : GameState) : list Card :=
  filter_idx (fun _ i => negb (includes Nat.eqb i (selectedCards g)))
             0 (nth 0 (hands g) []).

(** [handlePlayerPlay] once every guard has let the selection through:
    [objs] is [selectedCardObjects], [first] its first card. *)
Definition commitPlayerPlay (r : Rng) (g : GameState) (first : Card)
    (objs : list Card) : GameState * Rng :=
  let newHands := assign 0 (remainingHand g) (hands g) in
  let newDiscard := discard g ++ objs in
  let lastCard := last objs first in
  let newColor :=
    if CardType_eqb (type lastCard) wild then selectedColor g
    else color lastCard in
  if length (nth 0 newHands []) =? 0 then
    ({| deck := deck g; discard := newDiscard; hands := newHands;
        currentColor := newColor; currentPlayerIdx := currentPlayerIdx g;
        direction := direction g; gameOver := true; winner := Some 0;
        message := MsgYouWon; selectedColor := selectedColor g;
        selectedCards := selectedCards g;
        skipNextPlayer := skipNextPlayer g |}, r)
  else
    let '(nextPlayerIdx, skipNext, newDirection, newHands', r') :=
      cardEffect 0 (direction g) lastCard objs (deck g) newDiscard newHands r in
    ({| deck := deck g; discard := newDiscard; hands := newHands';
        currentColor := newColor; currentPlayerIdx := nextPlayerIdx;
        direction := newDirection; gameOver := gameOver g;
        winner := winner g; message := MsgAITurn; selectedColor := None;
        selectedCards := []; skipNextPlayer := skipNext |}, r').

Definition handlePlayerPlay (r : Rng) (g : GameState) : GameState * Rng :=
  if negb (currentPlayerIdx g =? 0) || gameOver g then (g, r)
  else if length (selectedCards g) =? 0 then (g, r)
  else
    let topCard := lastElem (discard g) in
    let objs := selectedCardObjects g in
    match objs with
    | [] => (clearSelection g, r)
    | first :: _ =>
      if (1 <? length objs) && negb (allSameValue objs) then (clearSelection g, r)
      else if negb (canCardBePlayed (Some first) topCard (currentColor g))
      then (clearSelection g, r)
      else if CardType_eqb (type first) wild && Color_eqb (selectedColor g) None
      then (g, r) (* must choose color first *)
      else commitPlayerPlay r g first objs
    end.

Definition handlePlayerDraw (r : Rng) (g : GameState) : GameState * Rng :=
  if negb (currentPlayerIdx g =? 0) || gameOver g then (g, r)
  else
    let res := drawCardsFromDeck 1 (deck g) (discard g) r in
    let drawn := fst (fst res) in
    let newDeck := snd (fst res) in
    let newHands := assign 0 (nth 0 (hands g) [] ++ drawn) (hands g) in
    let nextPlayerIdx := getNextPlayerIdx 0 (direction g) in
    ({| deck := newDeck; discard := discard g; hands := newHands;
        currentColor := currentColor g; currentPlayerIdx := nextPlayerIdx;
        direction := direction g; gameOver := gameOver g; winner := winner g;
        message := MsgYouDrew; selectedColor := selectedColor g;
        selectedCards := []; skipNextPlayer := skipNextPlayer g |}, snd res).

(** ** The opponent seats *)

(** The cards the opponent policy plays from the playable cards of its
    hand: every playable card of the first one's value when there are
    several, the first playable card otherwise. *)
Definition cardsToPlayOf (firstCard : Card) (validCards : list Card) : list Card :=
  let matchingCards :=
    filter (fun c => CardValue_eqb (value c) (value firstCard)) validCards in
  if 1 <? length matchingCards then matchingCards else [firstCard].

(** The opponent effect once the seat has a playable card: [firstCard]
    is [validCards[0]]. *)
Definition commitOpponentPlay (r : Rng) (g : GameState) (firstCard : Card)
    (validCards : list Card) : GameState * Rng :=
  let cur := currentPlayerIdx g in
  let currentHand := nth cur (hands g) [] in
  let cardsToPlay := cardsToPlayOf firstCard validCards in
  let newHands :=
    assign cur (filter (fun card => negb (includes Card_eqb card cardsToPlay))
                       currentHand)
           (hands g) in
  let newDiscard := discard g ++ cardsToPlay in
  let lastCard := last cardsToPlay firstCard in
  let colorPick : Color * Rng :=
    if CardType_eqb (type lastCard) wild
    then (nth_error COLORS (fst (random4 r)), snd (random4 r))
    else (color lastCard, r) in
  let newColor := fst colorPick in
  let '(nextPlayerIdx, skipNext, newDirection, newHands', r') :=
    cardEffect cur (direction g) lastCard cardsToPlay (deck g) newDiscard newHands
               (snd colorPick) in
  if length (nth cur newHands' []) =? 0 then
    ({| deck := deck g; discard := newDiscard; hands := newHands';
        currentColor := newColor; currentPlayerIdx := cur;
        direction := direction g; gameOver := true; winner := Some cur;
        message := MsgAIWon cur; selectedColor := selectedColor g;
        selectedCards := selectedCards g;
        skipNextPlayer := skipNextPlayer g |}, r')
  else if skipNext then
    let skippedTo := getNextPlayerIdx nextPlayerIdx newDirection in
    ({| deck := deck g; discard := newDiscard; hands := newHands';
        currentColor := newColor; currentPlayerIdx := skippedTo;
        direction := newDirection; gameOver := gameOver g; winner := winner g;
        message := MsgSkipped cur skippedTo; selectedColor := selectedColor g;
        selectedCards := selectedCards g; skipNextPlayer := false |}, r')
  else
    ({| deck := deck g; discard := newDiscard; hands := newHands';
        currentColor := newColor; currentPlayerIdx := nextPlayerIdx;
        direction := newDirection; gameOver := gameOver g; winner := winner g;
        message := MsgYourTurn; selectedColor := selectedColor g;
        selectedCards := selectedCards g; skipNextPlayer := skipNext |}, r').

(** [validCards] of the opponent effect. *)
Definition validCardsOf (g : GameState) : list Card :=
  filter (fun c => canCardBePlayed (Some c) (lastElem (discard g)) (currentColor g))
         (nth (currentPlayerIdx g) (hands g) []).

(** The body of the timer callback of the opponent-turn effect, run once
    for the state [g] in which a seat became current. *)
Definition opponentTurnEffect (r : Rng) (g : GameState) : GameState * Rng :=
  if (currentPlayerIdx g =? 0) || gameOver g then (g, r)
  else
    let cur := currentPlayerIdx g in
    let currentHand := nth cur (hands g) [] in
    let validCards := validCardsOf g in
    let nextPlayerIdx := getNextPlayerIdx cur (direction g) in
    match validCards with
    | [] =>
        let res := drawCardsFromDeck 1 (deck g) (discard g) r in
        let newHands := assign cur (currentHand ++ fst (fst res)) (hands g) in
        ({| deck := snd (fst res); discard := discard g; hands := newHands;
            currentColor := currentColor g; currentPlayerIdx := nextPlayerIdx;
            direction := direction g; gameOver := gameOver g; winner := winner g;
            message := MsgYourTurn; selectedColor := selectedColor g;
            selectedCards := selectedCards g;
            skipNextPlayer := skipNextPlayer g |}, snd res)
    | firstCard :: _ => commitOpponentPlay r g firstCard validCards
    end.

(** ** The selection of the human seat *)

(** [{ ...prev, selectedCards: sel }] *)
Definition setSelectedCards (sel : list nat) (g : GameState) : GameState :=
  {| deck := deck g; discard := discard g; hands := hands g;
     currentColor := currentColor g; currentPlayerIdx := currentPlayerIdx g;
     direction := direction g; gameOver := gameOver g; winner := winner g;
     message := message g; selectedColor := selectedColor g;
     selectedCards := sel; skipNextPlayer := skipNextPlayer g |}.

(** [toggleCardSelection]: the updater it hands to [setGameState]. *)
Definition toggleCardSelection (cardIndex : nat) (prev : GameState) : GameState :=
  match nth_error (nth 0 (hands prev) []) cardIndex with
  | None => prev
  | Some _ =>
      let isSelected := includes Nat.eqb cardIndex (selectedCards prev) in
      if isSelected then
        setSelectedCards
          (filter (fun i => negb (i =? cardIndex)) (selectedCards prev)) prev
      else setSelectedCards (selectedCards prev ++ [cardIndex]) prev
  end.

(** The click on a button of the color selector:
    [{ ...prev, selectedColor: color }]. *)
Definition chooseColor (c : ColorName) (prev : GameState) : GameState :=
  {| deck := deck prev; discard := discard prev; hands := hands prev;
     currentColor := currentColor prev; currentPlayerIdx := currentPlayerIdx prev;
     direction := direction prev; gameOver := gameOver prev; winner := winner prev;
     message := message prev; selectedColor := Some c;
     selectedCards := selectedCards prev; skipNextPlayer := skipNextPlayer prev |}.

(** The click on "Annuler":
    [{ ...prev, selectedCards: [], selectedColor: null }]. *)
Definition cancelSelection (prev : GameState) : GameState :=
  {| deck := deck prev; discard := discard prev; hands := hands prev;
     currentColor := currentColor prev; currentPlayerIdx := currentPlayerIdx prev;
     direction := direction prev; gameOver := gameOver prev; winner := winner prev;
     message := message prev; selectedColor := None;
     selectedCards := []; skipNextPlayer := skipNextPlayer prev |}.

(** [canSubmitCards], computed at every render. *)
Definition canSubmitCards (g : GameState) : bool :=
  (0 <? length (selectedCards g))
  && canPlayMultipleCards (selectedCardObjects g) (lastElem (discard g))
                          (currentColor g).

(** [gameState.hands[0][gameState.selectedCards[0]] &&
     gameState.hands[0][gameState.selectedCards[0]].type === 'wild' &&
     !gameState.selectedColor] *)
Definition wildAwaitsColor (g : GameState) : bool :=
  match hd_error (selectedCards g) with
  | None => false
  | Some i =>
      match nth_error (nth 0 (hands g) []) i with
      | None => false
      | Some c => CardType_eqb (type c) wild && Color_eqb (selectedColor g) None
      end
  end.

(** The play button is rendered and not [disabled]. *)
Definition playButtonEnabled (g : GameState) : bool :=
  ((0 <? length (selectedCards g)) && (currentPlayerIdx g =? 0))
  && negb (negb (canSubmitCards g) || wildAwaitsColor g).

(** The color selector is rendered. *)
Definition colorSelectorShown (g : GameState) : bool :=
  (0 <? length (selectedCards g))
  && match hd_error (selectedCards g) with
     | None => false
     | Some i =>
         match nth_error (nth 0 (hands g) []) i with
         | None => false
         | Some c => CardType_eqb (type c) wild
         end
     end.

(** ** Bookkeeping for the statements *)

(** Every card object of a session: the draw pile, the discard pile and
    the hands, in that order. *)
Definition allCards (g : GameState) : list Card :=
  deck g ++ discard g ++ concat (hands g).

(** [handlePlayerPlay] passes every guard and commits the selection. *)
Definition playAccepted (g : GameState) : bool :=
  (currentPlayerIdx g =? 0) && negb (gameOver g)
  && negb (length (selectedCards g) =? 0)
  && match selectedCardObjects g with
     | [] => false
     | first :: _ =>
         negb ((1 <? length (selectedCardObjects g))
               && negb (allSameValue (selectedCardObjects g)))
         && canCardBePlayed (Some first) (lastElem (discard g)) (currentColor g)
         && negb (CardType_eqb (type first) wild && Color_eqb (selectedColor g) None)
     end.

(** The action of the seat whose turn it is: the play handler for seat 0,
    the opponent effect for the other seats. *)
Definition seatTurn (r : Rng) (g : GameState) : GameState * Rng :=
  if currentPlayerIdx g =? 0 then handlePlayerPlay r g else opponentTurnEffect r g.

(** The cards the current seat puts on the discard pile. *)
Definition playedCards (g : GameState) : list Card :=
  if currentPlayerIdx g =? 0 then selectedCardObjects g
  else match validCardsOf g with
       | [] => []
       | firstCard :: _ => cardsToPlayOf firstCard (validCardsOf g)
       end.

(** The current seat makes a play that the code accepts. *)
Definition moveAccepted (g : GameState) : bool :=
  if currentPlayerIdx g =? 0 then playAccepted g
  else negb (gameOver g) && negb (length (validCardsOf g) =? 0).

(** The hand the current seat is left with. *)
Definition handAfterPlay (g : GameState) : list Card :=
  if currentPlayerIdx g =? 0 then remainingHand g
  else filter (fun card => negb (includes Card_eqb card (playedCards g)))
              (nth (currentPlayerIdx g) (hands g) []).

(** The random source when the effect of the last card is computed: an
    opponent that ends its play on a wild card has drawn a color first. *)
Definition rngAtEffect (r : Rng) (g : GameState) : Rng :=
  if currentPlayerIdx g =? 0 then r
  else match lastElem (playedCards g) with
       | Some c => if CardType_eqb (type c) wild then snd (random4 r) else r
       | None => r
       end.

(** The current seat takes a card instead of playing: seat 0 when it asks
    for a card, an opponent when it has no playable card. *)
Definition drawsNow (g : GameState) : bool :=
  negb (gameOver g)
  && ((currentPlayerIdx g =? 0) || (length (validCardsOf g) =? 0)).

(** The code that runs when the current seat takes a card. *)
Definition drawTurn (r : Rng) (g : GameState) : GameState * Rng :=
  if currentPlayerIdx g =? 0 then handlePlayerDraw r g else opponentTurnEffect r g.

(** The handler of a request of the human seat. *)
Definition handleRequest (q : Request) (r : Rng) (g : GameState) : GameState * Rng :=
  match q with
  | PlaySelection => handlePlayerPlay r g
  | DrawOne => handlePlayerDraw r g
  end.
End Engine.

(** ** Vocabulary of the statements *)

(** What a card shows: its type, color and value, without its identity. *)
Definition Face : Type := (CardType * Color * CardValue)%type.

Definition faceOf (c : Card) : Face := (type c, color c, value c).

Definition Face_eq_dec (a b : Face) : {a = b} + {a <> b}.
Proof. repeat decide equality. Defined.

(** The deck as section 3 of the specification words it: for each color one
    0, two each of 1 to 9 and two each of Skip, Reverse and Draw2; then four
    Wild and four Wild+4 without a color. *)
Definition specColorFaces (col : ColorName) : list Face :=
  (number, Some col, VNum 0)
  :: flat_map (fun n => repeat (number, Some col, VNum n) 2) (seq 1 9)
  ++ flat_map (fun a => repeat (action, Some col, a) 2) [Skip; Reverse; Draw2].

Definition specDeckFaces : list Face :=
  flat_map specColorFaces [red; blue; green; yellow]
  ++ repeat (wild, None, Wild) 4 ++ repeat (wild, None, WildPlus4) 4.

(** A decision procedure for "is a rearrangement of" on lists of faces. *)
Fixpoint removeFirst (x : Face) (l : list Face) : option (list Face) :=
  match l with
  | [] => None
  | y :: t =>
      if Face_eq_dec x y then Some t
      else match removeFirst x t with
           | Some t' => Some (y :: t')
           | None => None
           end
  end.

Fixpoint sameFaces (l1 l2 : list Face) : bool :=
  match l1 with
  | [] => match l2 with [] => true | _ :: _ => false end
  | x :: t =>
      match removeFirst x l2 with
      | Some l2' => sameFaces t l2'
      | None => false
      end
  end.

(** A face is of the wild type exactly when it has no color. *)
Definition wildIffColorless (f : Face) : bool :=
  let '(t, c, _) := f in Bool.eqb (CardType_eqb t wild) (Color_eqb c None).

(** What the claim on the starter card says of a freshly built session. *)
Definition starterColorRule (s : option GameState) : Prop :=
  exists g starter,
    s = Some g
    /\ discard g = [starter]
    /\ (forall c, color starter = Some c -> currentColor g = Some c)
    /\ (type starter = wild <-> color starter = None)
    /\ (type starter = wild -> currentColor g = Some red)
    /\ currentColor g <> None
    /\ selectedColor g = None.

(** The fields of a session that make up the state of play; the selection
    and the chosen color are working state of the interface. *)
Definition sameGameplay (g g' : GameState) : Prop :=
  deck g' = deck g /\ discard g' = discard g /\ hands g' = hands g
  /\ currentColor g' = currentColor g
  /\ currentPlayerIdx g' = currentPlayerIdx g
  /\ direction g' = direction g
  /\ gameOver g' = gameOver g /\ winner g' = winner g.

(** The reasons for which a request is invalid. *)
Definition requestInvalid (q : Request) (g : GameState) : Prop :=
  match q with
  | DrawOne => currentPlayerIdx g <> 0 \/ gameOver g = true
  | PlaySelection =>
      currentPlayerIdx g <> 0
      \/ gameOver g = true
      \/ selectedCards g = []
      \/ allSameValue (selectedCardObjects g) = false
      \/ canCardBePlayed (hd_error (selectedCardObjects g))
                         (lastElem (discard g)) (currentColor g) = false
      \/ (exists first,
            hd_error (selectedCardObjects g) = Some first
            /\ type first = wild /\ selectedColor g = None)
  end.

(** The type a value belongs to. *)
Definition typeOfValue (v : CardValue) : CardType :=
  match v with
  | VNum _ => number
  | Skip | Reverse | Draw2 => action
  | Wild | WildPlus4 => wild
  end.

(** A card as [generateDeck] builds them: its type is the type of its
    value, a number is at most 9, and it has no color exactly when it is
    of the wild type. *)
Definition wfCard (c : Card) : bool :=
  CardType_eqb (type c) (typeOfValue (value c))
  && Bool.eqb (CardType_eqb (type c) wild) (Color_eqb (color c) None)
  && match value c with VNum n => n <=? 9 | _ => true end.

(** What every session of a game satisfies. *)
Definition wfSession (g : GameState) : Prop :=
  length (hands g) = 4
  /\ currentPlayerIdx g < 4
  /\ (direction g = 1 \/ direction g = -1)%Z
  /\ (gameOver g = false <-> winner g = None)
  /\ (forall s, winner g = Some s -> s < 4 /\ nth s (hands g) [] = [])
  /\ (gameOver g = false -> forall s, s < 4 -> nth s (hands g) [] <> [])
  /\ NoDup (selectedCards g)
  /\ (gameOver g = false ->
      Forall (fun i => i < length (nth 0 (hands g) [])) (selectedCards g))
  /\ Forall (fun c => wfCard c = true) (allCards g)
  /\ currentColor g <> None
  /\ discard g <> [].

(** The session [g] is dealt from the deck [generated]: the last card of
    the deck is the starter, the 7 cards under it are the hand of seat 0,
    the next 7 the hand of seat 1, and so on; what is left is the draw
    pile.  Seat 0 begins, clockwise, with nothing selected. *)
Definition dealtFrom (generated : list Card) (g : GameState) : Prop :=
  exists starter h0 h1 h2 h3,
    generated = deck g ++ h3 ++ h2 ++ h1 ++ h0 ++ [starter]
    /\ hands g = [h0; h1; h2; h3]
    /\ map (@length Card) (hands g) = [7; 7; 7; 7]
    /\ discard g = [starter]
    /\ currentColor g = colorOrRed (color starter)
    /\ currentPlayerIdx g = 0 /\ direction g = 1%Z
    /\ gameOver g = false /\ winner g = None
    /\ selectedCards g = [] /\ selectedColor g = None
    /\ skipNextPlayer g = false.

Section Reachability.
Context {RS : RandomSource}.

(** The sessions of a game: the initial one, and what the handlers of the
    interface and the opponent effect make of a session, for every outcome
    of the random source. *)
Inductive reachable : GameState -> Prop :=
| reach_initial (r : Rng) (g : GameState) :
    fst (initialState r) = Some g -> reachable g
| reach_reset (r : Rng) (g0 g : GameState) :
    reachable g0 -> fst (resetGame r g0) = Some g -> reachable g
| reach_toggle (i : nat) (g : GameState) :
    reachable g -> reachable (toggleCardSelection i g)
| reach_color (c : ColorName) (g : GameState) :
    reachable g -> reachable (chooseColor c g)
| reach_cancel (g : GameState) :
    reachable g -> reachable (cancelSelection g)
| reach_play (r : Rng) (g : GameState) :
    reachable g -> reachable (fst (handlePlayerPlay r g))
| reach_draw (r : Rng) (g : GameState) :
    reachable g -> reachable (fst (handlePlayerDraw r g))
| reach_opponent (r : Rng) (g : GameState) :
    reachable g -> reachable (fst (opponentTurnEffect r g)).
End Reachability.

(** ** A seeded random source

    An executable random source: the state is a counter; ids are its
    decimals, a shuffle rotates the array by the counter and the index into
    [COLORS] is the counter modulo four. *)
Module Seeded.
Definition rotate (k : nat) (l : list Card) : list Card :=
  skipn (k mod length l) l ++ firstn (k mod length l) l.

Definition nextId (r : nat) : string * nat :=
  (NilEmpty.string_of_uint (Nat.to_uint r), S r).

Definition rotateBy (r : nat) (l : list Card) : list Card * nat :=
  (rotate r l, S r).

Definition mod4 (r : nat) : nat * nat := (r mod 4, S r).

#[export, refine] Instance source : RandomSource :=
  {| Rng := nat;
     randId := nextId;
     shuffle := rotateBy;
     random4 := mod4 |}.
Proof.
  - intros r l. unfold rotateBy, rotate; cbn [fst].
    rewrite Permutation_app_comm. now rewrite firstn_skipn.
  - intros r. unfold mod4; cbn [fst]. apply Nat.mod_upper_bound. discriminate.
Defined.

(** The seed of the concrete runs below. *)
Definition seed : @Rng source := 0.
End Seeded.

(** ** Concrete sessions *)

Module Examples.

Definition r5 : Card := mkCard "r5" number (Some red) (VNum 5).
Definition b3 : Card := mkCard "b3" number (Some blue) (VNum 3).
Definition b9 : Card := mkCard "b9" number (Some blue) (VNum 9).
Definition g1 : Card := mkCard "g1" number (Some green) (VNum 1).
Definition y2 : Card := mkCard "y2" number (Some yellow) (VNum 2).
Definition y4 : Card := mkCard "y4" number (Some yellow) (VNum 4).
Definition g7 : Card := mkCard "g7" number (Some green) (VNum 7).
Definition b6 : Card := mkCard "b6" number (Some blue) (VNum 6).
Definition redDraw2 : Card := mkCard "rd" action (Some red) Draw2.
Definition redSkip : Card := mkCard "rs" action (Some red) Skip.

(** Seat 0 is to play; [lead] is the card it holds besides a blue 3 and
    has selected.  A red 5 lies on the discard pile, the active color is
    red, three cards are on the draw pile (the green 7 on top) and play
    goes clockwise. *)
Definition humanHolds (lead : Card) : GameState :=
  {| deck := [y4; b6; g7];
     discard := [r5];
     hands := [[lead; b3]; [g1]; [y2]; [b9]];
     currentColor := Some red;
     currentPlayerIdx := 0;
     direction := 1;
     gameOver := false;
     winner := None;
     message := MsgYourTurn;
     selectedColor := None;
     selectedCards := [0];
     skipNextPlayer := false |}.

(** Seat 3 is to play and holds a single card, a red Draw2. *)
Definition opponentLastCard : GameState :=
  {| deck := [y4; b6; g7];
     discard := [r5];
     hands := [[b3]; [g1]; [y2]; [redDraw2]];
     currentColor := Some red;
     currentPlayerIdx := 3;
     direction := 1;
     gameOver := false;
     winner := None;
     message := MsgYourTurn;
     selectedColor := None;
     selectedCards := [];
     skipNextPlayer := false |}.
End Examples.

Module MoreExamples.
Import Examples.

Definition r9 : Card := mkCard "r9" number (Some red) (VNum 9).
Definition redReverse : Card := mkCard "rr" action (Some red) Reverse.
Definition wild1 : Card := mkCard "w1" wild None Wild.

(** Seat 0 is to play its last card, a red 9 it has selected. *)
Definition humanLastCard : GameState :=
  {| deck := [y4; b6; g7];
     discard := [r5];
     hands := [[r9]; [g1]; [y2]; [b9]];
     currentColor := Some red;
     currentPlayerIdx := 0;
     direction := 1;
     gameOver := false;
     winner := None;
     message := MsgYourTurn;
     selectedColor := None;
     selectedCards := [0];
     skipNextPlayer := false |}.

(** Seat 0 holds a Wild and a blue 3 and has selected nothing. *)
Definition humanWithWild : GameState :=
  {| deck := [y4; b6; g7];
     discard := [r5];
     hands := [[wild1; b3]; [g1]; [y2]; [b9]];
     currentColor := Some red;
     currentPlayerIdx := 0;
     direction := 1;
     gameOver := false;
     winner := None;
     message := MsgYourTurn;
     selectedColor := None;
     selectedCards := [];
     skipNextPlayer := false |}.

(** Seat 0 is to play on a table whose draw pile is empty; [pile] is the
    discard pile. *)
Definition emptyDrawPile (pile : list Card) : GameState :=
  {| deck := [];
     discard := pile;
     hands := [[b3]; [g1]; [y2]; [b9]];
     currentColor := Some red;
     currentPlayerIdx := 0;
     direction := 1;
     gameOver := false;
     winner := None;
     message := MsgYourTurn;
     selectedColor := None;
     selectedCards := [];
     skipNextPlayer := false |}.

(** Seat 3 is to play and holds a red Skip and a blue 9. *)
Definition opponentHoldsSkip : GameState :=
  {| deck := [y4; b6; g7];
     discard := [r5];
     hands := [[b3]; [g1]; [y2]; [redSkip; b9]];
     currentColor := Some red;
     currentPlayerIdx := 3;
     direction := 1;
     gameOver := false;
     winner := None;
     message := MsgYourTurn;
     selectedColor := None;
     selectedCards := [];
     skipNextPlayer := false |}.

Definition r1 : Card := mkCard "r1" number (Some red) (VNum 1).
Definition r2 : Card := mkCard "r2" number (Some red) (VNum 2).
Definition r3 : Card := mkCard "r3" number (Some red) (VNum 3).

(** Ten distinct cards: the draw pile is empty, a red 9 lies under a red 5
    on the discard pile, and seat 0 is to play. *)
Definition beforeRecycling : GameState :=
  {| deck := [];
     discard := [r9; r5];
     hands := [[b3]; [r2; g7]; [r3; y4]; [r1; b6]];
     currentColor := Some red;
     currentPlayerIdx := 0;
     direction := 1;
     gameOver := false;
     winner := None;
     message := MsgYourTurn;
     selectedColor := None;
     selectedCards := [];
     skipNextPlayer := false |}.
End MoreExamples.

(** * Properties *)

(** ** Arrays *)

Section ArrayFacts.
Variable A : Type.
Implicit Types l t : list A.

Lemma pop_app_last l x : pop (l ++ [x]) = Some (x, l).
Proof.
  induction l as [|y l IH]; simpl; [reflexivity|].
  now rewrite IH.
Qed.

Lemma pop_Some l x t : pop l = Some (x, t) -> l = t ++ [x].
Proof.
  revert x t. induction l as [|y l IH]; simpl; intros x t H; [discriminate|].
  destruct (pop l) as [[z t']|] eqn:E.
  - inversion H; subst. simpl. f_equal. now apply IH.
  - inversion H; subst. destruct l as [|w l]; [reflexivity|].
    simpl in E. destruct (pop l) as [[? ?]|]; discriminate.
Qed.

Lemma pop_None l : pop l = None -> l = [].
Proof.
  destruct l as [|y l]; simpl; [reflexivity|].
  destruct (pop l) as [[? ?]|]; discriminate.
Qed.

Lemma pop_nonempty l : l <> [] -> exists x t, pop l = Some (x, t).
Proof.
  intros H. destruct (pop l) as [[x t]|] eqn:E; [eauto|].
  apply pop_None in E. contradiction.
Qed.

Lemma length_assign i (x : A) l : length (assign i x l) = length l.
Proof.
  revert i; induction l as [|h l IH]; intros [|i]; simpl; auto.
Qed.

Lemma nth_assign_same i (x d : A) l : i < length l -> nth i (assign i x l) d = x.
Proof.
  revert i; induction l as [|h l IH]; intros [|i] H; simpl in *; try lia; auto.
  apply IH. lia.
Qed.

Lemma nth_assign_other i j (x d : A) l : i <> j -> nth j (assign i x l) d = nth j l d.
Proof.
  revert i j; induction l as [|h l IH]; intros [|i] [|j] H; simpl; auto; try lia.
Qed.
End ArrayFacts.

(** ** The seat ring *)

Lemma getNextPlayerIdx_lt (s : nat) (d : Z) : getNextPlayerIdx s d < 4.
Proof.
  unfold getNextPlayerIdx, indexOf.
  destruct s as [|[|[|[|s]]]]; destruct (d =? 1)%Z; simpl; lia.
Qed.

Lemma getNextPlayerIdx_neq (s : nat) (d : Z) : s < 4 -> getNextPlayerIdx s d <> s.
Proof.
  intros H. unfold getNextPlayerIdx, indexOf.
  destruct s as [|[|[|[|s]]]]; try lia; destruct (d =? 1)%Z; simpl; lia.
Qed.

(** C9 -- [getNextPlayerIdx] walks the ring 0 -> 3 -> 1 -> 2 -> 0 clockwise
    for direction +1 and the other way round for direction -1, and going one
    seat on in a direction and one seat on in the opposite direction comes
    back to the seat one started from, for each of the four seats. *)
Theorem getNextPlayerIdx_involution (s : nat) (d : Z) :
  s < 4 -> (d = 1 \/ d = -1)%Z ->
  getNextPlayerIdx (getNextPlayerIdx s d) (- d) = s
  /\ map (fun x => getNextPlayerIdx x 1) [0; 3; 1; 2] = [3; 1; 2; 0]
  /\ map (fun x => getNextPlayerIdx x (-1)) [3; 1; 2; 0] = [0; 3; 1; 2].
Proof.
  intros Hs Hd. split; [|split; reflexivity].
  destruct Hd as [-> | ->];
    destruct s as [|[|[|[|s]]]]; try lia; reflexivity.
Qed.

Lemma getNextPlayerIdx_involution_witness :
  2 < 4 /\ (1 = 1 \/ 1 = -1)%Z
  /\ getNextPlayerIdx (getNextPlayerIdx 2 1) (- (1)) = 2.
Proof.
  split; [lia|]. split; [left; reflexivity|].
  apply (getNextPlayerIdx_involution (s := 2) (d := 1)); [lia | left; reflexivity].
Defined.

(** ** Legality *)

Lemma CardType_eqb_eq (a b : CardType) : CardType_eqb a b = true <-> a = b.
Proof. destruct a, b; simpl; split; congruence. Qed.

Lemma ColorName_eqb_eq (a b : ColorName) : ColorName_eqb a b = true <-> a = b.
Proof. destruct a, b; simpl; split; congruence. Qed.

Lemma Color_eqb_eq (a b : Color) : Color_eqb a b = true <-> a = b.
Proof.
  destruct a as [x|], b as [y|]; simpl; try (split; congruence).
  rewrite ColorName_eqb_eq. split; congruence.
Qed.

Lemma CardValue_eqb_eq (a b : CardValue) : CardValue_eqb a b = true <-> a = b.
Proof.
  destruct a, b; simpl; try (split; congruence).
  rewrite Nat.eqb_eq. split; congruence.
Qed.

Lemma Card_eqb_eq (a b : Card) : Card_eqb a b = true <-> a = b.
Proof.
  destruct a, b; unfold Card_eqb; simpl.
  rewrite !andb_true_iff, String.eqb_eq, CardType_eqb_eq, Color_eqb_eq, CardValue_eqb_eq.
  split; [intros [[[-> ->] ->] ->]; reflexivity | intros H; inversion H; auto].
Qed.

(** C7 -- a card is playable on a top card under an active color exactly
    when it is of the wild type, or its color is the active color, or its
    value is the value of the top card; the last case does not look at the
    active color: a blue 5 is playable on a red 5 while the active color is
    green. *)
Theorem canCardBePlayed_spec (c t : Card) (activeColor : Color) :
  (canCardBePlayed (Some c) (Some t) activeColor = true
   <-> type c = wild \/ color c = activeColor \/ value c = value t)
  /\ canCardBePlayed (Some (mkCard "b5" number (Some blue) (VNum 5)))
                     (Some (mkCard "r5" number (Some red) (VNum 5)))
                     (Some green) = true.
Proof.
  split; [|reflexivity].
  unfold canCardBePlayed.
  rewrite <- CardType_eqb_eq, <- Color_eqb_eq, <- CardValue_eqb_eq.
  destruct (CardType_eqb (type c) wild), (Color_eqb (color c) activeColor),
    (CardValue_eqb (value c) (value t)); intuition congruence.
Qed.

(** ** Deck composition *)

Lemma removeFirst_perm (x : Face) (l l' : list Face) :
  removeFirst x l = Some l' -> Permutation l (x :: l').
Proof.
  revert l'. induction l as [|y t IH]; simpl; intros l' H; [discriminate|].
  destruct (Face_eq_dec x y) as [->|_].
  - inversion H; subst. reflexivity.
  - destruct (removeFirst x t) as [t'|]; [|discriminate].
    inversion H; subst. rewrite (IH t' eq_refl). apply perm_swap.
Qed.

Lemma sameFaces_perm (l1 l2 : list Face) :
  sameFaces l1 l2 = true -> Permutation l1 l2.
Proof.
  revert l2. induction l1 as [|x t IH]; simpl; intros l2 H.
  - destruct l2; [constructor | discriminate].
  - destruct (removeFirst x l2) as [l2'|] eqn:E; [|discriminate].
    apply removeFirst_perm in E. rewrite E. constructor. now apply IH.
Qed.

Section DeckFacts.
Context {RS : RandomSource}.

Lemma generateDeck_faces (r : Rng) :
  Permutation (map faceOf (fst (generateDeck r))) specDeckFaces.
Proof.
  unfold generateDeck.
  match goal with
  | |- context [shuffle (snd ?st) (fst ?st)] => set (built := st)
  end.
  transitivity (map faceOf (fst built)).
  - apply Permutation_map, shuffle_perm.
  - apply sameFaces_perm. subst built. vm_compute. reflexivity.
Qed.

Lemma generateDeck_length (r : Rng) : length (fst (generateDeck r)) = 108.
Proof.
  rewrite <- (length_map faceOf).
  rewrite (Permutation_length (generateDeck_faces r)). reflexivity.
Qed.

Lemma generateDeck_count (r : Rng) (f : Face) :
  count_occ Face_eq_dec (map faceOf (fst (generateDeck r))) f
  = count_occ Face_eq_dec specDeckFaces f.
Proof. now apply Permutation_count_occ, generateDeck_faces. Qed.

(** C5 -- whatever the random source does, the deck [generateDeck] builds
    has 108 cards and shows exactly the faces of the specification: for
    each of the four colors one 0, two of each number 1 to 9 and two of
    each of Skip, Reverse and Draw2, and four Wild and four Wild+4 cards
    of no color, and nothing else. *)
Theorem generateDeck_composition (r : Rng) :
  let d := fst (generateDeck r) in
  let occ := count_occ Face_eq_dec (map faceOf d) in
  length d = 108
  /\ Permutation (map faceOf d) specDeckFaces
  /\ Forall (fun col =>
       occ (number, Some col, VNum 0) = 1
       /\ Forall (fun n => occ (number, Some col, VNum n) = 2) (seq 1 9)
       /\ Forall (fun a => occ (action, Some col, a) = 2) ACTION_CARDS) COLORS
  /\ occ (wild, None, Wild) = 4
  /\ occ (wild, None, WildPlus4) = 4.
Proof.
  intros d occ. subst d occ.
  split; [apply generateDeck_length|].
  split; [apply generateDeck_faces|].
  repeat (first [ apply conj | apply Forall_cons | apply Forall_nil
                | rewrite generateDeck_count; reflexivity ]).
Qed.
End DeckFacts.

(** ** Session creation *)

Section SessionFacts.
Context {RS : RandomSource}.

Lemma generateDeck_wild_colorless (r : Rng) (c : Card) :
  In c (fst (generateDeck r)) -> (type c = wild <-> color c = None).
Proof.
  intros Hin.
  assert (Hf : In (faceOf c) specDeckFaces).
  { apply (Permutation_in _ (generateDeck_faces r)). now apply in_map. }
  assert (Hall : forallb wildIffColorless specDeckFaces = true) by reflexivity.
  rewrite forallb_forall in Hall. specialize (Hall _ Hf).
  unfold faceOf, wildIffColorless in Hall.
  apply eqb_prop in Hall.
  rewrite <- CardType_eqb_eq, <- Color_eqb_eq, Hall. reflexivity.
Qed.

Lemma freshSession_starter (r : Rng) :
  starterColorRule (freshSession (fst (generateDeck r))).
Proof.
  unfold starterColorRule, freshSession.
  destruct (pop_nonempty (l := fst (generateDeck r))) as (starter & rest & Hpop).
  { intros E. pose proof (generateDeck_length r) as L. rewrite E in L. discriminate. }
  rewrite Hpop. eexists; exists starter. split; [reflexivity|]. simpl.
  assert (Hw : type starter = wild <-> color starter = None).
  { apply (generateDeck_wild_colorless r). rewrite (pop_Some _ Hpop).
    apply in_or_app. right. now left. }
  split; [reflexivity|].
  split; [intros c Hc; now rewrite Hc|].
  split; [exact Hw|].
  split; [intros Ht; apply Hw in Ht; now rewrite Ht|].
  split; [destruct (color starter); discriminate | reflexivity].
Qed.

(** C10 -- the session [initialState] builds, and the one [resetGame] puts
    in place of any session, exists for every outcome of the random source
    and has the starter card alone on the discard pile; its active color
    is the starter's color when the starter has one and red when the
    starter is of the wild type (which is when it has no color), so it is
    never unset, and no color choice is pending. *)
Theorem wild_starter_defaults_to_red (r : Rng) (g0 : GameState) :
  starterColorRule (fst (initialState r))
  /\ starterColorRule (fst (resetGame r g0)).
Proof. split; apply freshSession_starter. Qed.
End SessionFacts.

(** ** Draw / recycle *)

Section DrawFacts.
Context {RS : RandomSource}.
Implicit Types dk dc drawn : list Card.

Lemma slice_nonempty dc : 1 < length dc -> slice_0_m1 dc <> [].
Proof.
  intros H E. unfold slice_0_m1 in E.
  destruct dc as [|a [|b t]]; simpl in *; try lia; discriminate.
Qed.

Lemma shuffle_nonempty (r : Rng) (l : list Card) :
  l <> [] -> fst (shuffle r l) <> [].
Proof.
  intros H E. pose proof (shuffle_perm r l) as P. rewrite E in P.
  apply Permutation_nil in P. contradiction.
Qed.

Lemma length_zero_nil (l : list Card) : (length l =? 0) = true -> l = [].
Proof. destruct l; simpl; [reflexivity | discriminate]. Qed.

(** Every card the loop hands out, and every card it leaves on the draw
    pile, was drawn before, lay on the draw pile, or lies on the discard
    pile under its top card. *)
Lemma drawLoop_provenance dc (n : nat) : forall dk drawn (r : Rng) (c : Card),
  In c (fst (fst (drawLoop dc n dk drawn r)))
  \/ In c (snd (fst (drawLoop dc n dk drawn r))) ->
  In c drawn \/ In c dk \/ In c (slice_0_m1 dc).
Proof.
  induction n as [|n IH]; intros dk drawn r c; simpl.
  - tauto.
  - destruct (length dk =? 0) eqn:Ek.
    + apply length_zero_nil in Ek; subst dk.
      destruct (1 <? length dc) eqn:Ed; [|simpl; tauto].
      destruct (shuffle r (slice_0_m1 dc)) as [d r1] eqn:Es.
      assert (Hd : forall x, In x d -> In x (slice_0_m1 dc)).
      { intros x Hx. apply (Permutation_in x (shuffle_perm r (slice_0_m1 dc))).
        now rewrite Es. }
      destruct (pop d) as [[x d2]|] eqn:Ep.
      * apply pop_Some in Ep. subst d. intros H. apply IH in H.
        rewrite in_app_iff in H. simpl in H.
        destruct H as [[H|[<-|[]]]|[H|H]]; auto; right; right; apply Hd;
          rewrite in_app_iff; simpl; auto.
      * apply pop_None in Ep. subst d. intros H. apply IH in H.
        simpl in H. tauto.
    + destruct (pop dk) as [[x d2]|] eqn:Ep.
      * apply pop_Some in Ep. subst dk. intros H. apply IH in H.
        rewrite !in_app_iff in *. simpl in *. tauto.
      * intros H. apply IH in H. tauto.
Qed.

(** With at most one card on the discard pile the loop only pops the draw
    pile, top first, and stops when it is empty. *)
Lemma drawLoop_no_recycle dc (n : nat) : forall dk drawn (r : Rng),
  length dc <= 1 ->
  drawLoop dc n dk drawn r
  = ((drawn ++ rev (skipn (length dk - n) dk), firstn (length dk - n) dk), r).
Proof.
  induction n as [|n IH]; intros dk drawn r Hdc; simpl.
  - rewrite Nat.sub_0_r, skipn_all, firstn_all, app_nil_r. reflexivity.
  - destruct (length dk =? 0) eqn:Ek.
    + apply length_zero_nil in Ek; subst dk.
      assert (E : (1 <? length dc) = false) by (apply Nat.ltb_ge; lia).
      rewrite E. simpl. now rewrite app_nil_r.
    + destruct (pop dk) as [[x d2]|] eqn:Ep.
      * apply pop_Some in Ep. subst dk. rewrite (IH _ _ _ Hdc).
        rewrite length_app. simpl.
        replace (length d2 + 1 - S n) with (length d2 - n) by lia.
        rewrite skipn_app, firstn_app.
        replace (length d2 - n - length d2) with 0 by lia. simpl.
        rewrite rev_app_distr, app_nil_r. simpl. now rewrite <- app_assoc.
      * apply pop_None in Ep. subst dk. discriminate.
Qed.

(** When the draw pile is empty and the discard pile has more than one
    card, the loop goes on with the shuffled discard pile without its top
    card as the draw pile. *)
Lemma drawLoop_recycle dc (n : nat) drawn (r : Rng) :
  1 < length dc ->
  drawLoop dc (S n) [] drawn r
  = drawLoop dc (S n) (fst (shuffle r (slice_0_m1 dc))) drawn
             (snd (shuffle r (slice_0_m1 dc))).
Proof.
  intros Hdc. cbn [drawLoop].
  assert (E : (1 <? length dc) = true) by now apply Nat.ltb_lt.
  pose proof (@shuffle_nonempty r _ (@slice_nonempty dc Hdc)) as Hne.
  change (length (@nil Card) =? 0) with true. cbv iota. rewrite E.
  destruct (shuffle r (slice_0_m1 dc)) as [d r1]. cbn [fst snd] in *.
  destruct d as [|a d]; [contradiction|]. reflexivity.
Qed.

Lemma lastElem_split (l : list Card) (T : Card) :
  lastElem l = Some T -> l = slice_0_m1 l ++ [T].
Proof.
  unfold lastElem. destruct (pop l) as [[x t]|] eqn:E; [|discriminate].
  intros H; inversion H; subst. apply pop_Some in E. subst l.
  unfold slice_0_m1. now rewrite removelast_last.
Qed.
End DrawFacts.

(** *** The store *)

Lemma readArr_write_same (st : Store) (p : Ref) (a : list Card) :
  p < length st -> readArr (writeArr st p a) p = a.
Proof. intros H. unfold readArr, writeArr. now apply nth_assign_same. Qed.

Lemma readArr_write_other (st : Store) (p q : Ref) (a : list Card) :
  p <> q -> readArr (writeArr st p a) q = readArr st q.
Proof. intros H. unfold readArr, writeArr. now apply nth_assign_other. Qed.

Lemma length_writeArr (st : Store) (p : Ref) (a : list Card) :
  length (writeArr st p a) = length st.
Proof. apply length_assign. Qed.

Lemma readArr_alloc_new (st : Store) (a : list Card) :
  readArr (fst (allocArr st a)) (snd (allocArr st a)) = a.
Proof.
  unfold readArr, allocArr. cbn [fst snd].
  rewrite app_nth2, Nat.sub_diag by lia. reflexivity.
Qed.

Lemma readArr_alloc_old (st : Store) (a : list Card) (q : Ref) :
  q < length st -> readArr (fst (allocArr st a)) q = readArr st q.
Proof. intros H. unfold readArr, allocArr. cbn [fst]. now apply app_nth1. Qed.

Lemma length_alloc (st : Store) (a : list Card) :
  length (fst (allocArr st a)) = S (length st) /\ snd (allocArr st a) = length st.
Proof. unfold allocArr. cbn [fst snd]. rewrite length_app. cbn. split; lia. Qed.

Section DrawStore.
Context {RS : RandomSource}.

(** The loop on the store writes only the arrays it has allocated -- the
    arrays below [n0] are as they were -- and leaves in the arrays of
    [drawn] and [newDeck] what the loop on values computes. *)
Lemma drawLoopS_spec (discardRef : Ref) (n0 : nat) (dc : list Card) (count : nat) :
  forall (nd dr : Ref) (st : Store) (r : Rng),
    discardRef < n0 -> n0 <= nd < length st -> n0 <= dr < length st -> nd <> dr ->
    readArr st discardRef = dc ->
    let out := drawLoopS discardRef count nd dr st r in
    let pure := drawLoop dc count (readArr st nd) (readArr st dr) r in
    (forall p, p < n0 -> readArr (snd (fst out)) p = readArr st p)
    /\ readArr (snd (fst out)) dr = fst (fst pure)
    /\ readArr (snd (fst out)) (fst (fst out)) = snd (fst pure)
    /\ snd out = snd pure.
Proof.
  induction count as [|count IH]; intros nd dr st r Hd Hnd Hdr Hne Hdc;
    cbn [drawLoopS drawLoop]; cbv zeta.
  - cbn [fst snd]. auto.
  - rewrite Hdc.
    destruct (length (readArr st nd) =? 0) eqn:Ek.
    + destruct (1 <? length dc) eqn:Ed; [|cbn [fst snd]; auto].
      destruct (length_alloc st (slice_0_m1 dc)) as [La Lp].
      rewrite readArr_alloc_new.
      set (sliced := allocArr st (slice_0_m1 dc)) in *.
      destruct (shuffle r (slice_0_m1 dc)) as [sh r1]. cbn [fst snd].
      set (p := snd sliced) in *.
      set (st1 := writeArr (fst sliced) p sh).
      assert (L1 : length st1 = S (length st))
        by (subst st1; now rewrite length_writeArr).
      assert (R1 : readArr st1 p = sh)
        by (subst st1; apply readArr_write_same; lia).
      assert (O1 : forall q, q < length st -> readArr st1 q = readArr st q).
      { intros q Hq. subst st1. rewrite readArr_write_other by lia.
        now apply readArr_alloc_old. }
      rewrite R1.
      destruct (pop sh) as [[c rest]|] eqn:Ep.
      * set (st2 := writeArr st1 p rest).
        set (st3 := writeArr st2 dr (readArr st2 dr ++ [c])).
        assert (R2 : readArr st2 dr = readArr st dr).
        { subst st2. rewrite readArr_write_other by lia. apply O1. lia. }
        assert (L3 : length st3 = S (length st))
          by (subst st3 st2; now rewrite !length_writeArr).
        assert (R3p : readArr st3 p = rest).
        { subst st3. rewrite readArr_write_other by lia.
          subst st2. apply readArr_write_same. lia. }
        assert (R3d : readArr st3 dr = readArr st dr ++ [c]).
        { subst st3. rewrite readArr_write_same, R2; [reflexivity|].
          subst st2. rewrite length_writeArr. lia. }
        assert (O3 : forall q, q < n0 -> readArr st3 q = readArr st q).
        { intros q Hq. subst st3 st2. rewrite !readArr_write_other by lia.
          apply O1. lia. }
        destruct (IH p dr st3 r1 Hd ltac:(lia) ltac:(lia) ltac:(lia)
                     ltac:(rewrite O3 by lia; exact Hdc))
          as (I1 & I2 & I3 & I4).
        cbv zeta in I1, I2, I3, I4. rewrite R3p, R3d in *.
        split; [intros q Hq; rewrite I1 by exact Hq; now apply O3|]. auto.
      * destruct (IH p dr st1 r1 Hd ltac:(lia) ltac:(lia) ltac:(lia)
                     ltac:(rewrite O1 by lia; exact Hdc))
          as (I1 & I2 & I3 & I4).
        cbv zeta in I1, I2, I3, I4. rewrite R1, (O1 dr) in * by lia.
        split; [intros q Hq; rewrite I1 by exact Hq; apply O1; lia|]. auto.
    + destruct (pop (readArr st nd)) as [[c rest]|] eqn:Ep.
      * set (st2 := writeArr st nd rest).
        set (st3 := writeArr st2 dr (readArr st2 dr ++ [c])).
        assert (R2 : readArr st2 dr = readArr st dr)
          by (subst st2; apply readArr_write_other; lia).
        assert (L3 : length st3 = length st)
          by (subst st3 st2; now rewrite !length_writeArr).
        assert (R3p : readArr st3 nd = rest).
        { subst st3. rewrite readArr_write_other by lia.
          subst st2. apply readArr_write_same. lia. }
        assert (R3d : readArr st3 dr = readArr st dr ++ [c]).
        { subst st3. rewrite readArr_write_same, R2; [reflexivity|].
          subst st2. rewrite length_writeArr. lia. }
        assert (O3 : forall q, q < n0 -> readArr st3 q = readArr st q).
        { intros q Hq. subst st3 st2. now rewrite !readArr_write_other by lia. }
        destruct (IH nd dr st3 r Hd ltac:(lia) ltac:(lia) Hne
                     ltac:(rewrite O3 by lia; exact Hdc))
          as (I1 & I2 & I3 & I4).
        cbv zeta in I1, I2, I3, I4. rewrite R3p, R3d in *.
        split; [intros q Hq; rewrite I1 by exact Hq; now apply O3|]. auto.
      * destruct (IH nd dr st r Hd Hnd Hdr Hne Hdc) as (I1 & I2 & I3 & I4).
        auto.
Qed.

(** [drawCardsFromDeck] on the store: no array that exists before the
    call is written, and the two arrays it gives back hold what
    [drawCardsFromDeck] on values computes from the contents of the two
    piles. *)
Lemma drawCardsFromDeckS_spec (count : nat) (deckRef discardRef : Ref)
    (st : Store) (r : Rng) :
  deckRef < length st -> discardRef < length st ->
  let out := drawCardsFromDeckS count deckRef discardRef st r in
  let pure := drawCardsFromDeck count (readArr st deckRef) (readArr st discardRef) r in
  let st' := snd (fst out) in
  (forall p, p < length st -> readArr st' p = readArr st p)
  /\ readArr st' (fst (fst (fst out))) = fst (fst pure)
  /\ readArr st' (snd (fst (fst out))) = snd (fst pure)
  /\ snd out = snd pure.
Proof.
  intros Hk Hd. unfold drawCardsFromDeckS, drawCardsFromDeck. cbv zeta.
  destruct (length_alloc st (readArr st deckRef)) as [La Lp].
  set (copied := allocArr st (readArr st deckRef)) in *.
  destruct (length_alloc (fst copied) []) as [Lb Lq].
  set (fresh := allocArr (fst copied) []) in *.
  assert (Rn : readArr (fst fresh) (snd copied) = readArr st deckRef).
  { subst fresh. rewrite readArr_alloc_old by lia. apply readArr_alloc_new. }
  assert (Rd : readArr (fst fresh) (snd fresh) = []) by apply readArr_alloc_new.
  assert (Ro : forall q, q < length st -> readArr (fst fresh) q = readArr st q).
  { intros q Hq. subst fresh. rewrite readArr_alloc_old by lia.
    now apply readArr_alloc_old. }
  destruct (@drawLoopS_spec discardRef (length st) (readArr st discardRef) count
              (snd copied) (snd fresh) (fst fresh) r Hd ltac:(lia) ltac:(lia)
              ltac:(lia) (Ro discardRef Hd))
    as (I1 & I2 & I3 & I4).
  cbv zeta in I1, I2, I3, I4. rewrite Rn, Rd in *. cbn [fst snd].
  split; [intros q Hq; rewrite I1 by exact Hq; now apply Ro|]. auto.
Qed.
End DrawStore.

Section DrawClaim.
Context {RS : RandomSource}.

(** C6 -- [drawCardsFromDeck(count, drawPile, discardPile)], for every
    call: every card it draws or leaves on the draw pile comes from the
    draw pile or from the discard pile below its top position; at an
    iteration that finds the draw pile empty and more than one card on
    the discard pile, the loop goes on with a rearrangement of the
    discard pile without its top position as the draw pile; so the card
    on top of the discard pile is not among the drawn cards, unless the
    same card object also lies on the draw pile or lower in the discard
    pile; with one or no card on the discard pile the routine pops the
    draw pile, top first, then stops, consuming no randomness, and gives
    fewer than [count] cards when the draw pile is shorter than [count];
    run on the arrays themselves, the routine writes no array that
    existed before the call -- the discard pile and the draw pile it is
    given are read only -- and the two arrays it gives back hold the
    drawn cards and the new draw pile. *)
Theorem drawCardsFromDeck_recycle (count : nat) (dk dc : list Card) (r : Rng) :
  let res := drawCardsFromDeck count dk dc r in
  let drawn := fst (fst res) in
  let newDeck := snd (fst res) in
  (forall c, In c drawn \/ In c newDeck -> In c dk \/ In c (slice_0_m1 dc))
  /\ (1 < length dc -> forall n drawn0 r0,
        Permutation (fst (shuffle r0 (slice_0_m1 dc))) (slice_0_m1 dc)
        /\ drawLoop dc (S n) [] drawn0 r0
           = drawLoop dc (S n) (fst (shuffle r0 (slice_0_m1 dc))) drawn0
                      (snd (shuffle r0 (slice_0_m1 dc))))
  /\ (forall T, lastElem dc = Some T ->
        ~ In T dk -> ~ In T (slice_0_m1 dc) -> ~ In T drawn)
  /\ (length dc <= 1 ->
        drawn = rev (skipn (length dk - count) dk)
        /\ newDeck = firstn (length dk - count) dk
        /\ snd res = r
        /\ length drawn = Nat.min count (length dk))
  /\ (length dc <= 1 -> length dk < count -> length drawn < count)
  /\ (forall (st : Store) (deckRef discardRef : Ref),
        deckRef < length st -> discardRef < length st ->
        readArr st deckRef = dk -> readArr st discardRef = dc ->
        let out := drawCardsFromDeckS count deckRef discardRef st r in
        let st' := snd (fst out) in
        (forall p, p < length st -> readArr st' p = readArr st p)
        /\ readArr st' discardRef = dc
        /\ readArr st' deckRef = dk
        /\ readArr st' (fst (fst (fst out))) = drawn
        /\ readArr st' (snd (fst (fst out))) = newDeck
        /\ snd out = snd res).
Proof.
  intros res drawn newDeck.
  assert (Hprov : forall c, In c drawn \/ In c newDeck ->
                            In c dk \/ In c (slice_0_m1 dc)).
  { intros c H. subst drawn newDeck res. unfold drawCardsFromDeck in H.
    apply drawLoop_provenance in H. simpl in H. tauto. }
  assert (Hstop : length dc <= 1 ->
                  drawn = rev (skipn (length dk - count) dk)
                  /\ newDeck = firstn (length dk - count) dk
                  /\ snd res = r
                  /\ length drawn = Nat.min count (length dk)).
  { intros Hdc. subst drawn newDeck res. unfold drawCardsFromDeck.
    rewrite (@drawLoop_no_recycle _ dc count dk [] r Hdc). cbn [fst snd app].
    repeat split. rewrite length_rev, length_skipn. lia. }
  split; [exact Hprov|].
  split; [intros Hdc n drawn0 r0; split;
          [apply shuffle_perm | now apply drawLoop_recycle]|].
  split.
  { intros T _ Hk Hs Hin. destruct (Hprov T (or_introl Hin)); contradiction. }
  split; [exact Hstop|].
  split.
  { intros Hdc Hlt. destruct (Hstop Hdc) as (_ & _ & _ & ->). lia. }
  intros st deckRef discardRef Hk Hd Ek Ed. cbv zeta.
  destruct (@drawCardsFromDeckS_spec _ count deckRef discardRef st r Hk Hd)
    as (I1 & I2 & I3 & I4).
  cbv zeta in I1, I2, I3, I4. rewrite Ek, Ed in I2, I3, I4.
  split; [exact I1|].
  split; [now rewrite I1 by exact Hd|].
  split; [now rewrite I1 by exact Hk|].
  auto.
Qed.
End DrawClaim.

(** ** Rejected requests of the human seat *)

Section Rejection.
Context {RS : RandomSource}.

Lemma CardValue_eqb_refl (v : CardValue) : CardValue_eqb v v = true.
Proof. now apply CardValue_eqb_eq. Qed.

Lemma allSameValue_short (l : list Card) : length l <= 1 -> allSameValue l = true.
Proof.
  destruct l as [|a [|b t]]; simpl; intros H; try lia; auto.
  now rewrite CardValue_eqb_refl.
Qed.

Lemma sameGameplay_refl (g : GameState) : sameGameplay g g.
Proof. repeat split. Qed.

Lemma sameGameplay_clear (g : GameState) : sameGameplay g (clearSelection g).
Proof. repeat split. Qed.

(** C8 -- a request of the human seat that is invalid (for a draw: it is
    not seat 0's turn or the session is over; for a play, besides these:
    the selection is empty, the selected cards do not all have one value,
    the first selected card is not playable, or it is of the wild type
    and no color is chosen) leaves the draw pile, the discard pile, the
    hands, the active color, the current seat, the direction, the
    game-over flag and the winner as they were and consumes no randomness:
    the session comes back as it was or with its selection emptied, and a
    rejected draw gives the session back as it was. *)
Theorem invalid_request_is_noop (q : Request) (r : Rng) (g : GameState) :
  requestInvalid q g ->
  sameGameplay g (fst (handleRequest q r g))
  /\ snd (handleRequest q r g) = r
  /\ (fst (handleRequest q r g) = g \/ fst (handleRequest q r g) = clearSelection g)
  /\ (q = DrawOne -> fst (handleRequest q r g) = g).
Proof.
  intros Hinv.
  assert (H : handleRequest q r g = (g, r)
              \/ (q = PlaySelection /\ handleRequest q r g = (clearSelection g, r))).
  { destruct q; cbn [requestInvalid handleRequest] in *.
    - unfold handlePlayerPlay.
      set (objs := selectedCardObjects g) in *.
      destruct (currentPlayerIdx g =? 0) eqn:Ec; cbn [negb orb]; [|left; reflexivity].
      destruct (gameOver g) eqn:Eg; [left; reflexivity|].
      destruct (selectedCards g) as [|i sel] eqn:Es; [left; reflexivity|].
      cbn [length Nat.eqb].
      destruct objs as [|first rest] eqn:Eo; [right; split; reflexivity|].
      destruct ((1 <? length (first :: rest)) && negb (allSameValue (first :: rest)))
        eqn:Ea; [right; split; reflexivity|].
      destruct (canCardBePlayed (Some first) (lastElem (discard g)) (currentColor g))
        eqn:Ep; cbn [negb]; [|right; split; reflexivity].
      destruct (CardType_eqb (type first) wild && Color_eqb (selectedColor g) None)
        eqn:Ew; [left; reflexivity|].
      exfalso.
      apply Nat.eqb_eq in Ec.
      destruct Hinv as [H|[H|[H|[H|[H|(f & Hf & Ht & Hc)]]]]];
        try congruence.
      + rewrite H in Ea. cbn [negb] in Ea.
        rewrite andb_true_r in Ea. apply Nat.ltb_ge in Ea.
        rewrite (allSameValue_short _ Ea) in H. discriminate.
      + cbn [hd_error] in H. congruence.
      + cbn [hd_error] in Hf. inversion Hf; subst f. rewrite Ht, Hc in Ew. discriminate.
    - unfold handlePlayerDraw.
      destruct Hinv as [H|H].
      + apply Nat.eqb_neq in H. rewrite H. left; reflexivity.
      + rewrite H, orb_true_r. left; reflexivity. }
  destruct H as [H|[Hq H]]; rewrite H; cbn [fst snd].
  - split; [apply sameGameplay_refl|]. auto.
  - split; [apply sameGameplay_clear|]. subst q.
    split; [reflexivity|]. split; [now right | discriminate].
Qed.
End Rejection.

(** ** Turn resolution *)

Section Turn.
Context {RS : RandomSource}.

Lemma lastElem_last (l : list Card) (d : Card) :
  l <> [] -> lastElem l = Some (last l d).
Proof.
  intros H. unfold lastElem.
  destruct (pop_nonempty H) as (x & t & E). rewrite E.
  apply pop_Some in E. subst l. now rewrite last_last.
Qed.

Lemma cardsToPlayOf_nonempty (firstCard : Card) (valid : list Card) :
  cardsToPlayOf firstCard valid <> [].
Proof.
  unfold cardsToPlayOf.
  destruct (1 <? length (filter _ valid)) eqn:E; [|discriminate].
  apply Nat.ltb_lt in E. intros H. rewrite H in E. simpl in E. lia.
Qed.

Lemma playAccepted_commit (r : Rng) (g : GameState) :
  playAccepted g = true ->
  currentPlayerIdx g = 0 /\ gameOver g = false
  /\ exists first rest,
       selectedCardObjects g = first :: rest
       /\ handlePlayerPlay r g = commitPlayerPlay r g first (first :: rest).
Proof.
  unfold playAccepted, handlePlayerPlay.
  destruct (currentPlayerIdx g =? 0) eqn:Ec; [|discriminate].
  destruct (gameOver g); [discriminate|]. cbn [negb orb andb].
  destruct (length (selectedCards g) =? 0); [discriminate|]. cbn [negb andb].
  destruct (selectedCardObjects g) as [|first rest]; [discriminate|].
  intros H. apply andb_prop in H as [H Hw]. apply andb_prop in H as [Ha Hp].
  apply negb_true_iff in Ha, Hw. rewrite Ha, Hp, Hw. cbn [negb].
  apply Nat.eqb_eq in Ec. eauto 6.
Qed.

Lemma opponent_commit (r : Rng) (g : GameState) :
  currentPlayerIdx g <> 0 -> moveAccepted g = true ->
  gameOver g = false
  /\ exists firstCard rest,
       validCardsOf g = firstCard :: rest
       /\ opponentTurnEffect r g = commitOpponentPlay r g firstCard (validCardsOf g).
Proof.
  intros Hc. unfold moveAccepted, opponentTurnEffect.
  apply Nat.eqb_neq in Hc. rewrite Hc.
  destruct (gameOver g); [discriminate|]. cbn [negb orb andb].
  destruct (validCardsOf g) as [|firstCard rest]; [discriminate|].
  intros _. eauto.
Qed.

(** The color an opponent draws after a wild card is one of the four. *)
Lemma opponent_color_pick (r : Rng) :
  exists c, nth_error COLORS (fst (random4 r)) = Some c /\ In c COLORS.
Proof.
  pose proof (random4_lt r) as H.
  destruct (fst (random4 r)) as [|[|[|[|n]]]]; simpl; eauto 7; lia.
Qed.

Lemma cardEffect_draw (seat : nat) (dir : Z) (lastCard : Card)
    (played dk nd : list Card) (nh : list (list Card)) (r : Rng)
    (v : CardValue) (k : nat) :
  value lastCard = v ->
  (v = Draw2 /\ k = 2 \/ v = WildPlus4 /\ k = 4) ->
  cardEffect seat dir lastCard played dk nd nh r
  = (getNextPlayerIdx seat dir, false, dir,
     fst (penaltyDraw (countValue v played * k) dk nd (getNextPlayerIdx seat dir) nh r),
     snd (penaltyDraw (countValue v played * k) dk nd (getNextPlayerIdx seat dir) nh r)).
Proof.
  intros Hv [[-> ->]|[-> ->]]; unfold cardEffect; rewrite Hv; reflexivity.
Qed.
End Turn.

Section PenaltyDraw.
Context {RS : RandomSource}.

Lemma length_nonzero (l : list Card) : l <> [] -> (length l =? 0) = false.
Proof. destruct l; [contradiction | reflexivity]. Qed.

(** The hands after a penalty draw: the drawing seat gets the drawn cards
    behind its hand, the other seats keep theirs. *)
Lemma penaltyDraw_hands (count : nat) (dk dc : list Card) (seat : nat)
    (nh : list (list Card)) (r : Rng) :
  seat < length nh ->
  nth seat (fst (penaltyDraw count dk dc seat nh r)) []
  = nth seat nh [] ++ fst (fst (drawCardsFromDeck count dk dc r))
  /\ forall s, s <> seat ->
       nth s (fst (penaltyDraw count dk dc seat nh r)) [] = nth s nh [].
Proof.
  intros H. unfold penaltyDraw. cbn [fst]. split.
  - now apply nth_assign_same.
  - intros s Hs. apply nth_assign_other. congruence.
Qed.

(** C3 (as the code has it) -- when a seat makes an accepted play that
    does not empty its hand and ends on a Draw2 (on a Wild+4), the next
    seat in the current direction gets, behind its hand, the cards that
    [drawCardsFromDeck] draws for a count of twice the number of Draw2
    cards (four times the number of Wild+4 cards) of the play, from the
    draw pile and the discard pile with the play on it; the other hands,
    the direction and the game-over flag stay as the play leaves them,
    and the seat that drew becomes the current seat. *)
Theorem draw_penalty_goes_to_next_seat (r : Rng) (g : GameState)
    (lastCard : Card) (v : CardValue) (k : nat) :
  length (hands g) = 4 -> currentPlayerIdx g < 4 ->
  moveAccepted g = true ->
  handAfterPlay g <> [] ->
  lastElem (playedCards g) = Some lastCard ->
  value lastCard = v ->
  (v = Draw2 /\ k = 2 \/ v = WildPlus4 /\ k = 4) ->
  let cur := currentPlayerIdx g in
  let nxt := getNextPlayerIdx cur (direction g) in
  let res := drawCardsFromDeck (countValue v (playedCards g) * k) (deck g)
                               (discard g ++ playedCards g) (rngAtEffect r g) in
  let g' := fst (seatTurn r g) in
  nth nxt (hands g') [] = nth nxt (hands g) [] ++ fst (fst res)
  /\ nth cur (hands g') [] = handAfterPlay g
  /\ (forall s, s <> nxt -> s <> cur -> nth s (hands g') [] = nth s (hands g) [])
  /\ discard g' = discard g ++ playedCards g
  /\ currentPlayerIdx g' = nxt
  /\ direction g' = direction g
  /\ gameOver g' = false.
Proof.
  intros Hlen Hcur Hacc Hrem Hlast Hv Hk cur nxt res g'.
  assert (Hnxt : nxt < 4) by apply getNextPlayerIdx_lt.
  assert (Hneq : cur <> nxt) by (apply not_eq_sym; now apply getNextPlayerIdx_neq).
  subst res g'.
  destruct (currentPlayerIdx g =? 0) eqn:Ec.
  - (* the human seat *)
    unfold seatTurn, moveAccepted, playedCards, handAfterPlay, rngAtEffect in *.
    rewrite Ec in *.
    destruct (@playAccepted_commit _ r g Hacc)
      as (Hc0 & Hgo & first & rest & Hobjs & ->).
    rewrite Hobjs in *.
    rewrite (@lastElem_last (first :: rest) first) in Hlast by discriminate.
    assert (Hl : last (first :: rest) first = lastCard) by congruence.
    unfold commitPlayerPlay. rewrite Hl.
    assert (H0 : nth 0 (assign 0 (remainingHand g) (hands g)) [] = remainingHand g)
      by (apply nth_assign_same; lia).
    rewrite H0, (length_nonzero Hrem).
    rewrite cardEffect_draw with (v := v) (k := k) by assumption.
    cbn [fst snd hands discard currentPlayerIdx direction gameOver].
    assert (Hnx : getNextPlayerIdx 0 (direction g) = nxt)
      by (subst nxt cur; now rewrite Hc0).
    assert (Hcu : cur = 0) by exact Hc0.
    rewrite Hnx, Hcu in *.
    destruct (@penaltyDraw_hands (countValue v (first :: rest) * k) (deck g)
                (discard g ++ first :: rest) nxt
                (assign 0 (remainingHand g) (hands g)) r) as [Hd Ho].
    { rewrite length_assign. lia. }
    rewrite Hd, (nth_assign_other _ _ _ Hneq).
    repeat split; auto.
    + rewrite Ho by auto. exact H0.
    + intros s Hs1 Hs2. rewrite Ho by auto. now apply nth_assign_other.
  - (* an opponent seat *)
    assert (Ec' : currentPlayerIdx g <> 0) by now apply Nat.eqb_neq.
    destruct (@opponent_commit _ r g Ec' Hacc)
      as (Hgo & firstCard & rest & Hvalid & Hturn).
    assert (Hpl : playedCards g = cardsToPlayOf firstCard (validCardsOf g)).
    { unfold playedCards. now rewrite Ec, Hvalid. }
    unfold seatTurn, handAfterPlay, rngAtEffect in *.
    rewrite Ec in *. rewrite Hturn, Hpl in *. clear Hturn Hpl.
    set (played := cardsToPlayOf firstCard (validCardsOf g)) in *.
    rewrite (@lastElem_last played firstCard) in Hlast
      by apply cardsToPlayOf_nonempty.
    assert (Hl : last played firstCard = lastCard) by congruence.
    rewrite (@lastElem_last played firstCard) by apply cardsToPlayOf_nonempty.
    unfold commitOpponentPlay. fold played. rewrite Hl.
    rewrite cardEffect_draw with (v := v) (k := k) by assumption.
    fold cur. fold nxt.
    set (hand' := filter _ (nth cur (hands g) [])) in *.
    set (rE := snd (if CardType_eqb (type lastCard) wild then _ else _)).
    assert (HrE : rE = if CardType_eqb (type lastCard) wild
                       then snd (random4 r) else r).
    { subst rE. destruct (CardType_eqb (type lastCard) wild); reflexivity. }
    rewrite <- HrE.
    destruct (@penaltyDraw_hands (countValue v played * k) (deck g)
                (discard g ++ played) nxt (assign cur hand' (hands g)) rE)
      as [Hd Ho].
    { rewrite length_assign. lia. }
    assert (Hc : nth cur (assign cur hand' (hands g)) [] = hand')
      by (apply nth_assign_same; lia).
    assert (Hrem' : hand' <> []) by exact Hrem.
    rewrite (Ho cur Hneq), Hc, (length_nonzero Hrem').
    cbn [fst snd hands discard currentPlayerIdx direction gameOver].
    rewrite Hd, (nth_assign_other _ _ _ Hneq).
    repeat split; auto.
    + rewrite Ho by auto. exact Hc.
    + intros s Hs1 Hs2. rewrite Ho by auto. now apply nth_assign_other.
Qed.
End PenaltyDraw.

(** ** What the two paths do on a winning play and on a Skip *)

Section Paths.
Context {RS : RandomSource}.

(** X23 -- [handlePlayerPlay] never touches the draw pile. *)
Lemma handlePlayerPlay_keeps_deck (r : Rng) (g : GameState) :
  deck (fst (handlePlayerPlay r g)) = deck g.
Proof.
  unfold handlePlayerPlay.
  destruct (negb (currentPlayerIdx g =? 0) || gameOver g); [reflexivity|].
  destruct (length (selectedCards g) =? 0); [reflexivity|].
  destruct (selectedCardObjects g) as [|first rest]; [reflexivity|].
  destruct (_ && negb (allSameValue _)); [reflexivity|].
  destruct (negb (canCardBePlayed _ _ _)); [reflexivity|].
  destruct (CardType_eqb _ _ && _); [reflexivity|].
  unfold commitPlayerPlay.
  destruct (length _ =? 0); [reflexivity|].
  destruct (cardEffect _ _ _ _ _ _ _ _) as [[[[? ?] ?] ?] ?]. reflexivity.
Qed.

(** A play of an opponent never touches the draw pile either. *)
Lemma commitOpponentPlay_keeps_deck (r : Rng) (g : GameState) (firstCard : Card)
    (valid : list Card) :
  deck (fst (commitOpponentPlay r g firstCard valid)) = deck g.
Proof.
  unfold commitOpponentPlay.
  destruct (cardEffect _ _ _ _ _ _ _ _) as [[[[? skipNext] ?] ?] ?].
  destruct (length _ =? 0); [reflexivity|].
  destruct skipNext; reflexivity.
Qed.

(** X22 -- the human path on a winning play: the session is over, seat 0 has
    won, and nothing else happens -- no hand but seat 0's changes, the seat
    and the direction stay, whatever the last card is. *)
Lemma human_win_applies_no_effect (r : Rng) (g : GameState) :
  0 < length (hands g) ->
  playAccepted g = true ->
  remainingHand g = [] ->
  let g' := fst (handlePlayerPlay r g) in
  gameOver g' = true /\ winner g' = Some 0
  /\ hands g' = assign 0 [] (hands g)
  /\ deck g' = deck g
  /\ currentPlayerIdx g' = currentPlayerIdx g
  /\ direction g' = direction g
  /\ skipNextPlayer g' = skipNextPlayer g
  /\ snd (handlePlayerPlay r g) = r.
Proof.
  intros Hlen Hacc Hrem g'. subst g'.
  destruct (@playAccepted_commit _ r g Hacc) as (_ & _ & first & rest & _ & ->).
  unfold commitPlayerPlay.
  rewrite (@nth_assign_same _ 0 (remainingHand g) [] (hands g) Hlen), Hrem.
  cbn. repeat split.
Qed.

(** The human path on a play that ends on a Skip and leaves cards in
    hand: the provisional next seat becomes the current seat, with the
    flag [skipNextPlayer] raised. *)
Lemma human_skip_sets_flag_only (r : Rng) (g : GameState) (lastCard : Card) :
  0 < length (hands g) ->
  playAccepted g = true ->
  remainingHand g <> [] ->
  lastElem (selectedCardObjects g) = Some lastCard ->
  value lastCard = Skip ->
  let g' := fst (handlePlayerPlay r g) in
  currentPlayerIdx g' = getNextPlayerIdx 0 (direction g)
  /\ skipNextPlayer g' = true
  /\ direction g' = direction g
  /\ gameOver g' = false.
Proof.
  intros Hlen Hacc Hrem Hlast Hv g'. subst g'.
  destruct (@playAccepted_commit _ r g Hacc) as (_ & Hgo & first & rest & Hobjs & ->).
  rewrite Hobjs in Hlast.
  rewrite (@lastElem_last (first :: rest) first) in Hlast by discriminate.
  assert (Hl : last (first :: rest) first = lastCard) by congruence.
  unfold commitPlayerPlay.
  rewrite (@nth_assign_same _ 0 (remainingHand g) [] (hands g) Hlen).
  rewrite (length_nonzero Hrem), Hl.
  unfold cardEffect. rewrite Hv. cbn. auto.
Qed.

(** X21 -- the opponent path on a play that ends on a Skip and leaves cards in
    hand: the provisional next seat is passed over, and the seat after it
    in the current direction becomes the current seat. *)
Lemma opponent_skip_passes_over (r : Rng) (g : GameState) (lastCard : Card) :
  currentPlayerIdx g < length (hands g) ->
  currentPlayerIdx g <> 0 ->
  moveAccepted g = true ->
  handAfterPlay g <> [] ->
  lastElem (playedCards g) = Some lastCard ->
  value lastCard = Skip ->
  let g' := fst (opponentTurnEffect r g) in
  currentPlayerIdx g'
  = getNextPlayerIdx (getNextPlayerIdx (currentPlayerIdx g) (direction g)) (direction g)
  /\ skipNextPlayer g' = false
  /\ direction g' = direction g
  /\ gameOver g' = false.
Proof.
  intros Hlen Ec Hacc Hrem Hlast Hv g'. subst g'.
  destruct (@opponent_commit _ r g Ec Hacc) as (Hgo & firstCard & rest & Hvalid & ->).
  assert (Ecb : (currentPlayerIdx g =? 0) = false) by now apply Nat.eqb_neq.
  unfold playedCards, handAfterPlay in *. rewrite Ecb in *.
  unfold playedCards in Hrem. rewrite Ecb, Hvalid in *. rewrite <- Hvalid in *.
  set (played := cardsToPlayOf firstCard (validCardsOf g)) in *.
  rewrite (@lastElem_last played firstCard) in Hlast
    by apply cardsToPlayOf_nonempty.
  assert (Hl : last played firstCard = lastCard) by congruence.
  unfold commitOpponentPlay. fold played. rewrite Hl.
  unfold cardEffect. rewrite Hv.
  rewrite nth_assign_same by exact Hlen.
  rewrite (length_nonzero Hrem). cbn. auto.
Qed.
End Paths.

(** ** The code on the concrete sessions *)

Section Evidence.
Context {RS : RandomSource}.
Import Examples.

(** C1 -- seat 0 plays a red Draw2 from a hand of two cards on a draw
    pile of three, whatever the random source: the play is accepted, seat
    3 gets the two top cards of the draw pile, and the draw pile still
    holds them.  The session has two card objects more than before: the
    cards of the session are not the cards it had. *)
Theorem penalty_cards_stay_on_draw_pile (r : Rng) :
  let g := humanHolds redDraw2 in
  let g' := fst (handlePlayerPlay r g) in
  playAccepted g = true
  /\ gameOver g' = false
  /\ deck g' = [y4; b6; g7]
  /\ nth 3 (hands g') [] = [b9; g7; b6]
  /\ length (allCards g') = length (allCards g) + 2
  /\ ~ Permutation (allCards g') (allCards g).
Proof.
  cbv zeta. repeat (split; [reflexivity|]).
  intros P. apply Permutation_length in P. discriminate P.
Qed.

(** C2 -- seat 3 plays its last card, a red Draw2, whatever the random
    source: the session is over and seat 3 has won, and seat 1, the next
    seat, has the two top cards of the draw pile behind its hand. *)
Theorem opponent_win_still_deals_penalty (r : Rng) :
  let g := opponentLastCard in
  let g' := fst (opponentTurnEffect r g) in
  moveAccepted g = true
  /\ playedCards g = [redDraw2]
  /\ gameOver g' = true
  /\ winner g' = Some 3
  /\ nth 3 (hands g') [] = []
  /\ getNextPlayerIdx 3 (direction g) = 1
  /\ nth 1 (hands g) [] = [g1]
  /\ nth 1 (hands g') [] = [g1; g7; b6].
Proof. cbv zeta. repeat split. Qed.

(** C4 -- seat 0 plays a red Skip from a hand of two cards, whatever the
    random source: seat 3, the provisional next seat, becomes the current
    seat (the claim names seat 1, the seat after it), the flag
    [skipNextPlayer] is raised, and the next activation of the opponent
    effect is seat 3's turn: it has no playable card, draws the top card
    of the draw pile and hands the turn to seat 1. *)
Theorem human_skip_skips_nobody (r r' : Rng) :
  let g := humanHolds redSkip in
  let g' := fst (handlePlayerPlay r g) in
  let g'' := fst (opponentTurnEffect r' g') in
  playAccepted g = true
  /\ lastElem (selectedCardObjects g) = Some redSkip
  /\ gameOver g' = false
  /\ currentPlayerIdx g' = 3
  /\ getNextPlayerIdx 0 (direction g) = 3
  /\ getNextPlayerIdx 3 (direction g) = 1
  /\ skipNextPlayer g' = true
  /\ nth 3 (hands g') [] = [b9]
  /\ nth 3 (hands g'') [] = [b9; g7]
  /\ currentPlayerIdx g'' = 1.
Proof. cbv zeta. repeat split. Qed.
End Evidence.

Module Checks.
Import Seeded Examples.

(** The seeded source at seed 0 deals a Wild+4 as the starter card: the
    active color of the fresh session is red. *)
Example seeded_session_starts_on_wild :
  option_map (fun g => (map faceOf (discard g), currentColor g, selectedColor g,
                        map (@length Card) (hands g), length (deck g)))
             (fst (initialState (RS := Seeded.source) 0))
  = Some ([(wild, None, WildPlus4)], Some red, None, [7; 7; 7; 7], 79).
Proof. vm_compute. reflexivity. Qed.

(** Recycling with a discard pile of three cards: the two cards under the
    top card come back, the top card does not. *)
Example recycle_two_of_three :
  fst (drawCardsFromDeck (RS := Seeded.source) 2 [] [b3; b9; r5] 0) = ([b9; b3], []).
Proof. reflexivity. Qed.

(** The discard pile is read again when the recycled pile runs out: a
    third draw hands out a card that was drawn already. *)
Example recycle_reads_discard_again :
  fst (fst (drawCardsFromDeck (RS := Seeded.source) 3 [] [b3; b9; r5] 0))
  = [b9; b3; b3].
Proof. reflexivity. Qed.
(** Two cards of one value and of other colors than the active one go
    together on a card of that value; the active color becomes the color
    of the card selected last. *)
Example stack_of_sevens :
  let r7 := mkCard "r7" number (Some red) (VNum 7) in
  let b7 := mkCard "b7" number (Some blue) (VNum 7) in
  let g := {| deck := [y4; b6]; discard := [r7];
              hands := [[b7; g7; b3]; [g1]; [y2]; [b9]];
              currentColor := Some red; currentPlayerIdx := 0; direction := 1;
              gameOver := false; winner := None; message := MsgYourTurn;
              selectedColor := None; selectedCards := [0; 1];
              skipNextPlayer := false |} in
  let g' := fst (handlePlayerPlay seed g) in
  canPlayMultipleCards [b7; g7] (Some r7) (Some red) = true
  /\ discard g' = [r7; b7; g7] /\ currentColor g' = Some green
  /\ hands g' = [[b3]; [g1]; [y2]; [b9]] /\ currentPlayerIdx g' = 3.
Proof. cbv zeta. repeat split. Qed.

(** An opponent without a playable card draws one card and passes. *)
Example opponent_without_play_draws :
  let g := {| deck := [y4; b6]; discard := [r5];
              hands := [[b3]; [g1]; [y2]; [b9]];
              currentColor := Some red; currentPlayerIdx := 1; direction := 1;
              gameOver := false; winner := None; message := MsgAITurn;
              selectedColor := None; selectedCards := [];
              skipNextPlayer := false |} in
  let g' := fst (opponentTurnEffect seed g) in
  hands g' = [[b3]; [g1; b6]; [y2]; [b9]] /\ deck g' = [y4]
  /\ discard g' = [r5] /\ currentPlayerIdx g' = getNextPlayerIdx 1 1.
Proof. cbv zeta. repeat split. Qed.

(** A mixed selection is rejected by the multi-card predicate, and so is
    an empty one. *)
Example mixed_or_empty_selection :
  canPlayMultipleCards [b3; b9] (Some r5) (Some blue) = false
  /\ canPlayMultipleCards [] (Some r5) (Some blue) = false.
Proof. split; reflexivity. Qed.
End Checks.

Module Witnesses.
Import Seeded Examples MoreExamples.

(** C3, as the claim has it, fails: seat 0 plays a red Draw2 in the
    clockwise direction, the play is accepted and leaves a card in hand;
    seat 3, the next seat, draws -- and seat 3, not the seat after it,
    becomes the current seat; at the next activation of the opponent
    effect seat 3 takes its turn (it cannot play and draws a card). *)
Lemma draw2_drawing_seat_acts_next :
  let g := humanHolds redDraw2 in
  let g' := fst (seatTurn seed g) in
  (moveAccepted g = true /\ handAfterPlay g <> []
   /\ lastElem (playedCards g) = Some redDraw2 /\ value redDraw2 = Draw2)
  /\ currentPlayerIdx g' = getNextPlayerIdx 0 (direction g)
  /\ currentPlayerIdx g'
     <> getNextPlayerIdx (getNextPlayerIdx 0 (direction g)) (direction g)
  /\ nth 3 (hands g') [] = [b9; g7; b6]
  /\ nth 3 (hands (fst (opponentTurnEffect seed g'))) [] = [b9; g7; b6; g7].
Proof.
  cbv zeta. split; [repeat split; discriminate|].
  repeat split. discriminate.
Qed.

Lemma draw_penalty_goes_to_next_seat_witness :
  let g := humanHolds redDraw2 in
  (length (hands g) = 4 /\ currentPlayerIdx g < 4 /\ moveAccepted g = true
   /\ handAfterPlay g <> [] /\ lastElem (playedCards g) = Some redDraw2
   /\ value redDraw2 = Draw2 /\ (Draw2 = Draw2 /\ 2 = 2 \/ Draw2 = WildPlus4 /\ 2 = 4))
  /\ nth 3 (hands (fst (seatTurn seed g))) []
     = nth 3 (hands g) []
       ++ fst (fst (drawCardsFromDeck (countValue Draw2 (playedCards g) * 2) (deck g)
                      (discard g ++ playedCards g) (rngAtEffect seed g)))
  /\ currentPlayerIdx (fst (seatTurn seed g)) = 3.
Proof.
  cbv zeta.
  assert (H1 : length (hands (humanHolds redDraw2)) = 4) by reflexivity.
  assert (H2 : currentPlayerIdx (humanHolds redDraw2) < 4) by (simpl; lia).
  assert (H3 : moveAccepted (humanHolds redDraw2) = true) by reflexivity.
  assert (H4 : handAfterPlay (humanHolds redDraw2) <> []) by discriminate.
  assert (H5 : lastElem (playedCards (humanHolds redDraw2)) = Some redDraw2)
    by reflexivity.
  assert (H6 : value redDraw2 = Draw2) by reflexivity.
  assert (H7 : Draw2 = Draw2 /\ 2 = 2 \/ Draw2 = WildPlus4 /\ 2 = 4)
    by (left; split; reflexivity).
  split; [repeat split; assumption|].
  pose proof (@draw_penalty_goes_to_next_seat Seeded.source seed
                (humanHolds redDraw2) redDraw2 Draw2 2 H1 H2 H3 H4 H5 H6 H7) as H.
  cbv zeta in H. destruct H as (Hd & _ & _ & _ & Hc & _).
  split; [exact Hd | exact Hc].
Defined.

(** C6, as the claim has it, fails.  From a session whose card objects
    are pairwise distinct, the handlers reach a discard pile that holds
    its top card a second time: seat 0 draws, which recycles the discard
    pile and leaves the red 9 both in the hand and on the discard pile;
    seats 3, 1 and 2 play; seat 0 plays the red 9.  The draw pile is
    empty and the discard pile has six cards; the next draw recycles it
    and hands out the red 9, the top card of the discard pile, which
    seat 3 takes into its hand. *)
Lemma recycle_draws_discard_top :
  let g1 := fst (handlePlayerDraw seed beforeRecycling) in
  let g2 := fst (opponentTurnEffect seed g1) in
  let g3 := fst (opponentTurnEffect seed g2) in
  let g4 := fst (opponentTurnEffect seed g3) in
  let g := fst (handlePlayerPlay seed (toggleCardSelection 1 g4)) in
  let res := drawCardsFromDeck 1 (deck g) (discard g) (1 : @Rng source) in
  NoDup (allCards beforeRecycling)
  /\ (deck g = [] /\ discard g = [r9; r5; r1; r2; r3; r9]
      /\ currentPlayerIdx g = 3 /\ gameOver g = false)
  /\ (1 < length (discard g) /\ lastElem (discard g) = Some r9)
  /\ In r9 (fst (fst res))
  /\ ~ (forall T, lastElem (discard g) = Some T -> ~ In T (fst (fst res)))
  /\ nth 3 (hands (fst (opponentTurnEffect (1 : @Rng source) g))) [] = [b6; r9].
Proof.
  cbv zeta.
  split.
  { vm_compute. repeat constructor; simpl; intuition discriminate. }
  split; [repeat split|].
  split; [split; [vm_compute; lia | reflexivity]|].
  assert (Hin : In r9 (fst (fst (drawCardsFromDeck 1 [] [r9; r5; r1; r2; r3; r9]
                                    (1 : @Rng source)))))
    by (left; reflexivity).
  split; [exact Hin|].
  split; [|reflexivity].
  intros H. exact (H r9 eq_refl Hin).
Qed.

Lemma drawCardsFromDeck_recycle_witness :
  (1 < length [b3; b9; r5] /\ lastElem [b3; b9; r5] = Some r5
   /\ ~ In r5 [] /\ ~ In r5 (slice_0_m1 [b3; b9; r5]))
  /\ ~ In r5 (fst (fst (drawCardsFromDeck 2 [] [b3; b9; r5] seed)))
  /\ (forall c, In c (fst (fst (drawCardsFromDeck 2 [] [b3; b9; r5] seed)))
                \/ In c (snd (fst (drawCardsFromDeck 2 [] [b3; b9; r5] seed)))
                -> In c [] \/ In c (slice_0_m1 [b3; b9; r5]))
  /\ (let st := [[]; [b3; b9; r5]] in
      let out := drawCardsFromDeckS 2 0 1 st seed in
      (0 < length st /\ 1 < length st)
      /\ readArr (snd (fst out)) 1 = [b3; b9; r5]
      /\ readArr (snd (fst out)) (fst (fst (fst out)))
         = fst (fst (drawCardsFromDeck 2 [] [b3; b9; r5] seed))).
Proof.
  assert (Hk : ~ In r5 []) by (intros []).
  assert (Hs : ~ In r5 (slice_0_m1 [b3; b9; r5]))
    by (simpl; intuition discriminate).
  split; [split; [simpl; lia | split; [reflexivity | split; assumption]]|].
  pose proof (@drawCardsFromDeck_recycle Seeded.source 2 [] [b3; b9; r5] seed) as H.
  cbv zeta in H. destruct H as (Hp & _ & Ht & _ & _ & Hst).
  split; [apply (Ht r5 eq_refl Hk Hs)|].
  split; [exact Hp|].
  assert (L0 : 0 < length [[]; [b3; b9; r5]]) by (simpl; lia).
  assert (L1 : 1 < length [[]; [b3; b9; r5]]) by (simpl; lia).
  destruct (Hst [[]; [b3; b9; r5]] 0 1 L0 L1 eq_refl eq_refl)
    as (_ & Hd & _ & Hn & _).
  cbv zeta. split; [split; assumption|]. split; assumption.
Defined.

Lemma invalid_request_is_noop_witness :
  let g := humanHolds y2 in
  requestInvalid PlaySelection g
  /\ sameGameplay g (fst (handleRequest PlaySelection seed g))
  /\ fst (handleRequest PlaySelection seed g) = clearSelection g.
Proof.
  cbv zeta.
  assert (Hi : requestInvalid PlaySelection (humanHolds y2)).
  { simpl. right; right; right; right; left. reflexivity. }
  split; [exact Hi|].
  split; [|reflexivity].
  apply (@invalid_request_is_noop Seeded.source PlaySelection seed (humanHolds y2) Hi).
Defined.
End Witnesses.

(** * Further properties of the engine *)

(** ** The seat ring, again *)

(** X1 -- whatever the direction, four steps around the ring come back to the
    seat one started from and fewer steps do not; two steps reach the same
    seat in both directions. *)
Theorem getNextPlayerIdx_cycle (s : nat) (d d' : Z) :
  s < 4 ->
  let step x := getNextPlayerIdx x d in
  step (step (step (step s))) = s
  /\ step s <> s /\ step (step s) <> s /\ step (step (step s)) <> s
  /\ step (step s) = getNextPlayerIdx (getNextPlayerIdx s d') d'.
Proof.
  intros Hs step. subst step. unfold getNextPlayerIdx, indexOf.
  destruct s as [|[|[|[|s]]]]; try lia;
    destruct (d =? 1)%Z, (d' =? 1)%Z; vm_compute;
    repeat split; first [reflexivity | discriminate].
Qed.

(** X2 -- a seat that is not on the ring is sent to seat 0 by direction 1 and to
    seat 1 by any other direction; the result is a seat of the ring for
    every input, and every direction other than 1 counts as -1. *)
Theorem getNextPlayerIdx_off_ring (s : nat) (d : Z) :
  4 <= s ->
  getNextPlayerIdx s d = (if (d =? 1)%Z then 0 else 1)
  /\ getNextPlayerIdx s d < 4
  /\ forall (x : nat) (e : Z), e <> 1%Z ->
       getNextPlayerIdx x e = getNextPlayerIdx x (-1) /\ getNextPlayerIdx x e < 4.
Proof.
  intros Hs. split; [|split].
  - unfold getNextPlayerIdx, indexOf.
    do 4 (destruct s as [|s]; [lia|]). cbn. destruct (d =? 1)%Z; reflexivity.
  - apply getNextPlayerIdx_lt.
  - intros x e He. split; [|apply getNextPlayerIdx_lt].
    unfold getNextPlayerIdx. apply Z.eqb_neq in He. now rewrite He.
Qed.

(** ** The draw routine, again *)

Section DrawMore.
Context {RS : RandomSource}.

Lemma drawLoop_full_count (dc : list Card) (n : nat) :
  1 < length dc ->
  forall (dk drawn : list Card) (r : Rng),
    length (fst (fst (drawLoop dc n dk drawn r))) = length drawn + n.
Proof.
  intros Hdc. induction n as [|n IH]; intros dk drawn r; cbn [drawLoop].
  - cbn. lia.
  - assert (E : (1 <? length dc) = true) by now apply Nat.ltb_lt.
    destruct (length dk =? 0) eqn:Ek.
    + rewrite E.
      pose proof (@shuffle_nonempty _ r _ (@slice_nonempty dc Hdc)) as Hne.
      destruct (shuffle r (slice_0_m1 dc)) as [d r1]. cbn [fst] in Hne.
      destruct (pop_nonempty Hne) as (x & t & Ep). rewrite Ep.
      rewrite IH, length_app. cbn. lia.
    + assert (Hne : dk <> []) by (intros ->; discriminate).
      destruct (pop_nonempty Hne) as (x & t & Ep). rewrite Ep.
      rewrite IH, length_app. cbn. lia.
Qed.

(** X3 -- with more than one card on the discard pile [drawCardsFromDeck] always
    gives [count] cards, whatever the draw pile holds: a pile that runs out
    is refilled from the discard pile as often as needed. *)
Theorem drawCardsFromDeck_never_short (count : nat) (dk dc : list Card) (r : Rng) :
  1 < length dc ->
  length (fst (fst (drawCardsFromDeck count dk dc r))) = count.
Proof.
  intros Hdc. unfold drawCardsFromDeck.
  now rewrite drawLoop_full_count.
Qed.

Lemma drawLoop_enough (dc : list Card) (n : nat) :
  forall (dk drawn : list Card) (r : Rng),
    n <= length dk ->
    drawLoop dc n dk drawn r
    = ((drawn ++ rev (skipn (length dk - n) dk), firstn (length dk - n) dk), r).
Proof.
  induction n as [|n IH]; intros dk drawn r Hn; cbn [drawLoop].
  - rewrite Nat.sub_0_r, skipn_all, firstn_all, app_nil_r. reflexivity.
  - assert (Hne : dk <> []) by (intros ->; simpl in Hn; lia).
    rewrite (length_nonzero Hne).
    destruct (pop_nonempty Hne) as (x & t & Ep). rewrite Ep.
    apply pop_Some in Ep. subst dk. rewrite length_app in *. cbn in Hn.
    rewrite IH by lia. cbn [length].
    replace (length t + 1 - S n) with (length t - n) by lia.
    rewrite skipn_app, firstn_app.
    replace (length t - n - length t) with 0 by lia. cbn [skipn firstn].
    rewrite rev_app_distr, app_nil_r. cbn. now rewrite <- app_assoc.
Qed.

(** X4 -- when the draw pile holds at least [count] cards, [drawCardsFromDeck]
    pops its [count] top cards, top first, leaves the rest in place and
    consumes no randomness, whatever the discard pile is; the cards drawn
    and the cards left are the cards of the draw pile. *)
Theorem drawCardsFromDeck_from_pile (count : nat) (dk dc : list Card) (r : Rng) :
  count <= length dk ->
  drawCardsFromDeck count dk dc r
  = ((rev (skipn (length dk - count) dk), firstn (length dk - count) dk), r)
  /\ length (fst (fst (drawCardsFromDeck count dk dc r))) = count
  /\ Permutation (snd (fst (drawCardsFromDeck count dk dc r))
                  ++ fst (fst (drawCardsFromDeck count dk dc r))) dk.
Proof.
  intros Hn. unfold drawCardsFromDeck. rewrite drawLoop_enough by exact Hn.
  cbn [fst snd app]. split; [reflexivity|]. split.
  - rewrite length_rev, length_skipn. lia.
  - rewrite <- Permutation_rev. now rewrite firstn_skipn.
Qed.
End DrawMore.

(** ** The opponent policy *)

Lemma includes_In (c : Card) (l : list Card) :
  includes Card_eqb c l = true <-> In c l.
Proof.
  unfold includes. rewrite existsb_exists. split.
  - intros (y & Hy & E). apply Card_eqb_eq in E. now subst.
  - intros H. exists c. split; [exact H | now apply Card_eqb_eq].
Qed.

Lemma filter_split_perm (A : Type) (p : A -> bool) (l : list A) :
  Permutation (filter (fun x => negb (p x)) l ++ filter p l) l.
Proof.
  induction l as [|a l IH]; cbn; [constructor|].
  destruct (p a); cbn.
  - rewrite <- Permutation_middle. now constructor.
  - now constructor.
Qed.

Lemma filter_twice (A : Type) (p q : A -> bool) (l : list A) :
  filter q (filter p l) = filter (fun x => p x && q x) l.
Proof.
  induction l as [|a l IH]; cbn; [reflexivity|].
  destruct (p a); cbn; [destruct (q a)|]; now rewrite IH.
Qed.

(** The test on the number of matching cards changes nothing: the cards to
    play are the playable cards of the value of the first one. *)
Lemma cardsToPlayOf_head (firstCard : Card) (rest : list Card) :
  cardsToPlayOf firstCard (firstCard :: rest)
  = filter (fun c => CardValue_eqb (value c) (value firstCard)) (firstCard :: rest).
Proof.
  unfold cardsToPlayOf.
  destruct (1 <? length (filter _ (firstCard :: rest))) eqn:E; [reflexivity|].
  apply Nat.ltb_ge in E. cbn [filter] in *.
  rewrite CardValue_eqb_refl in *. cbn [length] in E.
  destruct (filter _ rest); [reflexivity | cbn in E; lia].
Qed.

(** X5 -- whenever an opponent has a playable card, it plays, in the order of its
    hand, exactly the cards of its hand that are playable and have the
    value of the first playable one: the play is not empty, starts with
    that card, every card of it is playable on its own and is in the hand,
    and the hand it keeps together with the play is the hand it had. *)
Theorem opponent_plays_first_value (g : GameState) (firstCard : Card)
    (rest : list Card) :
  currentPlayerIdx g <> 0 ->
  validCardsOf g = firstCard :: rest ->
  let hand := nth (currentPlayerIdx g) (hands g) [] in
  let playable c :=
    canCardBePlayed (Some c) (lastElem (discard g)) (currentColor g) in
  playedCards g
  = filter (fun c => playable c && CardValue_eqb (value c) (value firstCard)) hand
  /\ hd_error (playedCards g) = Some firstCard
  /\ Forall (fun c => playable c = true /\ value c = value firstCard /\ In c hand)
            (playedCards g)
  /\ handAfterPlay g
     = filter (fun c => negb (playable c && CardValue_eqb (value c) (value firstCard)))
              hand
  /\ Permutation (handAfterPlay g ++ playedCards g) hand.
Proof.
  intros Hc Hv hand playable.
  assert (Ec : (currentPlayerIdx g =? 0) = false) by now apply Nat.eqb_neq.
  assert (Hp : playedCards g
               = filter (fun c => playable c
                                  && CardValue_eqb (value c) (value firstCard)) hand).
  { unfold playedCards. rewrite Ec, Hv, cardsToPlayOf_head, <- Hv.
    unfold validCardsOf. fold hand. fold playable. apply filter_twice. }
  assert (Hin : forall c, In c hand ->
            includes Card_eqb c (playedCards g)
            = playable c && CardValue_eqb (value c) (value firstCard)).
  { intros c Hc'. apply eq_true_iff_eq. rewrite includes_In, Hp, filter_In. tauto. }
  assert (Ha : handAfterPlay g
               = filter (fun c => negb (playable c
                                        && CardValue_eqb (value c) (value firstCard)))
                        hand).
  { unfold handAfterPlay. rewrite Ec. fold hand. apply filter_ext_in.
    intros c Hc'. now rewrite Hin. }
  split; [exact Hp|]. split.
  { unfold playedCards. rewrite Ec, Hv, cardsToPlayOf_head. cbn [filter].
    now rewrite CardValue_eqb_refl. }
  split.
  { rewrite Hp. apply Forall_forall. intros c Hc'. apply filter_In in Hc'.
    destruct Hc' as [Hh Hb]. apply andb_prop in Hb as [Hb1 Hb2].
    apply CardValue_eqb_eq in Hb2. auto. }
  split; [exact Ha|].
  rewrite Ha, Hp. apply filter_split_perm.
Qed.

(** ** The shape of an accepted play *)

Section Shapes.
Context {RS : RandomSource}.

(** What [cardEffect] can do, whatever the last card: the next seat is the
    seat after [seat] in the direction it gives back, which is the old one
    or, on a Reverse, the flipped one; the skip flag is raised on a Skip
    only; no hand changes but the next seat's, which gets cards of the draw
    pile or of the discard pile under its top card behind it. *)
Lemma cardEffect_shape (seat : nat) (dir : Z) (lc : Card) (played dk nd : list Card)
    (nh : list (list Card)) (r : Rng) :
  exists n sk d h r',
    cardEffect seat dir lc played dk nd nh r = (n, sk, d, h, r')
    /\ n = getNextPlayerIdx seat d
    /\ (if CardValue_eqb (value lc) Reverse then d = flipDirection dir else d = dir)
    /\ sk = CardValue_eqb (value lc) Skip
    /\ length h = length nh
    /\ (forall s, s <> n -> nth s h [] = nth s nh [])
    /\ (exists extra,
          nth n h [] = nth n nh [] ++ extra
          /\ (extra <> [] ->
              value lc = Draw2 \/ value lc = WildPlus4)
          /\ forall c, In c extra -> In c dk \/ In c (slice_0_m1 nd)).
Proof.
  assert (Hpd : forall count,
    let pd := penaltyDraw count dk nd (getNextPlayerIdx seat dir) nh r in
    length (fst pd) = length nh
    /\ (forall s, s <> getNextPlayerIdx seat dir -> nth s (fst pd) [] = nth s nh [])
    /\ exists extra,
         nth (getNextPlayerIdx seat dir) (fst pd) []
         = nth (getNextPlayerIdx seat dir) nh [] ++ extra
         /\ forall c, In c extra -> In c dk \/ In c (slice_0_m1 nd)).
  { intros count pd. subst pd. unfold penaltyDraw. cbn [fst].
    split; [apply length_assign|].
    split; [intros s Hs; apply nth_assign_other; congruence|].
    destruct (Nat.lt_ge_cases (getNextPlayerIdx seat dir) (length nh)) as [Hl|Hl].
    - eexists. split; [now apply nth_assign_same|].
      intros c Hc. unfold drawCardsFromDeck in Hc.
      destruct (@drawLoop_provenance _ nd count dk [] r c (or_introl Hc))
        as [[]|H]; exact H.
    - exists []. split; [|intros c []].
      rewrite app_nil_r, !nth_overflow; rewrite ?length_assign; auto. }
  unfold cardEffect.
  destruct (value lc) eqn:Ev; cbn [CardValue_eqb];
    try (do 5 eexists; split; [reflexivity|];
         repeat split; auto;
         exists []; rewrite app_nil_r; repeat split; auto; try contradiction;
         intros c []).
  - destruct (Hpd (countValue Draw2 played * 2)) as (H1 & H2 & extra & H3 & H4).
    do 5 eexists. split; [reflexivity|]. repeat split; auto.
    exists extra. repeat split; auto.
  - destruct (Hpd (countValue WildPlus4 played * 4)) as (H1 & H2 & extra & H3 & H4).
    do 5 eexists. split; [reflexivity|]. repeat split; auto.
    exists extra. repeat split; auto.
Qed.
End Shapes.

Section HumanShape.
Context {RS : RandomSource}.

(** The session after an accepted play of seat 0, field by field. *)
Lemma human_play_shape (r : Rng) (g : GameState) :
  0 < length (hands g) ->
  playAccepted g = true ->
  exists lc,
    lastElem (selectedCardObjects g) = Some lc
    /\ let g' := fst (handlePlayerPlay r g) in
       discard g' = discard g ++ selectedCardObjects g
       /\ deck g' = deck g
       /\ length (hands g') = length (hands g)
       /\ nth 0 (hands g') [] = remainingHand g
       /\ currentColor g'
          = (if CardType_eqb (type lc) wild then selectedColor g else color lc)
       /\ (remainingHand g = [] ->
           gameOver g' = true /\ winner g' = Some 0
           /\ currentPlayerIdx g' = 0 /\ direction g' = direction g
           /\ selectedCards g' = selectedCards g
           /\ forall s, s <> 0 -> nth s (hands g') [] = nth s (hands g) [])
       /\ (remainingHand g <> [] ->
           gameOver g' = false /\ winner g' = winner g
           /\ selectedCards g' = [] /\ selectedColor g' = None
           /\ currentPlayerIdx g' = getNextPlayerIdx 0 (direction g')
           /\ (if CardValue_eqb (value lc) Reverse
               then direction g' = flipDirection (direction g)
               else direction g' = direction g)
           /\ skipNextPlayer g' = CardValue_eqb (value lc) Skip
           /\ (forall s, s <> 0 -> s <> currentPlayerIdx g' ->
                 nth s (hands g') [] = nth s (hands g) [])
           /\ exists extra,
                nth (currentPlayerIdx g') (hands g') []
                = nth (currentPlayerIdx g') (hands g) [] ++ extra
                /\ (extra <> [] -> value lc = Draw2 \/ value lc = WildPlus4)
                /\ forall c, In c extra ->
                     In c (deck g)
                     \/ In c (slice_0_m1 (discard g ++ selectedCardObjects g))).
Proof.
  intros Hlen Hacc.
  destruct (@playAccepted_commit _ r g Hacc) as (Hc0 & Hgo & first & rest & Hobjs & ->).
  exists (last (first :: rest) first).
  split; [rewrite Hobjs; now apply lastElem_last|].
  rewrite Hobjs. unfold commitPlayerPlay.
  set (lc := last (first :: rest) first).
  assert (H0 : nth 0 (assign 0 (remainingHand g) (hands g)) [] = remainingHand g)
    by now apply nth_assign_same.
  rewrite H0.
  destruct (remainingHand g) as [|c0 rem] eqn:Hrem.
  - cbn [length Nat.eqb fst snd discard deck hands currentColor gameOver winner
         selectedCards selectedColor currentPlayerIdx direction skipNextPlayer].
    split; [reflexivity|]. split; [reflexivity|].
    split; [apply length_assign|]. split; [exact H0|].
    split; [reflexivity|]. split.
    + intros _. do 5 (split; [auto|]).
      intros s Hs. apply nth_assign_other. congruence.
    + intros H; contradiction.
  - cbn [length Nat.eqb].
    destruct (@cardEffect_shape _ 0 (direction g) lc (first :: rest) (deck g)
                (discard g ++ first :: rest)
                (assign 0 (c0 :: rem) (hands g)) r)
      as (n & sk & d & h & r' & -> & Hn & Hd & Hsk & Hl & Ho & extra & He & Hx & Hp).
    cbn [fst snd discard deck hands currentColor gameOver winner selectedCards
         selectedColor currentPlayerIdx direction skipNextPlayer].
    assert (Hn0 : n <> 0).
    { rewrite Hn. intros E.
      apply (@getNextPlayerIdx_neq 0 d); [lia | exact E]. }
    split; [reflexivity|]. split; [reflexivity|].
    split; [rewrite Hl; apply length_assign|].
    split; [rewrite Ho by auto; exact H0|].
    split; [reflexivity|]. split.
    + intros H; discriminate H.
    + intros _. do 7 (split; [auto|]). split.
      * intros s Hs1 Hs2. rewrite Ho by auto. apply nth_assign_other. congruence.
      * exists extra. split; [|split; auto].
        rewrite He. f_equal. apply nth_assign_other. congruence.
Qed.
End HumanShape.

Section OpponentShape.
Context {RS : RandomSource}.

(** The session after the play of an opponent, field by field. *)
Lemma opponent_play_shape (r : Rng) (g : GameState) :
  currentPlayerIdx g < length (hands g) ->
  currentPlayerIdx g < 4 ->
  currentPlayerIdx g <> 0 ->
  moveAccepted g = true ->
  exists lc,
    lastElem (playedCards g) = Some lc
    /\ let g' := fst (opponentTurnEffect r g) in
       let cur := currentPlayerIdx g in
       discard g' = discard g ++ playedCards g
       /\ deck g' = deck g
       /\ length (hands g') = length (hands g)
       /\ nth cur (hands g') [] = handAfterPlay g
       /\ currentColor g'
          = (if CardType_eqb (type lc) wild
             then nth_error COLORS (fst (random4 r)) else color lc)
       /\ selectedCards g' = selectedCards g
       /\ selectedColor g' = selectedColor g
       /\ (forall s, s <> cur ->
             exists extra,
               nth s (hands g') [] = nth s (hands g) [] ++ extra
               /\ (extra <> [] ->
                   s = getNextPlayerIdx cur (direction g)
                   /\ (value lc = Draw2 \/ value lc = WildPlus4))
               /\ forall c, In c extra ->
                    In c (deck g) \/ In c (slice_0_m1 (discard g ++ playedCards g)))
       /\ (handAfterPlay g = [] ->
           gameOver g' = true /\ winner g' = Some cur
           /\ currentPlayerIdx g' = cur /\ direction g' = direction g)
       /\ (handAfterPlay g <> [] ->
           gameOver g' = false /\ winner g' = winner g
           /\ skipNextPlayer g' = false
           /\ (if CardValue_eqb (value lc) Reverse
               then direction g' = flipDirection (direction g)
               else direction g' = direction g)
           /\ currentPlayerIdx g'
              = (if CardValue_eqb (value lc) Skip
                 then getNextPlayerIdx (getNextPlayerIdx cur (direction g)) (direction g)
                 else getNextPlayerIdx cur (direction g'))).
Proof.
  intros Hlen Hcur Ec Hacc.
  destruct (@opponent_commit _ r g Ec Hacc) as (Hgo & firstCard & rest & Hvalid & ->).
  assert (Ecb : (currentPlayerIdx g =? 0) = false) by now apply Nat.eqb_neq.
  assert (Hpl : playedCards g = cardsToPlayOf firstCard (validCardsOf g)).
  { unfold playedCards. now rewrite Ecb, Hvalid. }
  assert (Hha : handAfterPlay g
                = filter (fun card => negb (includes Card_eqb card (playedCards g)))
                         (nth (currentPlayerIdx g) (hands g) [])).
  { unfold handAfterPlay. now rewrite Ecb. }
  rewrite Hha, Hpl.
  set (played := cardsToPlayOf firstCard (validCardsOf g)).
  set (cur := currentPlayerIdx g) in *.
  set (hand' := filter _ (nth cur (hands g) [])).
  exists (last played firstCard).
  split; [apply lastElem_last, cardsToPlayOf_nonempty|].
  unfold commitOpponentPlay. fold played. fold cur. fold hand'.
  set (lc := last played firstCard).
  set (pick := if CardType_eqb (type lc) wild then _ else _).
  assert (Hpick : fst pick = if CardType_eqb (type lc) wild
                             then nth_error COLORS (fst (random4 r)) else color lc).
  { subst pick. destruct (CardType_eqb (type lc) wild); reflexivity. }
  destruct (@cardEffect_shape _ cur (direction g) lc played (deck g)
              (discard g ++ played) (assign cur hand' (hands g)) (snd pick))
    as (n & sk & d & h & r' & -> & Hn & Hd & Hsk & Hl & Ho & extra & He & Hx & Hp).
  assert (Hnc : n <> cur).
  { rewrite Hn. now apply getNextPlayerIdx_neq. }
  assert (Hc : nth cur h [] = hand').
  { rewrite Ho by auto. now apply nth_assign_same. }
  assert (Hdir : extra <> [] -> n = getNextPlayerIdx cur (direction g)
                                /\ (value lc = Draw2 \/ value lc = WildPlus4)).
  { intros Hne. specialize (Hx Hne). split; [|exact Hx].
    destruct Hx as [Hx|Hx]; rewrite Hx in Hd; cbn in Hd; now rewrite Hn, Hd. }
  assert (Hhands : forall s, s <> cur ->
            exists extra0,
              nth s h [] = nth s (hands g) [] ++ extra0
              /\ (extra0 <> [] ->
                  s = getNextPlayerIdx cur (direction g)
                  /\ (value lc = Draw2 \/ value lc = WildPlus4))
              /\ forall c, In c extra0 ->
                   In c (deck g) \/ In c (slice_0_m1 (discard g ++ played))).
  { intros s Hs. destruct (Nat.eq_dec s n) as [->|Hsn].
    - exists extra. split; [|split; auto].
      rewrite He. f_equal. apply nth_assign_other. congruence.
    - exists []. rewrite app_nil_r. split; [|split; [contradiction | intros c []]].
      rewrite Ho by auto. apply nth_assign_other. congruence. }
  rewrite Hc.
  destruct hand' as [|c0 hrest] eqn:Hh'.
  - cbn [length Nat.eqb fst snd discard deck hands currentColor gameOver winner
         selectedCards selectedColor currentPlayerIdx direction skipNextPlayer].
    split; [reflexivity|]. split; [reflexivity|].
    split; [rewrite Hl; apply length_assign|]. split; [exact Hc|].
    split; [exact Hpick|]. split; [reflexivity|]. split; [reflexivity|].
    split; [exact Hhands|]. split; [auto | intros H; contradiction].
  - cbn [length Nat.eqb].
    assert (Hfin : forall (st1 st2 : GameState * Rng),
              fst (if sk then st1 else st2) = if sk then fst st1 else fst st2)
      by (intros; destruct sk; reflexivity).
    rewrite Hfin.
    cbn [fst snd].
    assert (Hproj : forall (A : Type) (f : GameState -> A) (a b : GameState),
              f (if sk then a else b) = if sk then f a else f b)
      by (intros; destruct sk; reflexivity).
    rewrite !Hproj.
    cbn [discard deck hands currentColor gameOver winner
         selectedCards selectedColor currentPlayerIdx direction skipNextPlayer].
    assert (Hif : forall (A : Type) (a : A), (if sk then a else a) = a)
      by (intros; destruct sk; reflexivity).
    rewrite !Hif.
    split; [reflexivity|]. split; [reflexivity|].
    split; [rewrite Hl; apply length_assign|]. split; [exact Hc|].
    split; [exact Hpick|]. split; [reflexivity|]. split; [reflexivity|].
    split; [exact Hhands|]. split; [intros H; discriminate H|].
    intros _. split; [exact Hgo|]. split; [reflexivity|].
    split; [rewrite Hsk; destruct (CardValue_eqb (value lc) Skip); reflexivity|].
    split; [exact Hd|].
    rewrite Hsk. destruct (CardValue_eqb (value lc) Skip) eqn:Es.
    + apply CardValue_eqb_eq in Es. rewrite Es in Hd. cbn in Hd.
      now rewrite Hn, Hd.
    + exact Hn.
Qed.
End OpponentShape.

Section PlayShape.
Context {RS : RandomSource}.

(** The two paths side by side: the session after an accepted play of the
    seat whose turn it is. *)
Lemma play_shape (r : Rng) (g : GameState) :
  length (hands g) = 4 ->
  currentPlayerIdx g < 4 ->
  moveAccepted g = true ->
  exists lc,
    lastElem (playedCards g) = Some lc
    /\ let g' := fst (seatTurn r g) in
       let cur := currentPlayerIdx g in
       discard g' = discard g ++ playedCards g
       /\ deck g' = deck g
       /\ length (hands g') = 4
       /\ nth cur (hands g') [] = handAfterPlay g
       /\ (forall s, s <> cur ->
             exists extra,
               nth s (hands g') [] = nth s (hands g) [] ++ extra
               /\ (extra <> [] ->
                   s = getNextPlayerIdx cur (direction g)
                   /\ (value lc = Draw2 \/ value lc = WildPlus4))
               /\ forall c, In c extra ->
                    In c (deck g) \/ In c (slice_0_m1 (discard g ++ playedCards g)))
       /\ (handAfterPlay g = [] ->
           gameOver g' = true /\ winner g' = Some cur
           /\ currentPlayerIdx g' = cur /\ direction g' = direction g)
       /\ (handAfterPlay g <> [] ->
           gameOver g' = false /\ winner g' = winner g
           /\ (if CardValue_eqb (value lc) Reverse
               then direction g' = flipDirection (direction g)
               else direction g' = direction g)
           /\ currentPlayerIdx g'
              = (if CardValue_eqb (value lc) Skip && negb (cur =? 0)
                 then getNextPlayerIdx (getNextPlayerIdx cur (direction g)) (direction g)
                 else getNextPlayerIdx cur (direction g'))).
Proof.
  intros Hlen Hcur Hacc.
  destruct (currentPlayerIdx g =? 0) eqn:Ecb.
  - assert (Ec : currentPlayerIdx g = 0) by now apply Nat.eqb_eq.
    assert (E1 : seatTurn r g = handlePlayerPlay r g)
      by (unfold seatTurn; now rewrite Ecb).
    assert (E2 : playedCards g = selectedCardObjects g)
      by (unfold playedCards; now rewrite Ecb).
    assert (E3 : handAfterPlay g = remainingHand g)
      by (unfold handAfterPlay; now rewrite Ecb).
    assert (Hacc' : playAccepted g = true)
      by (unfold moveAccepted in Hacc; now rewrite Ecb in Hacc).
    rewrite E1, E2, E3, Ec.
    destruct (@human_play_shape _ r g ltac:(lia) Hacc')
      as (lc & Hlc & Hd & Hk & Hl & H0 & _ & Hwin & Hlive).
    exists lc. split; [exact Hlc|]. cbv zeta.
    split; [exact Hd|]. split; [exact Hk|]. split; [lia|]. split; [exact H0|].
    split; [|split].
    + intros s Hs.
      destruct (remainingHand g) as [|c0 rem] eqn:Hrem.
      * destruct (Hwin eq_refl) as (_ & _ & _ & _ & _ & Ho).
        exists []. rewrite app_nil_r.
        split; [now apply Ho | split; [contradiction | intros c []]].
      * destruct Hlive as (_ & _ & _ & _ & Hn & Hdir & _ & Ho & extra & He & Hx & Hp);
          [discriminate|].
        destruct (Nat.eq_dec s (currentPlayerIdx (fst (handlePlayerPlay r g))))
          as [->|Hsn].
        -- exists extra. split; [exact He|]. split; [|exact Hp].
           intros Hne. specialize (Hx Hne). split; [|exact Hx].
           rewrite Hn. destruct Hx as [Hx|Hx]; rewrite Hx in Hdir; cbn in Hdir;
             now rewrite Hdir.
        -- exists []. rewrite app_nil_r.
           split; [now apply Ho | split; [contradiction | intros c []]].
    + intros Hrem. destruct (Hwin Hrem) as (H1 & H2 & H3 & H4 & _). auto.
    + intros Hrem.
      destruct (Hlive Hrem) as (H1 & H2 & _ & _ & Hn & Hdir & _).
      rewrite andb_false_r. auto.
  - assert (Ec : currentPlayerIdx g <> 0) by now apply Nat.eqb_neq.
    assert (E1 : seatTurn r g = opponentTurnEffect r g)
      by (unfold seatTurn; now rewrite Ecb).
    rewrite E1.
    destruct (@opponent_play_shape _ r g ltac:(lia) Hcur Ec Hacc)
      as (lc & Hlc & Hd & Hk & Hl & H0 & _ & _ & _ & Hh & Hwin & Hlive).
    exists lc. split; [exact Hlc|]. cbv zeta.
    split; [exact Hd|]. split; [exact Hk|]. split; [lia|]. split; [exact H0|].
    split; [exact Hh|]. split; [exact Hwin|].
    intros Hrem. destruct (Hlive Hrem) as (H1 & H2 & _ & H3 & H4).
    rewrite Ecb. cbn [negb]. rewrite andb_true_r. auto.
Qed.
End PlayShape.

(** ** Cards move, they are not copied: plays without a penalty *)

Section ListMoves.
Variable A : Type.
Implicit Types l : list A.

Lemma filter_idx_all (p : A -> nat -> bool) l : forall k,
  (forall x j, k <= j -> p x j = true) -> filter_idx p k l = l.
Proof.
  induction l as [|a l IH]; intros k H; cbn; [reflexivity|].
  rewrite H by lia. f_equal. apply IH. intros x j Hj. apply H. lia.
Qed.

Lemma filter_idx_ext_range (p q : A -> nat -> bool) l : forall k,
  (forall x j, k <= j < k + length l -> p x j = q x j) ->
  filter_idx p k l = filter_idx q k l.
Proof.
  induction l as [|a l IH]; intros k H; cbn; [reflexivity|].
  rewrite (H a k) by (cbn; lia).
  rewrite (IH (S k)); [reflexivity|].
  intros x j Hj. apply H. cbn. lia.
Qed.

(** Dropping one more index from an index filter takes out the element at
    that index. *)
Lemma filter_idx_drop (p : nat -> bool) (i : nat) l : forall k x,
  nth_error l i = Some x -> p (k + i) = true ->
  Permutation (filter_idx (fun _ j => p j) k l)
              (x :: filter_idx (fun _ j => negb (k + i =? j) && p j) k l).
Proof.
  revert i. induction l as [|a l IH]; intros i k x Hn Hp.
  - destruct i; discriminate.
  - destruct i as [|i]; cbn [filter_idx].
    + cbn in Hn. inversion Hn; subst a. rewrite Nat.add_0_r in *.
      rewrite Hp, Nat.eqb_refl. cbn [negb andb].
      constructor. rewrite (@filter_idx_ext_range
        (fun _ j => negb (k =? j) && p j) (fun _ j => p j) l (S k)); [reflexivity|].
      intros y j Hj. assert (E : (k =? j) = false) by (apply Nat.eqb_neq; lia).
      now rewrite E.
    + cbn in Hn. replace (k + S i) with (S k + i) in * by lia.
      assert (E : (S k + i =? k) = false) by (apply Nat.eqb_neq; lia).
      rewrite E. cbn [negb andb].
      specialize (IH i (S k) x Hn Hp).
      destruct (p k).
      * rewrite IH. apply perm_swap.
      * exact IH.
Qed.

Lemma concat_assign_perm (hs : list (list A)) : forall (i : nat) (h' moved : list A),
  i < length hs ->
  Permutation (h' ++ moved) (nth i hs []) ->
  Permutation (concat (assign i h' hs) ++ moved) (concat hs).
Proof.
  induction hs as [|h hs IH]; intros i h' moved Hi HP; [cbn in Hi; lia|].
  destruct i as [|i]; cbn in *.
  - rewrite <- HP, <- !app_assoc. apply Permutation_app_head, Permutation_app_comm.
  - rewrite <- app_assoc. apply Permutation_app_head, IH; [lia | exact HP].
Qed.
End ListMoves.

(** The cards seat 0 keeps and the cards it has selected are the cards of
    its hand, as long as no index is selected twice. *)
Lemma selection_splits_hand (g : GameState) :
  NoDup (selectedCards g) ->
  Permutation (remainingHand g ++ selectedCardObjects g) (nth 0 (hands g) []).
Proof.
  unfold remainingHand, selectedCardObjects.
  generalize (nth 0 (hands g) []) as hand.
  generalize (selectedCards g) as sel.
  induction sel as [|i sel IH]; intros hand Hnd; cbn [map filter_Boolean flat_map].
  - rewrite app_nil_r, filter_idx_all; [reflexivity | reflexivity].
  - inversion Hnd as [|? ? Hni Hnd']; subst.
    specialize (IH hand Hnd'). unfold filter_Boolean in IH.
    assert (Hinc : forall j, includes Nat.eqb j (i :: sel)
                             = (i =? j) || includes Nat.eqb j sel) by reflexivity.
    destruct (nth_error hand i) as [x|] eqn:En.
    + assert (Hp : negb (includes Nat.eqb (0 + i) sel) = true).
      { apply negb_true_iff. apply not_true_is_false. intros H.
        unfold includes in H. apply existsb_exists in H as (y & Hy & E).
        apply Nat.eqb_eq in E. subst y. contradiction. }
      pose proof (@filter_idx_drop Card (fun j => negb (includes Nat.eqb j sel))
                    i hand 0 x En Hp) as HP.
      cbn [app]. rewrite <- Permutation_middle.
      rewrite (@filter_idx_ext_range Card
                 (fun _ j => negb (includes Nat.eqb j (i :: sel)))
                 (fun _ j => negb (0 + i =? j) && negb (includes Nat.eqb j sel))
                 hand 0).
      * etransitivity; [|exact IH].
        apply (Permutation_app_tail _ (Permutation_sym HP)).
      * intros y j _. rewrite Hinc, negb_orb. reflexivity.
    + cbn [app].
      rewrite (@filter_idx_ext_range Card
                 (fun _ j => negb (includes Nat.eqb j (i :: sel)))
                 (fun _ j => negb (includes Nat.eqb j sel)) hand 0); [exact IH|].
      intros y j Hj. rewrite Hinc.
      apply nth_error_None in En.
      assert (E : (i =? j) = false) by (apply Nat.eqb_neq; lia).
      now rewrite E.
Qed.

Lemma opponent_hand_split (g : GameState) :
  currentPlayerIdx g <> 0 ->
  Permutation (handAfterPlay g ++ playedCards g)
              (nth (currentPlayerIdx g) (hands g) []).
Proof.
  intros Hc.
  assert (Ec : (currentPlayerIdx g =? 0) = false) by now apply Nat.eqb_neq.
  unfold handAfterPlay. rewrite Ec.
  set (hand := nth (currentPlayerIdx g) (hands g) []).
  assert (Hsub : forall c, In c (playedCards g) -> In c hand).
  { unfold playedCards. rewrite Ec. intros c.
    destruct (validCardsOf g) as [|firstCard rest] eqn:Hv; [intros []|].
    rewrite cardsToPlayOf_head, <- Hv. intros H. apply filter_In in H as [H _].
    unfold validCardsOf in H. now apply filter_In in H. }
  assert (Hp : playedCards g = filter (fun c => includes Card_eqb c (playedCards g)) hand).
  { unfold playedCards at 1. rewrite Ec.
    destruct (validCardsOf g) as [|firstCard rest] eqn:Hv.
    - assert (Hpc : playedCards g = []) by (unfold playedCards; now rewrite Ec, Hv).
      rewrite Hpc. clear. induction hand as [|a l IH]; cbn; auto.
    - rewrite cardsToPlayOf_head, <- Hv. unfold validCardsOf. fold hand.
      rewrite filter_twice. apply filter_ext_in. intros c Hc'.
      apply eq_true_iff_eq. rewrite includes_In.
      unfold playedCards. rewrite Ec, Hv, cardsToPlayOf_head, <- Hv.
      unfold validCardsOf. fold hand. rewrite filter_twice, filter_In. tauto. }
  pose proof (filter_split_perm (fun c => includes Card_eqb c (playedCards g)) hand)
    as HP.
  rewrite <- Hp in HP. exact HP.
Qed.

Lemma getNextPlayerIdx_two_neq (s : nat) (d : Z) :
  s < 4 -> getNextPlayerIdx (getNextPlayerIdx s d) d <> s.
Proof.
  intros Hs. unfold getNextPlayerIdx, indexOf.
  destruct s as [|[|[|[|s]]]]; try lia; destruct (d =? 1)%Z; vm_compute; discriminate.
Qed.

Lemma hand_split (g : GameState) :
  NoDup (selectedCards g) ->
  Permutation (handAfterPlay g ++ playedCards g)
              (nth (currentPlayerIdx g) (hands g) []).
Proof.
  intros Hnd. destruct (currentPlayerIdx g =? 0) eqn:Ec.
  - unfold handAfterPlay, playedCards. rewrite Ec.
    apply Nat.eqb_eq in Ec. rewrite Ec. now apply selection_splits_hand.
  - apply opponent_hand_split. now apply Nat.eqb_neq.
Qed.

Lemma hands_pointwise (hs hs' : list (list Card)) (cur : nat) (h' : list Card) :
  length hs' = length hs -> cur < length hs ->
  nth cur hs' [] = h' ->
  (forall s, s <> cur -> nth s hs' [] = nth s hs []) ->
  hs' = assign cur h' hs.
Proof.
  intros Hl Hc Hh Ho. apply (nth_ext _ _ [] []).
  - now rewrite length_assign.
  - intros n _. destruct (Nat.eq_dec n cur) as [->|Hn].
    + now rewrite nth_assign_same.
    + rewrite nth_assign_other by congruence. now apply Ho.
Qed.

Section PlayFacts.
Context {RS : RandomSource}.

(** X6 -- an accepted play that does not end on a Draw2 or a Wild+4 moves the
    played cards from the hand of the seat to the discard pile and touches
    nothing else: the other hands and the draw pile are as they were, and
    the cards of the session after the play are the cards it had -- as long
    as the selection of seat 0 names no index twice. *)
Theorem play_without_penalty_conserves_cards (r : Rng) (g : GameState) (lc : Card) :
  length (hands g) = 4 -> currentPlayerIdx g < 4 ->
  moveAccepted g = true ->
  NoDup (selectedCards g) ->
  lastElem (playedCards g) = Some lc ->
  value lc <> Draw2 -> value lc <> WildPlus4 ->
  let g' := fst (seatTurn r g) in
  hands g' = assign (currentPlayerIdx g) (handAfterPlay g) (hands g)
  /\ discard g' = discard g ++ playedCards g
  /\ deck g' = deck g
  /\ Permutation (allCards g') (allCards g).
Proof.
  intros Hlen Hcur Hacc Hnd Hlc Hn2 Hn4 g'. subst g'.
  destruct (@play_shape _ r g Hlen Hcur Hacc)
    as (lc' & Hlc' & Hd & Hk & Hl & H0 & Hh & _).
  assert (lc' = lc) by congruence. subst lc'.
  assert (Hhands : hands (fst (seatTurn r g))
                   = assign (currentPlayerIdx g) (handAfterPlay g) (hands g)).
  { apply hands_pointwise; try lia; [exact H0|].
    intros s Hs. destruct (Hh s Hs) as (extra & He & Hx & _).
    destruct extra as [|c extra]; [now rewrite app_nil_r in He|].
    destruct Hx as [_ [Hx|Hx]]; [discriminate | contradiction | contradiction]. }
  split; [exact Hhands|]. split; [exact Hd|]. split; [exact Hk|].
  unfold allCards. rewrite Hhands, Hd, Hk.
  apply Permutation_app_head. rewrite <- app_assoc. apply Permutation_app_head.
  rewrite Permutation_app_comm.
  apply concat_assign_perm; [lia | now apply hand_split].
Qed.

(** X7 -- an accepted play that ends on a Reverse and leaves cards in hand flips
    the direction, and the seat after the playing seat in the flipped
    direction plays next; on a well-formed direction this is the seat from
    which the old direction led to the playing seat. *)
Theorem reverse_resolution (r : Rng) (g : GameState) (lc : Card) :
  length (hands g) = 4 -> currentPlayerIdx g < 4 ->
  moveAccepted g = true ->
  handAfterPlay g <> [] ->
  lastElem (playedCards g) = Some lc ->
  value lc = Reverse ->
  let g' := fst (seatTurn r g) in
  gameOver g' = false
  /\ direction g' = flipDirection (direction g)
  /\ currentPlayerIdx g'
     = getNextPlayerIdx (currentPlayerIdx g) (flipDirection (direction g))
  /\ ((direction g = 1 \/ direction g = -1)%Z ->
      direction g' = (- direction g)%Z
      /\ getNextPlayerIdx (currentPlayerIdx g') (direction g) = currentPlayerIdx g).
Proof.
  intros Hlen Hcur Hacc Hrem Hlc Hv g'. subst g'.
  destruct (@play_shape _ r g Hlen Hcur Hacc)
    as (lc' & Hlc' & _ & _ & _ & _ & _ & _ & Hlive).
  assert (lc' = lc) by congruence. subst lc'.
  destruct (Hlive Hrem) as (Hgo & _ & Hdir & Hnext).
  rewrite Hv in Hdir, Hnext. cbn in Hdir, Hnext. rewrite Hdir in Hnext.
  split; [exact Hgo|]. split; [exact Hdir|]. split; [exact Hnext|].
  intros Hd. rewrite Hnext, Hdir. clear - Hcur Hd.
  destruct Hd as [-> | ->];
    destruct (currentPlayerIdx g) as [|[|[|[|s]]]]; try lia; split; reflexivity.
Qed.

(** X8 -- an accepted play that ends on a number or on a Wild and leaves cards in
    hand has no effect beyond the play: the direction stays and the next
    seat in that direction plays next. *)
Theorem plain_card_resolution (r : Rng) (g : GameState) (lc : Card) :
  length (hands g) = 4 -> currentPlayerIdx g < 4 ->
  moveAccepted g = true ->
  handAfterPlay g <> [] ->
  lastElem (playedCards g) = Some lc ->
  (value lc = Wild \/ exists n, value lc = VNum n) ->
  let g' := fst (seatTurn r g) in
  gameOver g' = false
  /\ direction g' = direction g
  /\ currentPlayerIdx g' = getNextPlayerIdx (currentPlayerIdx g) (direction g)
  /\ forall s, s <> currentPlayerIdx g -> nth s (hands g') [] = nth s (hands g) [].
Proof.
  intros Hlen Hcur Hacc Hrem Hlc Hv g'. subst g'.
  destruct (@play_shape _ r g Hlen Hcur Hacc)
    as (lc' & Hlc' & _ & _ & _ & _ & Hh & _ & Hlive).
  assert (lc' = lc) by congruence. subst lc'.
  destruct (Hlive Hrem) as (Hgo & _ & Hdir & Hnext).
  assert (Hr : CardValue_eqb (value lc) Reverse = false)
    by (destruct Hv as [->|[n ->]]; reflexivity).
  assert (Hs : CardValue_eqb (value lc) Skip = false)
    by (destruct Hv as [->|[n ->]]; reflexivity).
  rewrite Hr in Hdir. rewrite Hs, Hdir in Hnext. cbn in Hnext.
  split; [exact Hgo|]. split; [exact Hdir|]. split; [exact Hnext|].
  intros s Hs'. destruct (Hh s Hs') as (extra & He & Hx & _).
  destruct extra as [|c extra]; [now rewrite app_nil_r in He|].
  destruct Hx as [_ [Hx|Hx]]; [discriminate | |];
    destruct Hv as [Hv|[n Hv]]; congruence.
Qed.

(** X9 -- an accepted play either ends the session or hands the turn to another
    seat of the ring: the current seat never stays the same in a live
    session. *)
Theorem turn_always_passes (r : Rng) (g : GameState) :
  length (hands g) = 4 -> currentPlayerIdx g < 4 ->
  moveAccepted g = true ->
  let g' := fst (seatTurn r g) in
  (gameOver g' = true /\ winner g' = Some (currentPlayerIdx g)
   /\ nth (currentPlayerIdx g) (hands g') [] = [])
  \/ (gameOver g' = false /\ currentPlayerIdx g' <> currentPlayerIdx g
      /\ currentPlayerIdx g' < 4
      /\ nth (currentPlayerIdx g) (hands g') [] <> []).
Proof.
  intros Hlen Hcur Hacc g'. subst g'.
  destruct (@play_shape _ r g Hlen Hcur Hacc)
    as (lc & _ & _ & _ & _ & H0 & _ & Hwin & Hlive).
  destruct (handAfterPlay g) as [|c0 rem] eqn:Hrem.
  - left. destruct (Hwin eq_refl) as (H1 & H2 & _). auto.
  - right. destruct Hlive as (Hgo & _ & Hdir & Hnext); [discriminate|].
    split; [exact Hgo|]. rewrite H0.
    split; [|split; [|discriminate]].
    + rewrite Hnext.
      destruct (CardValue_eqb (value lc) Skip && _).
      * now apply getNextPlayerIdx_two_neq.
      * now apply getNextPlayerIdx_neq.
    + rewrite Hnext. destruct (_ && _); apply getNextPlayerIdx_lt.
Qed.
End PlayFacts.

(** ** Accepted plays are legal plays *)

Lemma canPlayMultipleCards_eq (cards : list Card) (top : option Card) (ac : Color) :
  canPlayMultipleCards cards top ac
  = match cards with
    | [] => false
    | c0 :: _ => allSameValue cards && canCardBePlayed (Some c0) top ac
    end.
Proof.
  destruct cards as [|c0 [|c1 t]]; [reflexivity| |].
  - cbn [canPlayMultipleCards allSameValue forallb].
    rewrite CardValue_eqb_refl. destruct top; [reflexivity|].
    cbn. reflexivity.
  - unfold canPlayMultipleCards. destruct top as [tc|].
    + destruct (allSameValue (c0 :: c1 :: t)); cbn [negb andb]; [|reflexivity].
      destruct (canCardBePlayed (Some c0) (Some tc) ac); reflexivity.
    + cbn [canCardBePlayed]. now rewrite andb_false_r.
Qed.

Lemma allSameValue_Forall (c0 : Card) (t : list Card) :
  allSameValue (c0 :: t) = true <-> Forall (fun c => value c = value c0) (c0 :: t).
Proof.
  unfold allSameValue. rewrite forallb_forall, Forall_forall.
  split; intros H c Hc; apply CardValue_eqb_eq; auto.
Qed.

Lemma accepted_play_core (g : GameState) :
  moveAccepted g = true ->
  let top := lastElem (discard g) in
  exists first rest,
    playedCards g = first :: rest
    /\ canCardBePlayed (Some first) top (currentColor g) = true
    /\ allSameValue (playedCards g) = true
    /\ (currentPlayerIdx g = 0 ->
        CardType_eqb (type first) wild && Color_eqb (selectedColor g) None = false)
    /\ (currentPlayerIdx g <> 0 ->
        Forall (fun c => canCardBePlayed (Some c) top (currentColor g) = true)
               (playedCards g)).
Proof.
  intros Hacc top.
  unfold moveAccepted, playedCards in *.
  destruct (currentPlayerIdx g =? 0) eqn:Ec.
  - unfold playAccepted in Hacc. rewrite Ec in Hacc.
    destruct (selectedCardObjects g) as [|first rest] eqn:Ho;
      [now rewrite !andb_false_r in Hacc|].
    apply andb_prop in Hacc as [_ Hacc]. apply andb_prop in Hacc as [Hacc Hw].
    apply andb_prop in Hacc as [Ha Hp]. apply negb_true_iff in Ha, Hw.
    exists first, rest. split; [reflexivity|]. split; [exact Hp|]. split; [|split].
    + apply andb_false_iff in Ha as [Ha|Ha].
      * apply allSameValue_short. now apply Nat.ltb_ge.
      * now apply negb_false_iff.
    + intros _. exact Hw.
    + apply Nat.eqb_eq in Ec. intros H; contradiction.
  - apply andb_prop in Hacc as [_ Hacc].
    destruct (validCardsOf g) as [|firstCard rest] eqn:Hv; [discriminate|].
    rewrite cardsToPlayOf_head.
    assert (Hin : In firstCard (validCardsOf g)) by (rewrite Hv; now left).
    unfold validCardsOf in Hin. apply filter_In in Hin as [_ Hp].
    cbn [filter]. rewrite CardValue_eqb_refl.
    eexists _, _. split; [reflexivity|]. split; [exact Hp|]. split; [|split].
    + apply allSameValue_Forall. constructor; [reflexivity|].
      apply Forall_forall. intros c Hc. apply filter_In in Hc as [_ Hc].
      now apply CardValue_eqb_eq.
    + apply Nat.eqb_neq in Ec. intros H; contradiction.
    + intros _. apply Forall_forall. intros c Hc.
      assert (Hc' : In c (firstCard :: rest)).
      { destruct Hc as [<-|Hc]; [now left|]. right.
        now apply filter_In in Hc as [Hc _]. }
      rewrite <- Hv in Hc'. unfold validCardsOf in Hc'.
      now apply filter_In in Hc' as [_ Hc'].
Qed.

(** X10 -- every play the engine accepts, of seat 0 or of an opponent, passes
    [canPlayMultipleCards]: it is not empty, its cards have one value, and
    its first card is playable on the top card under the active color; the
    cards of an opponent's play are each playable on their own. *)
Theorem accepted_play_is_legal (g : GameState) :
  moveAccepted g = true ->
  let top := lastElem (discard g) in
  canPlayMultipleCards (playedCards g) top (currentColor g) = true
  /\ (exists first rest,
        playedCards g = first :: rest
        /\ canCardBePlayed (Some first) top (currentColor g) = true
        /\ Forall (fun c => value c = value first) (playedCards g))
  /\ (currentPlayerIdx g <> 0 ->
      Forall (fun c => canCardBePlayed (Some c) top (currentColor g) = true)
             (playedCards g)).
Proof.
  intros Hacc top.
  destruct (accepted_play_core g Hacc) as (first & rest & Hpl & Hp & Ha & _ & Hall).
  fold top in Hp, Hall.
  split; [|split; [|exact Hall]].
  - rewrite canPlayMultipleCards_eq, Hpl. rewrite Hpl in Ha. now rewrite Ha, Hp.
  - exists first, rest. split; [exact Hpl|]. split; [exact Hp|].
    rewrite Hpl in *. now apply allSameValue_Forall.
Qed.

Section ColorFacts.
Context {RS : RandomSource}.

(** X11 -- the active color after an accepted play: the color of the last played
    card unless that card is of the wild type; for a wild card, the color
    seat 0 has chosen, or, for an opponent, one of the four colors. *)
Theorem active_color_after_play (r : Rng) (g : GameState) (lc : Card) :
  length (hands g) = 4 -> currentPlayerIdx g < 4 ->
  moveAccepted g = true ->
  lastElem (playedCards g) = Some lc ->
  let g' := fst (seatTurn r g) in
  (type lc <> wild -> currentColor g' = color lc)
  /\ (type lc = wild -> currentPlayerIdx g = 0 -> currentColor g' = selectedColor g)
  /\ (type lc = wild -> currentPlayerIdx g <> 0 ->
      exists c, In c COLORS /\ currentColor g' = Some c).
Proof.
  intros Hlen Hcur Hacc Hlc g'. subst g'.
  destruct (currentPlayerIdx g =? 0) eqn:Ecb.
  - assert (E1 : seatTurn r g = handlePlayerPlay r g)
      by (unfold seatTurn; now rewrite Ecb).
    assert (E2 : playedCards g = selectedCardObjects g)
      by (unfold playedCards; now rewrite Ecb).
    assert (Hacc' : playAccepted g = true)
      by (unfold moveAccepted in Hacc; now rewrite Ecb in Hacc).
    rewrite E1. rewrite E2 in Hlc.
    destruct (@human_play_shape _ r g ltac:(lia) Hacc')
      as (lc' & Hlc' & _ & _ & _ & _ & Hcol & _).
    assert (lc' = lc) by congruence. subst lc'. rewrite Hcol.
    apply Nat.eqb_eq in Ecb.
    split; [|split].
    + intros H. destruct (CardType_eqb (type lc) wild) eqn:E; [|reflexivity].
      apply CardType_eqb_eq in E. contradiction.
    + intros H _. apply CardType_eqb_eq in H. now rewrite H.
    + intros _ H. contradiction.
  - assert (Ec : currentPlayerIdx g <> 0) by now apply Nat.eqb_neq.
    assert (E1 : seatTurn r g = opponentTurnEffect r g)
      by (unfold seatTurn; now rewrite Ecb).
    rewrite E1.
    destruct (@opponent_play_shape _ r g ltac:(lia) Hcur Ec Hacc)
      as (lc' & Hlc' & _ & _ & _ & _ & Hcol & _).
    assert (lc' = lc) by congruence. subst lc'. rewrite Hcol.
    split; [|split].
    + intros H. destruct (CardType_eqb (type lc) wild) eqn:E; [|reflexivity].
      apply CardType_eqb_eq in E. contradiction.
    + intros _ H. contradiction.
    + intros H _. apply CardType_eqb_eq in H. rewrite H.
      destruct (opponent_color_pick r) as (c & Hc & Hin). eauto.
Qed.

(** X12 -- an opponent that plays its last cards ends the session as the winner;
    the current seat, the direction -- even on a Reverse -- and the draw
    pile stay as they were. *)
Theorem opponent_win_ends_session (r : Rng) (g : GameState) :
  length (hands g) = 4 -> currentPlayerIdx g < 4 ->
  currentPlayerIdx g <> 0 ->
  moveAccepted g = true ->
  handAfterPlay g = [] ->
  let g' := fst (opponentTurnEffect r g) in
  gameOver g' = true /\ winner g' = Some (currentPlayerIdx g)
  /\ nth (currentPlayerIdx g) (hands g') [] = []
  /\ currentPlayerIdx g' = currentPlayerIdx g
  /\ direction g' = direction g
  /\ deck g' = deck g
  /\ discard g' = discard g ++ playedCards g.
Proof.
  intros Hlen Hcur Ec Hacc Hrem g'. subst g'.
  destruct (@opponent_play_shape _ r g ltac:(lia) Hcur Ec Hacc)
    as (lc & _ & Hd & Hk & _ & H0 & _ & _ & _ & _ & Hwin & _).
  destruct (Hwin Hrem) as (H1 & H2 & H3 & H4).
  rewrite H0. auto 8.
Qed.
End ColorFacts.

(** ** Taking a card *)

Lemma assign_nth_same (A : Type) (d : A) (l : list A) : forall i,
  assign i (nth i l d) l = l.
Proof.
  induction l as [|a l IH]; intros [|i]; cbn; try reflexivity.
  now rewrite IH.
Qed.

Lemma concat_assign_grow (A : Type) (hs : list (list A)) : forall (i : nat) (extra : list A),
  i < length hs ->
  Permutation (concat (assign i (nth i hs [] ++ extra) hs)) (extra ++ concat hs).
Proof.
  induction hs as [|h hs IH]; intros i extra Hi; [cbn in Hi; lia|].
  destruct i as [|i]; cbn in *.
  - rewrite !app_assoc. apply Permutation_app_tail, Permutation_app_comm.
  - rewrite (IH i extra) by lia. rewrite !app_assoc.
    apply Permutation_app_tail, Permutation_app_comm.
Qed.

Section DrawTurns.
Context {RS : RandomSource}.

(** The session after the current seat has taken a card, field by field,
    in terms of what [drawCardsFromDeck] gives for one card. *)
Lemma drawTurn_shape (r : Rng) (g : GameState) :
  drawsNow g = true ->
  let res := drawCardsFromDeck 1 (deck g) (discard g) r in
  let cur := currentPlayerIdx g in
  let g' := fst (drawTurn r g) in
  hands g' = assign cur (nth cur (hands g) [] ++ fst (fst res)) (hands g)
  /\ deck g' = snd (fst res)
  /\ snd (drawTurn r g) = snd res
  /\ discard g' = discard g
  /\ currentColor g' = currentColor g
  /\ direction g' = direction g
  /\ gameOver g' = false
  /\ winner g' = winner g
  /\ currentPlayerIdx g' = getNextPlayerIdx cur (direction g).
Proof.
  unfold drawsNow, drawTurn. intros H.
  apply andb_prop in H as [Hgo Hd]. apply negb_true_iff in Hgo.
  destruct (currentPlayerIdx g =? 0) eqn:Ec.
  - unfold handlePlayerDraw. rewrite Ec, Hgo. cbn [negb orb fst snd].
    apply Nat.eqb_eq in Ec. rewrite Ec. cbn. repeat split; auto.
  - cbn [orb] in Hd. unfold opponentTurnEffect. rewrite Ec, Hgo. cbn [orb].
    destruct (validCardsOf g); [|discriminate]. cbn. repeat split; auto.
Qed.

(** X13 -- with a card on the draw pile, taking a card moves the top card of the
    draw pile behind the hand of the current seat and passes the turn to
    the next seat; the discard pile, the active color and the direction
    stay, no randomness is consumed, and the cards of the session are the
    cards it had. *)
Theorem draw_moves_top_card (r : Rng) (g : GameState) (d : list Card) (c : Card) :
  currentPlayerIdx g < length (hands g) ->
  drawsNow g = true ->
  deck g = d ++ [c] ->
  let cur := currentPlayerIdx g in
  let g' := fst (drawTurn r g) in
  deck g' = d
  /\ hands g' = assign cur (nth cur (hands g) [] ++ [c]) (hands g)
  /\ discard g' = discard g
  /\ currentColor g' = currentColor g
  /\ direction g' = direction g
  /\ gameOver g' = false
  /\ currentPlayerIdx g' = getNextPlayerIdx cur (direction g)
  /\ snd (drawTurn r g) = r
  /\ Permutation (allCards g') (allCards g).
Proof.
  intros Hcur Hd Hdeck cur g'. subst cur g'.
  destruct (drawTurn_shape r g Hd) as (Hh & Hk & Hr & Hdc & Hc & Hdir & Hgo & _ & Hn).
  assert (E : drawCardsFromDeck 1 (deck g) (discard g) r = (([c], d), r)).
  { unfold drawCardsFromDeck. rewrite drawLoop_enough by (rewrite Hdeck, length_app; cbn; lia).
    rewrite Hdeck, length_app. cbn [length].
    replace (length d + 1 - 1) with (length d) by lia.
    rewrite skipn_app, firstn_app, skipn_all, firstn_all, Nat.sub_diag. cbn.
    now rewrite app_nil_r. }
  rewrite E in *. cbn [fst snd] in *.
  repeat (split; [assumption|]).
  unfold allCards. rewrite Hh, Hk, Hdc, Hdeck, <- !app_assoc.
  apply Permutation_app_head.
  transitivity (discard g ++ [c] ++ concat (hands g)).
  - now apply Permutation_app_head, concat_assign_grow.
  - symmetry. cbn [app]. apply Permutation_middle.
Qed.
End DrawTurns.

Section DrawEdges.
Context {RS : RandomSource}.

(** X14 -- with no card on the draw pile and at most one on the discard pile,
    taking a card gives none: the hands and the piles stay as they are, no
    randomness is consumed, and the turn passes to the next seat all the
    same. *)
Theorem draw_on_exhausted_piles (r : Rng) (g : GameState) :
  drawsNow g = true ->
  deck g = [] -> length (discard g) <= 1 ->
  let g' := fst (drawTurn r g) in
  hands g' = hands g /\ deck g' = [] /\ discard g' = discard g
  /\ gameOver g' = false
  /\ currentPlayerIdx g' = getNextPlayerIdx (currentPlayerIdx g) (direction g)
  /\ snd (drawTurn r g) = r.
Proof.
  intros Hd Hdeck Hdc g'. subst g'.
  destruct (drawTurn_shape r g Hd) as (Hh & Hk & Hr & Hdis & _ & _ & Hgo & _ & Hn).
  assert (E : drawCardsFromDeck 1 (deck g) (discard g) r = (([], []), r)).
  { unfold drawCardsFromDeck. rewrite drawLoop_no_recycle by exact Hdc.
    now rewrite Hdeck. }
  rewrite E in *. cbn [fst snd] in *.
  rewrite app_nil_r, assign_nth_same in Hh. auto 6.
Qed.

(** X15 -- with no card on the draw pile and more than one on the discard pile,
    taking a card shuffles the discard pile without its top card into a
    draw pile and takes the top card of that: the current seat gets one
    card from under the top of the discard pile, the new draw pile holds
    the other cards from there, and the discard pile itself stays whole. *)
Theorem draw_recycles_discard (r : Rng) (g : GameState) :
  drawsNow g = true ->
  deck g = [] -> 1 < length (discard g) ->
  let cur := currentPlayerIdx g in
  let g' := fst (drawTurn r g) in
  exists c,
    fst (shuffle r (slice_0_m1 (discard g))) = deck g' ++ [c]
    /\ Permutation (deck g' ++ [c]) (slice_0_m1 (discard g))
    /\ hands g' = assign cur (nth cur (hands g) [] ++ [c]) (hands g)
    /\ discard g' = discard g
    /\ currentPlayerIdx g' = getNextPlayerIdx cur (direction g)
    /\ snd (drawTurn r g) = snd (shuffle r (slice_0_m1 (discard g))).
Proof.
  intros Hd Hdeck Hdc cur g'. subst cur g'.
  destruct (drawTurn_shape r g Hd) as (Hh & Hk & Hr & Hdis & _ & _ & _ & _ & Hn).
  pose proof (@shuffle_nonempty _ r _ (@slice_nonempty (discard g) Hdc)) as Hne.
  destruct (pop_nonempty Hne) as (c & rest & Ep).
  assert (E : drawCardsFromDeck 1 (deck g) (discard g) r
              = (([c], rest), snd (shuffle r (slice_0_m1 (discard g))))).
  { unfold drawCardsFromDeck. rewrite Hdeck. cbn [drawLoop length Nat.eqb].
    assert (El : (1 <? length (discard g)) = true) by now apply Nat.ltb_lt.
    rewrite El. destruct (shuffle r (slice_0_m1 (discard g))) as [sh r1].
    cbn [fst snd] in *. now rewrite Ep. }
  rewrite E in *. cbn [fst snd] in *.
  apply pop_Some in Ep. exists c. rewrite Hk.
  split; [exact Ep|]. split; [rewrite <- Ep; apply shuffle_perm|]. auto.
Qed.
End DrawEdges.

(** ** The selection of seat 0 *)

Lemma includes_nat_In (i : nat) (l : list nat) :
  includes Nat.eqb i l = true <-> In i l.
Proof.
  unfold includes. rewrite existsb_exists. split.
  - intros (y & Hy & E). apply Nat.eqb_eq in E. now subst.
  - intros H. exists i. split; [exact H | apply Nat.eqb_refl].
Qed.

(** X16 -- a click on a card of seat 0 changes the selection only: an index
    beyond the hand is ignored; an index of the hand is taken out of the
    selection if it is in it and put at its end otherwise, the other
    indices staying selected or not as they were; a selection without
    repeated indices, or of indices of the hand, stays one; and a second
    click on a card just selected gives the session before the two
    clicks. *)
Theorem toggleCardSelection_spec (i : nat) (g : GameState) :
  let hand := nth 0 (hands g) [] in
  let g' := toggleCardSelection i g in
  sameGameplay g g' /\ selectedColor g' = selectedColor g
  /\ (length hand <= i -> g' = g)
  /\ (i < length hand ->
      (In i (selectedCards g') <-> ~ In i (selectedCards g))
      /\ (forall j, j <> i -> (In j (selectedCards g') <-> In j (selectedCards g)))
      /\ (~ In i (selectedCards g) ->
          selectedCards g' = selectedCards g ++ [i]
          /\ toggleCardSelection i g' = g))
  /\ (NoDup (selectedCards g) -> NoDup (selectedCards g'))
  /\ (Forall (fun j => j < length hand) (selectedCards g) ->
      Forall (fun j => j < length hand) (selectedCards g')).
Proof.
  intros hand g'. subst g'. unfold toggleCardSelection. fold hand.
  destruct (nth_error hand i) as [c|] eqn:En.
  - assert (Hi : i < length hand) by (apply nth_error_Some; congruence).
    destruct (includes Nat.eqb i (selectedCards g)) eqn:Einc.
    + assert (Hin : In i (selectedCards g)) by now apply includes_nat_In.
      cbn [setSelectedCards selectedCards selectedColor].
      split; [repeat split|]. split; [reflexivity|].
      split; [intros H; lia|]. split; [|split].
      * intros _. split; [|split].
        -- rewrite filter_In, negb_true_iff, Nat.eqb_neq. tauto.
        -- intros j Hj. rewrite filter_In, negb_true_iff, Nat.eqb_neq. tauto.
        -- intros H; contradiction.
      * now apply NoDup_filter.
      * intros H. rewrite Forall_forall in *. intros j Hj.
        apply filter_In in Hj as [Hj _]. auto.
    + assert (Hni : ~ In i (selectedCards g)).
      { intros H. apply includes_nat_In in H. congruence. }
      cbn [setSelectedCards selectedCards selectedColor].
      split; [repeat split|]. split; [reflexivity|].
      split; [intros H; lia|]. split; [|split].
      * intros _. split; [|split].
        -- rewrite in_app_iff. cbn. tauto.
        -- intros j Hj. rewrite in_app_iff. cbn. intuition congruence.
        -- intros _. split; [reflexivity|].
           unfold toggleCardSelection.
           cbn [setSelectedCards hands selectedCards]. fold hand. rewrite En.
           assert (E : includes Nat.eqb i (selectedCards g ++ [i]) = true).
           { apply includes_nat_In, in_or_app. right. now left. }
           rewrite E. cbn [setSelectedCards selectedCards].
           rewrite filter_app. cbn [filter]. rewrite Nat.eqb_refl. cbn [negb].
           rewrite app_nil_r.
           assert (Ef : filter (fun j => negb (j =? i)) (selectedCards g)
                        = selectedCards g).
           { apply forallb_filter_id. apply forallb_forall. intros j Hj.
             apply negb_true_iff, Nat.eqb_neq. congruence. }
           rewrite Ef. destruct g; reflexivity.
      * intros H. apply NoDup_app; [exact H | repeat constructor; intros [] |].
        intros j Hj [<-|[]]. contradiction.
      * intros H. apply Forall_app. split; [exact H|]. now constructor.
  - apply nth_error_None in En.
    split; [apply sameGameplay_refl|]. split; [reflexivity|].
    split; [reflexivity|]. split; [intros H; lia|]. auto.
Qed.

(** X17 -- in a live session whose first selected index is an index of the hand,
    the play button is enabled exactly when [handlePlayerPlay] would commit
    the selection. *)
Theorem play_button_matches_handler (g : GameState) :
  gameOver g = false ->
  (forall i, hd_error (selectedCards g) = Some i -> i < length (nth 0 (hands g) [])) ->
  playButtonEnabled g = playAccepted g.
Proof.
  intros Hgo Hhd.
  unfold playButtonEnabled, playAccepted, canSubmitCards, wildAwaitsColor.
  rewrite Hgo, canPlayMultipleCards_eq. unfold selectedCardObjects.
  destruct (selectedCards g) as [|i sel]; cbn [length hd_error map].
  - cbn. now rewrite andb_false_r.
  - specialize (Hhd i eq_refl). apply nth_error_Some in Hhd.
    destruct (nth_error (nth 0 (hands g) []) i) as [c|]; [|congruence].
    cbn [filter_Boolean flat_map app].
    set (objs := c :: _).
    assert (Hs : negb ((1 <? length objs) && negb (allSameValue objs))
                 = allSameValue objs).
    { destruct (allSameValue objs) eqn:Ea; [now rewrite andb_false_r|].
      destruct (1 <? length objs) eqn:El; [reflexivity|].
      apply Nat.ltb_ge in El. rewrite (allSameValue_short _ El) in Ea. discriminate. }
    rewrite Hs. cbn [Nat.ltb Nat.leb Nat.eqb negb].
    destruct (currentPlayerIdx g =? 0), (allSameValue objs),
      (canCardBePlayed (Some c) (lastElem (discard g)) (currentColor g)),
      (CardType_eqb (type c) wild && Color_eqb (selectedColor g) None); reflexivity.
Qed.

Section WildFlow.
Context {RS : RandomSource}.

(** X18 -- seat 0 selects a single card of the wild type while no color is
    chosen: the color selector is shown and a request to play is withheld,
    the session staying as it is; once a color is chosen the same request
    is committed, the wild card goes on the discard pile and the chosen
    color becomes the active color. *)
Theorem wild_play_waits_for_color (r : Rng) (g : GameState) (i : nat) (w : Card)
    (c : ColorName) :
  currentPlayerIdx g = 0 -> gameOver g = false -> 0 < length (hands g) ->
  selectedCards g = [] -> selectedColor g = None ->
  nth_error (nth 0 (hands g) []) i = Some w -> type w = wild ->
  discard g <> [] ->
  let g1 := toggleCardSelection i g in
  let g2 := fst (handlePlayerPlay r (chooseColor c g1)) in
  selectedCards g1 = [i]
  /\ colorSelectorShown g1 = true
  /\ handlePlayerPlay r g1 = (g1, r)
  /\ currentColor g2 = Some c
  /\ discard g2 = discard g ++ [w]
  /\ deck g2 = deck g.
Proof.
  intros Hc Hgo Hlen Hsel Hcol Hw Ht Hdis g1 g2.
  assert (E1 : g1 = setSelectedCards [i] g).
  { subst g1. unfold toggleCardSelection. now rewrite Hw, Hsel. }
  destruct (pop_nonempty Hdis) as (t & under & Hpop).
  assert (Htop : lastElem (discard g) = Some t) by (unfold lastElem; now rewrite Hpop).
  assert (Hplay : forall ac, canCardBePlayed (Some w) (Some t) ac = true).
  { intros ac. unfold canCardBePlayed. now rewrite Ht. }
  assert (Hobjs : forall g0, hands g0 = hands g -> selectedCards g0 = [i] ->
                             selectedCardObjects g0 = [w]).
  { intros g0 Hh Hs. unfold selectedCardObjects. rewrite Hh, Hs. cbn. now rewrite Hw. }
  split; [now rewrite E1|]. split; [|split].
  - rewrite E1. unfold colorSelectorShown. cbn. now rewrite Hw, Ht.
  - rewrite E1. unfold handlePlayerPlay.
    rewrite (Hobjs (setSelectedCards [i] g) eq_refl eq_refl).
    cbn [setSelectedCards currentPlayerIdx gameOver selectedCards discard
         currentColor selectedColor length].
    rewrite Hc, Hgo, Htop, Hplay, Ht, Hcol. reflexivity.
  - assert (Hacc : playAccepted (chooseColor c g1) = true).
    { rewrite E1. unfold playAccepted.
      rewrite (Hobjs (chooseColor c (setSelectedCards [i] g)) eq_refl eq_refl).
      cbn [chooseColor setSelectedCards currentPlayerIdx gameOver selectedCards
           discard currentColor selectedColor length].
      rewrite Hc, Hgo, Htop, Hplay, Ht. reflexivity. }
    assert (Hlen' : 0 < length (hands (chooseColor c g1))) by (rewrite E1; exact Hlen).
    destruct (@human_play_shape _ r (chooseColor c g1) Hlen' Hacc)
      as (lc & Hlc & Hd & Hk & _ & _ & Hcl & _).
    rewrite (Hobjs (chooseColor c g1)) in Hlc, Hd by (rewrite E1; reflexivity).
    cbn in Hlc. inversion Hlc; subst lc.
    subst g2. rewrite Hcl, Hd, Hk, Ht, E1. cbn. auto.
Qed.
End WildFlow.

(** ** The deal *)

Lemma dealHands_eq (d0 : list Card) :
  let d1 := firstn (length d0 - 7) d0 in
  let d2 := firstn (length d1 - 7) d1 in
  let d3 := firstn (length d2 - 7) d2 in
  let d4 := firstn (length d3 - 7) d3 in
  dealHands d0
  = ([skipn (length d0 - 7) d0; skipn (length d1 - 7) d1;
      skipn (length d2 - 7) d2; skipn (length d3 - 7) d3], d4).
Proof. reflexivity. Qed.

Lemma freshSession_dealt (generated : list Card) :
  29 <= length generated ->
  exists g, freshSession generated = Some g
            /\ dealtFrom generated g
            /\ length (deck g) = length generated - 29.
Proof.
  intros Hlen.
  assert (Hne : generated <> []) by (intros ->; cbn in Hlen; lia).
  destruct (pop_nonempty Hne) as (starter & d0 & Hpop).
  unfold freshSession. rewrite Hpop. eexists. split; [reflexivity|].
  apply pop_Some in Hpop. subst generated. rewrite length_app in Hlen. cbn in Hlen.
  rewrite dealHands_eq. cbv zeta. cbn [fst snd].
  set (d1 := firstn (length d0 - 7) d0).
  set (d2 := firstn (length d1 - 7) d1).
  set (d3 := firstn (length d2 - 7) d2).
  set (d4 := firstn (length d3 - 7) d3).
  assert (L1 : length d1 = length d0 - 7) by (subst d1; rewrite length_firstn; lia).
  assert (L2 : length d2 = length d1 - 7) by (subst d2; rewrite length_firstn; lia).
  assert (L3 : length d3 = length d2 - 7) by (subst d3; rewrite length_firstn; lia).
  assert (L4 : length d4 = length d3 - 7) by (subst d4; rewrite length_firstn; lia).
  split.
  - exists starter. do 4 eexists. cbn [deck hands discard currentColor currentPlayerIdx
      direction gameOver winner selectedCards selectedColor skipNextPlayer].
    split; [|split; [reflexivity|]].
    + rewrite !app_assoc. f_equal. rewrite <- !app_assoc.
      subst d4. rewrite (app_assoc (firstn _ d3)), firstn_skipn.
      subst d3. rewrite (app_assoc (firstn _ d2)), firstn_skipn.
      subst d2. rewrite (app_assoc (firstn _ d1)), firstn_skipn.
      subst d1. now rewrite firstn_skipn.
    + split; [|repeat split].
      cbn [map]. rewrite !length_skipn. repeat f_equal; lia.
  - cbn [deck]. rewrite length_app. cbn. lia.
Qed.

Lemma concat_rev_perm (A : Type) (l : list (list A)) :
  Permutation (concat (rev l)) (concat l).
Proof.
  induction l as [|a l IH]; cbn; [constructor|].
  rewrite concat_app. cbn. rewrite app_nil_r, Permutation_app_comm.
  now apply Permutation_app_head.
Qed.

Lemma dealtFrom_cards (generated : list Card) (g : GameState) :
  dealtFrom generated g -> Permutation (allCards g) generated.
Proof.
  intros (starter & h0 & h1 & h2 & h3 & Hgen & Hh & _ & Hd & _).
  unfold allCards. rewrite Hgen, Hh, Hd.
  apply Permutation_app_head.
  pose proof (concat_rev_perm [[starter]; h0; h1; h2; h3]) as HP.
  cbn in HP. rewrite <- ?app_assoc in HP. cbn in HP. rewrite ?app_nil_r in HP.
  cbn [concat app]. rewrite app_nil_r. symmetry.
  exact HP.
Qed.

Section DealFacts.
Context {RS : RandomSource}.

Lemma wfCard_face (c : Card) :
  wfCard c = wfCard (mkCard EmptyString (type c) (color c) (value c)).
Proof. destruct c; reflexivity. Qed.

Lemma generateDeck_wfCards (r : Rng) :
  Forall (fun c => wfCard c = true) (fst (generateDeck r)).
Proof.
  apply Forall_forall. intros c Hin.
  assert (Hf : In (faceOf c) specDeckFaces).
  { apply (Permutation_in _ (generateDeck_faces r)). now apply in_map. }
  assert (Hall : forallb (fun f : Face =>
                    let '(t, cl, v) := f in wfCard (mkCard EmptyString t cl v))
                   specDeckFaces = true) by (vm_compute; reflexivity).
  rewrite forallb_forall in Hall. specialize (Hall _ Hf).
  rewrite wfCard_face. exact Hall.
Qed.

(** X19 -- whatever the random source does, [initialState] and [resetGame] deal
    the same way from the deck they generate: the last card is the starter,
    the four hands are the four runs of 7 cards under it, seat 0's next to
    the starter, and the 79 cards left are the draw pile; seat 0 begins,
    clockwise.  The 108 cards of the session are the cards of the deck. *)
Theorem initial_deal (r : Rng) (g0 : GameState) :
  exists g,
    fst (initialState r) = Some g
    /\ fst (resetGame r g0) = Some g
    /\ dealtFrom (fst (generateDeck r)) g
    /\ length (deck g) = 79
    /\ Permutation (allCards g) (fst (generateDeck r))
    /\ Permutation (map faceOf (allCards g)) specDeckFaces.
Proof.
  destruct (@freshSession_dealt (fst (generateDeck r))) as (g & Hg & Hd & Hl).
  { rewrite generateDeck_length. lia. }
  exists g. split; [exact Hg|]. split; [exact Hg|]. split; [exact Hd|].
  split; [rewrite Hl, generateDeck_length; reflexivity|].
  pose proof (dealtFrom_cards Hd) as HP. split; [exact HP|].
  rewrite <- (generateDeck_faces r). now apply Permutation_map.
Qed.
End DealFacts.

(** ** What every session of a game satisfies *)

Lemma In_filter_idx (A : Type) (p : A -> nat -> bool) (l : list A) : forall k x,
  In x (filter_idx p k l) -> In x l.
Proof.
  induction l as [|a l IH]; intros k x; cbn; [tauto|].
  destruct (p a k); cbn; intros H; [destruct H as [H|H]|]; eauto.
Qed.

Lemma In_selectedCardObjects (g : GameState) (c : Card) :
  In c (selectedCardObjects g) -> In c (nth 0 (hands g) []).
Proof.
  unfold selectedCardObjects, filter_Boolean. rewrite in_flat_map.
  intros (o & Ho & Hc). apply in_map_iff in Ho as (i & <- & _).
  destruct (nth_error _ i) as [x|] eqn:E; [|destruct Hc].
  destruct Hc as [<-|[]]. eapply nth_error_In; eauto.
Qed.

Lemma In_slice (A : Type) (l : list A) (x : A) : In x (slice_0_m1 l) -> In x l.
Proof.
  unfold slice_0_m1. induction l as [|a [|b l] IH]; cbn; [tauto | tauto |].
  intros [H|H]; [now left | right; now apply IH].
Qed.

Lemma In_concat_nth (A : Type) (hs : list (list A)) (x : A) :
  In x (concat hs) <-> exists s, s < length hs /\ In x (nth s hs []).
Proof.
  rewrite in_concat. split.
  - intros (h & Hh & Hx). apply (In_nth _ _ []) in Hh as (s & Hs & <-). eauto.
  - intros (s & Hs & Hx). exists (nth s hs []). split; [now apply nth_In | exact Hx].
Qed.

Lemma lastElem_In (l : list Card) (c : Card) : lastElem l = Some c -> In c l.
Proof.
  intros H. apply lastElem_split in H. rewrite H. apply in_or_app. right. now left.
Qed.

Lemma flipDirection_pm (d : Z) : (flipDirection d = 1 \/ flipDirection d = -1)%Z.
Proof. unfold flipDirection. destruct (d =? 1)%Z; auto. Qed.

Lemma wfCard_color (c : Card) :
  wfCard c = true -> type c <> wild -> color c <> None.
Proof.
  unfold wfCard. intros H Ht Hc. apply andb_prop in H as [H _].
  apply andb_prop in H as [_ H]. apply eqb_prop in H.
  rewrite Hc in H. cbn in H. apply CardType_eqb_eq in H. contradiction.
Qed.

Lemma wfCard_type (c : Card) : wfCard c = true -> type c = typeOfValue (value c).
Proof.
  unfold wfCard. intros H. apply andb_prop in H as [H _].
  apply andb_prop in H as [H _]. now apply CardType_eqb_eq.
Qed.

Lemma wf_cards_of_hand (g : GameState) (s : nat) (c : Card) :
  Forall (fun c => wfCard c = true) (allCards g) ->
  In c (nth s (hands g) []) -> wfCard c = true.
Proof.
  intros Hwf Hin. rewrite Forall_forall in Hwf. apply Hwf.
  unfold allCards. rewrite !in_app_iff. right; right.
  apply In_concat_nth. exists s. split; [|exact Hin].
  destruct (Nat.lt_ge_cases s (length (hands g))) as [H|H]; [exact H|].
  rewrite nth_overflow in Hin by exact H. destruct Hin.
Qed.

(** A play keeps a session well formed, given what the shape lemmas say
    of the session after it. *)
Lemma wf_after_play (g g' : GameState) (played hafter : list Card) :
  wfSession g -> gameOver g = false ->
  let cur := currentPlayerIdx g in
  length (hands g') = 4 ->
  played <> [] ->
  (forall c, In c played -> In c (nth cur (hands g) [])) ->
  (forall c, In c hafter -> In c (nth cur (hands g) [])) ->
  discard g' = discard g ++ played ->
  deck g' = deck g ->
  nth cur (hands g') [] = hafter ->
  (forall s, s <> cur ->
     exists extra,
       nth s (hands g') [] = nth s (hands g) [] ++ extra
       /\ forall c, In c extra ->
            In c (deck g) \/ In c (slice_0_m1 (discard g ++ played))) ->
  currentColor g' <> None ->
  NoDup (selectedCards g') ->
  (hafter <> [] -> selectedCards g' = [] \/ (cur <> 0 /\ selectedCards g' = selectedCards g)) ->
  (hafter = [] ->
   gameOver g' = true /\ winner g' = Some cur /\ currentPlayerIdx g' = cur
   /\ direction g' = direction g) ->
  (hafter <> [] ->
   gameOver g' = false /\ winner g' = winner g /\ currentPlayerIdx g' < 4
   /\ (direction g' = direction g \/ direction g' = flipDirection (direction g))) ->
  wfSession g'.
Proof.
  intros (W1 & W2 & W3 & W4 & W5 & W6 & W7 & W8 & W9 & W10 & W11) Hgo cur
         Hl Hpne Hpl Hha Hd Hk Hc Ho Hcol Hnd Hsel Hwin Hlive.
  assert (Hcase : hafter = [] \/ hafter <> [])
    by (destruct hafter; [now left | right; discriminate]).
  assert (Hwnone : winner g = None) by now apply W4.
  unfold wfSession. split; [exact Hl|].
  split. { destruct Hcase as [H|H]; [destruct (Hwin H) as (_ & _ & -> & _); exact W2
                                    | now destruct (Hlive H) as (_ & _ & ? & _)]. }
  split. { destruct Hcase as [H|H].
           - destruct (Hwin H) as (_ & _ & _ & ->). exact W3.
           - destruct (Hlive H) as (_ & _ & _ & [-> | ->]);
               [exact W3 | apply flipDirection_pm]. }
  split. { destruct Hcase as [H|H].
           - destruct (Hwin H) as (-> & -> & _). split; discriminate.
           - destruct (Hlive H) as (-> & -> & _). now rewrite Hwnone. }
  split. { intros s Hs. destruct Hcase as [H|H].
           - destruct (Hwin H) as (_ & Hw & _). rewrite Hw in Hs.
             inversion Hs; subst s. split; [exact W2 | now rewrite Hc].
           - destruct (Hlive H) as (_ & Hw & _). congruence. }
  split. { intros Hgo' s Hs. destruct Hcase as [H|H].
           - destruct (Hwin H) as (Hg & _). congruence.
           - destruct (Nat.eq_dec s cur) as [->|Hsc]; [now rewrite Hc|].
             destruct (Ho s Hsc) as (extra & -> & _).
             intros E. apply app_eq_nil in E as [E _]. now apply (W6 Hgo s Hs). }
  split; [exact Hnd|].
  split. { intros Hgo'. destruct Hcase as [H|H].
           - destruct (Hwin H) as (Hg & _). congruence.
           - destruct (Hsel H) as [->|[Hc0 ->]]; [constructor|].
             destruct (Ho 0 (not_eq_sym Hc0)) as (extra & -> & _).
             eapply Forall_impl; [|exact (W8 Hgo)].
             intros i Hi. cbn beta in *. rewrite length_app. lia. }
  split.
  { apply Forall_forall. intros c Hin. rewrite Forall_forall in W9.
    assert (Hhand : forall s x, In x (nth s (hands g) []) -> wfCard x = true).
    { intros s x Hx. eapply wf_cards_of_hand; [apply Forall_forall; exact W9 | exact Hx]. }
    assert (Hdisc : forall x, In x (discard g ++ played) -> wfCard x = true).
    { intros x Hx. apply in_app_or in Hx as [Hx|Hx].
      - apply W9. unfold allCards. rewrite !in_app_iff. auto.
      - eapply Hhand. apply Hpl. exact Hx. }
    unfold allCards in Hin. rewrite Hd, Hk in Hin.
    apply in_app_or in Hin as [Hin|Hin].
    - apply W9. unfold allCards. rewrite !in_app_iff. auto.
    - apply in_app_or in Hin as [Hin|Hin]; [now apply Hdisc|].
      apply In_concat_nth in Hin as (s & Hs & Hin).
      destruct (Nat.eq_dec s cur) as [->|Hsc].
      + rewrite Hc in Hin. eapply Hhand. apply Hha. exact Hin.
      + destruct (Ho s Hsc) as (extra & He & Hp). rewrite He in Hin.
        apply in_app_or in Hin as [Hin|Hin]; [now apply (Hhand s)|].
        destruct (Hp c Hin) as [H|H].
        * apply W9. unfold allCards. rewrite !in_app_iff. auto.
        * apply Hdisc. now apply In_slice. }
  split; [exact Hcol|].
  rewrite Hd. intros E. apply app_eq_nil in E as [_ E]. contradiction.
Qed.

Lemma wf_after_draw (g g' : GameState) (drawn newDeck : list Card) :
  wfSession g -> gameOver g = false ->
  let cur := currentPlayerIdx g in
  hands g' = assign cur (nth cur (hands g) [] ++ drawn) (hands g) ->
  deck g' = newDeck ->
  (forall c, In c drawn \/ In c newDeck ->
             In c (deck g) \/ In c (slice_0_m1 (discard g))) ->
  discard g' = discard g ->
  currentColor g' = currentColor g ->
  direction g' = direction g ->
  gameOver g' = false -> winner g' = winner g ->
  currentPlayerIdx g' = getNextPlayerIdx cur (direction g) ->
  (selectedCards g' = [] \/ (cur <> 0 /\ selectedCards g' = selectedCards g)) ->
  wfSession g'.
Proof.
  intros (W1 & W2 & W3 & W4 & W5 & W6 & W7 & W8 & W9 & W10 & W11) Hgo cur
         Hh Hk Hp Hd Hc Hdir Hgo' Hw Hn Hsel.
  assert (Hnth : forall s, nth s (hands g') []
                           = if Nat.eq_dec s cur then nth cur (hands g) [] ++ drawn
                             else nth s (hands g) []).
  { intros s. rewrite Hh. destruct (Nat.eq_dec s cur) as [->|Hs].
    - apply nth_assign_same. subst cur. lia.
    - apply nth_assign_other. congruence. }
  unfold wfSession. rewrite Hd, Hc, Hdir, Hgo', Hw, Hn.
  split; [rewrite Hh, length_assign; exact W1|].
  split; [apply getNextPlayerIdx_lt|]. split; [exact W3|].
  split; [exact (eq_ind _ (fun b => b = false <-> winner g = None) W4 _ Hgo)|].
  split. { intros s Hs. apply W4 in Hgo. congruence. }
  split. { intros _ s Hs. rewrite Hnth. destruct (Nat.eq_dec s cur) as [->|_].
           - intros E. apply app_eq_nil in E as [E _]. now apply (W6 Hgo cur W2).
           - now apply W6. }
  split. { destruct Hsel as [->|[_ ->]]; [constructor | exact W7]. }
  split. { intros _. destruct Hsel as [->|[Hc0 ->]]; [constructor|].
           rewrite Hnth. destruct (Nat.eq_dec 0 cur) as [E|_]; [congruence|].
           now apply W8. }
  split.
  { apply Forall_forall. intros c Hin. rewrite Forall_forall in W9.
    assert (Hpile : forall x, In x (deck g) \/ In x (slice_0_m1 (discard g)) ->
                              wfCard x = true).
    { intros x [Hx|Hx]; apply W9; unfold allCards; rewrite !in_app_iff; auto.
      right; left. now apply In_slice. }
    unfold allCards in Hin. rewrite Hd, Hk in Hin.
    apply in_app_or in Hin as [Hin|Hin]; [apply Hpile, Hp; auto|].
    apply in_app_or in Hin as [Hin|Hin].
    - apply W9. unfold allCards. rewrite !in_app_iff. auto.
    - apply In_concat_nth in Hin as (s & Hs & Hin). rewrite Hnth in Hin.
      assert (Hhand : forall t x, In x (nth t (hands g) []) -> wfCard x = true).
      { intros t x Hx. eapply wf_cards_of_hand; [apply Forall_forall; exact W9|exact Hx]. }
      destruct (Nat.eq_dec s cur) as [->|_]; [|now apply (Hhand s)].
      apply in_app_or in Hin as [Hin|Hin]; [now apply (Hhand cur)|].
      apply Hpile, Hp. auto. }
  split; [exact W10 | exact W11].
Qed.

Lemma wf_same_table (g g' : GameState) :
  wfSession g ->
  deck g' = deck g -> discard g' = discard g -> hands g' = hands g ->
  currentColor g' = currentColor g -> currentPlayerIdx g' = currentPlayerIdx g ->
  direction g' = direction g -> gameOver g' = gameOver g -> winner g' = winner g ->
  NoDup (selectedCards g') ->
  (gameOver g = false ->
   Forall (fun i => i < length (nth 0 (hands g) [])) (selectedCards g')) ->
  wfSession g'.
Proof.
  intros (W1 & W2 & W3 & W4 & W5 & W6 & W7 & W8 & W9 & W10 & W11)
         Hk Hd Hh Hc Hp Hdir Hgo Hw Hnd Hv.
  unfold wfSession, allCards. rewrite Hk, Hd, Hh, Hc, Hp, Hdir, Hgo, Hw.
  repeat (split; [assumption|]). auto.
Qed.

Section Invariant.
Context {RS : RandomSource}.

Lemma handlePlayerPlay_rejected (r : Rng) (g : GameState) :
  playAccepted g = false ->
  handlePlayerPlay r g = (g, r) \/ handlePlayerPlay r g = (clearSelection g, r).
Proof.
  unfold playAccepted, handlePlayerPlay.
  destruct (currentPlayerIdx g =? 0); cbn [negb orb andb]; [|now left].
  destruct (gameOver g); cbn [negb andb]; [now left|].
  destruct (length (selectedCards g) =? 0); cbn [negb andb]; [now left|].
  destruct (selectedCardObjects g) as [|first rest]; [now right|].
  destruct ((1 <? length (first :: rest)) && negb (allSameValue (first :: rest)));
    cbn [negb andb]; [now right|].
  destruct (canCardBePlayed (Some first) (lastElem (discard g)) (currentColor g));
    cbn [negb andb]; [|now right].
  destruct (CardType_eqb (type first) wild && Color_eqb (selectedColor g) None);
    cbn [negb]; [now left | discriminate].
Qed.

Lemma wf_initial (r : Rng) (g : GameState) :
  fst (initialState r) = Some g -> wfSession g.
Proof.
  intros Hg.
  destruct (@freshSession_dealt (fst (generateDeck r))) as (g1 & Hg1 & Hd & _).
  { rewrite generateDeck_length. lia. }
  unfold initialState in Hg. cbn [fst] in Hg. rewrite Hg1 in Hg.
  inversion Hg; subst g1. clear Hg.
  pose proof (dealtFrom_cards Hd) as HP.
  destruct Hd as (starter & h0 & h1 & h2 & h3 & Hgen & Hh & Hlens & Hdis & Hcol
                  & Hp & Hdir & Hgo & Hw & Hsel & _).
  rewrite Hh in Hlens. cbn [map] in Hlens. inversion Hlens as [[L0 L1 L2 L3]].
  unfold wfSession. rewrite Hh, Hp, Hdir, Hgo, Hw, Hsel, Hdis, Hcol.
  split; [reflexivity|]. split; [lia|]. split; [now left|].
  split; [tauto|]. split; [discriminate|].
  split. { intros _ s Hs.
           destruct s as [|[|[|[|s]]]]; try lia; cbn; intros E;
             rewrite E in *; discriminate. }
  split; [constructor|]. split; [constructor|].
  split. { eapply Permutation_Forall; [symmetry; exact HP|].
           apply generateDeck_wfCards. }
  split; [destruct (color starter); discriminate | discriminate].
Qed.

Lemma wf_human_play (r : Rng) (g : GameState) :
  wfSession g -> wfSession (fst (handlePlayerPlay r g)).
Proof.
  intros Hwf. destruct (playAccepted g) eqn:Hacc.
  2:{ destruct (handlePlayerPlay_rejected r g Hacc) as [-> | ->]; [exact Hwf|].
      apply (@wf_same_table g (clearSelection g) Hwf); try reflexivity;
        [constructor|]. intros _. constructor. }
  pose proof Hwf as (W1 & W2 & W3 & W4 & W5 & W6 & W7 & W8 & W9 & W10 & W11).
  destruct (@playAccepted_commit _ r g Hacc) as (Hc0 & Hgo & _).
  destruct (@human_play_shape _ r g ltac:(lia) Hacc)
    as (lc & Hlc & Hd & Hk & Hl & H0 & Hcol & Hwin & Hlive).
  destruct (accepted_play_core g) as (first & rest & Hpl & _ & Ha & Hw & _).
  { unfold moveAccepted. now rewrite Hc0. }
  assert (Epl : playedCards g = selectedCardObjects g)
    by (unfold playedCards; now rewrite Hc0).
  rewrite Epl in *. specialize (Hw Hc0).
  assert (Hlcin : In lc (selectedCardObjects g)) by now apply lastElem_In.
  apply (@wf_after_play g _ (selectedCardObjects g) (remainingHand g) Hwf Hgo);
    rewrite ?Hc0.
  - lia.
  - rewrite Hpl. discriminate.
  - apply In_selectedCardObjects.
  - intros c Hc. unfold remainingHand in Hc. eapply In_filter_idx; eauto.
  - exact Hd.
  - exact Hk.
  - exact H0.
  - intros s Hs. destruct (remainingHand g) as [|c0 rem] eqn:Hrem.
    + destruct (Hwin eq_refl) as (_ & _ & _ & _ & _ & Ho).
      exists []. rewrite app_nil_r. split; [now apply Ho | intros c []].
    + destruct Hlive as (_ & _ & _ & _ & _ & _ & _ & Ho & extra & He & _ & Hp);
        [discriminate|].
      destruct (Nat.eq_dec s (currentPlayerIdx (fst (handlePlayerPlay r g))))
        as [->|Hsn]; [eauto|].
      exists []. rewrite app_nil_r. split; [now apply Ho | intros c []].
  - rewrite Hcol.
    assert (Hwlc : wfCard lc = true).
    { eapply wf_cards_of_hand; [exact W9 | apply In_selectedCardObjects, Hlcin]. }
    destruct (CardType_eqb (type lc) wild) eqn:Et.
    + assert (Hwf1 : wfCard first = true).
      { eapply wf_cards_of_hand; [exact W9|].
        apply In_selectedCardObjects. rewrite Hpl. now left. }
      rewrite Hpl in Ha, Hlcin. apply allSameValue_Forall in Ha.
      rewrite Forall_forall in Ha. specialize (Ha lc Hlcin).
      assert (Eft : type first = type lc)
        by (rewrite (@wfCard_type first Hwf1), (@wfCard_type lc Hwlc); congruence).
      rewrite Eft, Et in Hw. cbn in Hw. intros E. rewrite E in Hw. discriminate.
    + apply wfCard_color; [exact Hwlc|]. intros E. apply CardType_eqb_eq in E. congruence.
  - destruct (remainingHand g) as [|c0 rem] eqn:Hrem.
    + destruct (Hwin eq_refl) as (_ & _ & _ & _ & -> & _). exact W7.
    + destruct Hlive as (_ & _ & -> & _); [discriminate | constructor].
  - intros Hrem. left. now destruct (Hlive Hrem) as (_ & _ & -> & _).
  - intros Hrem. destruct (Hwin Hrem) as (H1 & H2 & H3 & H4 & _). auto.
  - intros Hrem. destruct (Hlive Hrem) as (H1 & H2 & _ & _ & Hn & Hdir & _).
    split; [exact H1|]. split; [exact H2|].
    split; [rewrite Hn; apply getNextPlayerIdx_lt|].
    destruct (CardValue_eqb (value lc) Reverse); auto.
Qed.
End Invariant.

Section Invariant2.
Context {RS : RandomSource}.

Lemma draw_provenance (r : Rng) (g : GameState) (c : Card) :
  In c (fst (fst (drawCardsFromDeck 1 (deck g) (discard g) r)))
  \/ In c (snd (fst (drawCardsFromDeck 1 (deck g) (discard g) r))) ->
  In c (deck g) \/ In c (slice_0_m1 (discard g)).
Proof.
  intros H. unfold drawCardsFromDeck in H.
  apply drawLoop_provenance in H. cbn in H. tauto.
Qed.

Lemma wf_human_draw (r : Rng) (g : GameState) :
  wfSession g -> wfSession (fst (handlePlayerDraw r g)).
Proof.
  intros Hwf.
  destruct (currentPlayerIdx g =? 0) eqn:Ec.
  2:{ unfold handlePlayerDraw. now rewrite Ec. }
  destruct (gameOver g) eqn:Hgo.
  { unfold handlePlayerDraw. now rewrite Ec, Hgo. }
  assert (Hdn : drawsNow g = true) by (unfold drawsNow; now rewrite Hgo, Ec).
  assert (Edt : drawTurn r g = handlePlayerDraw r g) by (unfold drawTurn; now rewrite Ec).
  destruct (drawTurn_shape r g Hdn) as (Hh & Hk & _ & Hd & Hc & Hdir & Hgo' & Hw & Hn).
  rewrite Edt in *.
  eapply (@wf_after_draw g _ _ _ Hwf Hgo); try eassumption.
  - apply draw_provenance.
  - left. unfold handlePlayerDraw. now rewrite Ec, Hgo.
Qed.

Lemma wf_opponent (r : Rng) (g : GameState) :
  wfSession g -> wfSession (fst (opponentTurnEffect r g)).
Proof.
  intros Hwf.
  destruct (currentPlayerIdx g =? 0) eqn:Ec.
  { unfold opponentTurnEffect. now rewrite Ec. }
  destruct (gameOver g) eqn:Hgo.
  { unfold opponentTurnEffect. now rewrite Ec, Hgo. }
  assert (Ec' : currentPlayerIdx g <> 0) by now apply Nat.eqb_neq.
  pose proof Hwf as (W1 & W2 & W3 & W4 & W5 & W6 & W7 & W8 & W9 & W10 & W11).
  destruct (validCardsOf g) as [|firstCard rest] eqn:Hv.
  - assert (Hdn : drawsNow g = true) by (unfold drawsNow; now rewrite Hgo, Ec, Hv).
    assert (Edt : drawTurn r g = opponentTurnEffect r g)
      by (unfold drawTurn; now rewrite Ec).
    destruct (drawTurn_shape r g Hdn) as (Hh & Hk & _ & Hd & Hc & Hdir & Hgo' & Hw & Hn).
    rewrite Edt in *.
    eapply (@wf_after_draw g _ _ _ Hwf Hgo); try eassumption.
    + apply draw_provenance.
    + right. split; [exact Ec'|].
      unfold opponentTurnEffect. now rewrite Ec, Hgo, Hv.
  - assert (Hacc : moveAccepted g = true)
      by (unfold moveAccepted; now rewrite Ec, Hgo, Hv).
    destruct (@opponent_play_shape _ r g ltac:(lia) W2 Ec' Hacc)
      as (lc & Hlc & Hd & Hk & Hl & H0 & Hcol & Hsel & _ & Hh & Hwin & Hlive).
    pose proof (opponent_hand_split g Ec') as HP.
    assert (Hsub : forall c, In c (handAfterPlay g) \/ In c (playedCards g) ->
                             In c (nth (currentPlayerIdx g) (hands g) [])).
    { intros c Hc. apply (Permutation_in c HP). apply in_or_app. exact Hc. }
    apply (@wf_after_play g _ (playedCards g) (handAfterPlay g) Hwf Hgo).
    + lia.
    + intros E. rewrite E in Hlc. discriminate.
    + intros c Hc. apply Hsub. now right.
    + intros c Hc. apply Hsub. now left.
    + exact Hd.
    + exact Hk.
    + exact H0.
    + intros s Hs. destruct (Hh s Hs) as (extra & He & _ & Hp). eauto.
    + rewrite Hcol. destruct (CardType_eqb (type lc) wild) eqn:Et.
      * destruct (opponent_color_pick r) as (c & -> & _). discriminate.
      * apply wfCard_color.
        -- eapply wf_cards_of_hand; [exact W9|]. apply Hsub. right.
           now apply lastElem_In.
        -- intros E. apply CardType_eqb_eq in E. congruence.
    + rewrite Hsel. exact W7.
    + intros _. right. split; [exact Ec' | exact Hsel].
    + exact Hwin.
    + intros Hrem. destruct (Hlive Hrem) as (H1 & H2 & _ & Hdir & Hn).
      split; [exact H1|]. split; [exact H2|]. split.
      * rewrite Hn. destruct (CardValue_eqb (value lc) Skip); apply getNextPlayerIdx_lt.
      * destruct (CardValue_eqb (value lc) Reverse); auto.
Qed.

Lemma wf_toggle (i : nat) (g : GameState) :
  wfSession g -> wfSession (toggleCardSelection i g).
Proof.
  intros Hwf. pose proof Hwf as (_ & _ & _ & _ & _ & _ & W7 & W8 & _).
  unfold toggleCardSelection.
  destruct (nth_error (nth 0 (hands g) []) i) as [c|] eqn:En; [|exact Hwf].
  assert (Hi : i < length (nth 0 (hands g) [])) by (apply nth_error_Some; congruence).
  destruct (includes Nat.eqb i (selectedCards g)) eqn:Einc.
  - apply (@wf_same_table g _ Hwf); try reflexivity.
    + now apply NoDup_filter.
    + intros Hgo. cbn [setSelectedCards selectedCards].
      apply Forall_forall. intros j Hj. apply filter_In in Hj as [Hj _].
      specialize (W8 Hgo). rewrite Forall_forall in W8. auto.
  - apply (@wf_same_table g _ Hwf); try reflexivity.
    + cbn [setSelectedCards selectedCards].
      apply NoDup_app; [exact W7 | repeat constructor; intros [] |].
      intros j Hj [<-|[]]. apply includes_nat_In in Hj. congruence.
    + intros Hgo. cbn [setSelectedCards selectedCards].
      apply Forall_app. split; [now apply W8 | now constructor].
Qed.

(** X20 -- every session of a game -- the initial one and every session the
    handlers of the interface and the opponent effect produce from it,
    whatever the random source does -- has four hands, a current seat of
    the ring and a direction of 1 or -1; it is over exactly when it has a
    winner, whose hand is then empty, and no hand is empty while it is not
    over; its selection names no index twice and, while the session is not
    over, only indices of seat 0's hand; every card in it is a card as the
    deck builds them; its active color is set and its discard pile is not
    empty. *)
Theorem reachable_wellformed (g : GameState) : reachable g -> wfSession g.
Proof.
  induction 1 as [r g Hg | r g0 g _ IH Hg | i g _ IH | c g _ IH | g _ IH
                  | r g _ IH | r g _ IH | r g _ IH].
  - now apply (wf_initial r).
  - now apply (wf_initial r).
  - now apply wf_toggle.
  - pose proof IH as (_ & _ & _ & _ & _ & _ & W7 & W8 & _).
    apply (@wf_same_table g _ IH); try reflexivity; assumption.
  - apply (@wf_same_table g _ IH); try reflexivity; [constructor|].
    intros _. constructor.
  - now apply wf_human_play.
  - now apply wf_human_draw.
  - now apply wf_opponent.
Qed.
End Invariant2.

Module MoreWitnesses.
Import Seeded Examples MoreExamples.

Lemma getNextPlayerIdx_cycle_witness :
  3 < 4
  /\ getNextPlayerIdx (getNextPlayerIdx (getNextPlayerIdx (getNextPlayerIdx 3 1) 1) 1) 1
     = 3.
Proof.
  assert (H : 3 < 4) by lia. split; [exact H|].
  exact (proj1 (@getNextPlayerIdx_cycle 3 1 (-1) H)).
Defined.

Lemma getNextPlayerIdx_off_ring_witness :
  4 <= 7 /\ getNextPlayerIdx 7 (-1) = 1.
Proof.
  assert (H : 4 <= 7) by lia. split; [exact H|].
  exact (proj1 (@getNextPlayerIdx_off_ring 7 (-1) H)).
Defined.

Lemma drawCardsFromDeck_never_short_witness :
  1 < length [b3; b9; r5]
  /\ length (fst (fst (drawCardsFromDeck 5 [g7] [b3; b9; r5] seed))) = 5.
Proof.
  assert (H : 1 < length [b3; b9; r5]) by (simpl; lia). split; [exact H|].
  exact (@drawCardsFromDeck_never_short source 5 [g7] [b3; b9; r5] seed H).
Defined.

Lemma drawCardsFromDeck_from_pile_witness :
  2 <= length [y4; b6; g7]
  /\ drawCardsFromDeck 2 [y4; b6; g7] [r5] seed = (([g7; b6], [y4]), seed).
Proof.
  assert (H : 2 <= length [y4; b6; g7]) by (simpl; lia). split; [exact H|].
  exact (proj1 (@drawCardsFromDeck_from_pile source 2 [y4; b6; g7] [r5] seed H)).
Defined.

Lemma opponent_plays_first_value_witness :
  currentPlayerIdx opponentHoldsSkip <> 0
  /\ validCardsOf opponentHoldsSkip = [redSkip]
  /\ hd_error (playedCards opponentHoldsSkip) = Some redSkip.
Proof.
  assert (H1 : currentPlayerIdx opponentHoldsSkip <> 0) by discriminate.
  assert (H2 : validCardsOf opponentHoldsSkip = redSkip :: []) by reflexivity.
  split; [exact H1|]. split; [exact H2|].
  exact (proj1 (proj2 (@opponent_plays_first_value opponentHoldsSkip redSkip [] H1 H2))).
Defined.
Lemma play_without_penalty_conserves_cards_witness :
  let g := humanHolds r9 in
  (length (hands g) = 4 /\ currentPlayerIdx g < 4 /\ moveAccepted g = true
   /\ NoDup (selectedCards g) /\ lastElem (playedCards g) = Some r9
   /\ value r9 <> Draw2 /\ value r9 <> WildPlus4)
  /\ Permutation (allCards (fst (seatTurn seed g))) (allCards g).
Proof.
  cbv zeta.
  assert (H1 : length (hands (humanHolds r9)) = 4) by reflexivity.
  assert (H2 : currentPlayerIdx (humanHolds r9) < 4) by (simpl; lia).
  assert (H3 : moveAccepted (humanHolds r9) = true) by reflexivity.
  assert (H4 : NoDup (selectedCards (humanHolds r9)))
    by (simpl; repeat constructor; intros []).
  assert (H5 : lastElem (playedCards (humanHolds r9)) = Some r9) by reflexivity.
  assert (H6 : value r9 <> Draw2) by discriminate.
  assert (H7 : value r9 <> WildPlus4) by discriminate.
  split; [repeat split; assumption|].
  exact (proj2 (proj2 (proj2 (@play_without_penalty_conserves_cards source seed
           (humanHolds r9) r9 H1 H2 H3 H4 H5 H6 H7)))).
Defined.

Lemma reverse_resolution_witness :
  let g := humanHolds redReverse in
  (length (hands g) = 4 /\ currentPlayerIdx g < 4 /\ moveAccepted g = true
   /\ handAfterPlay g <> [] /\ lastElem (playedCards g) = Some redReverse
   /\ value redReverse = Reverse)
  /\ direction (fst (seatTurn seed g)) = flipDirection (direction g).
Proof.
  cbv zeta.
  assert (H1 : length (hands (humanHolds redReverse)) = 4) by reflexivity.
  assert (H2 : currentPlayerIdx (humanHolds redReverse) < 4) by (simpl; lia).
  assert (H3 : moveAccepted (humanHolds redReverse) = true) by reflexivity.
  assert (H4 : handAfterPlay (humanHolds redReverse) <> []) by discriminate.
  assert (H5 : lastElem (playedCards (humanHolds redReverse)) = Some redReverse)
    by reflexivity.
  assert (H6 : value redReverse = Reverse) by reflexivity.
  split; [repeat split; assumption|].
  exact (proj1 (proj2 (@reverse_resolution source seed (humanHolds redReverse)
           redReverse H1 H2 H3 H4 H5 H6))).
Defined.

Lemma plain_card_resolution_witness :
  let g := humanHolds r9 in
  (length (hands g) = 4 /\ currentPlayerIdx g < 4 /\ moveAccepted g = true
   /\ handAfterPlay g <> [] /\ lastElem (playedCards g) = Some r9
   /\ (value r9 = Wild \/ exists n, value r9 = VNum n))
  /\ currentPlayerIdx (fst (seatTurn seed g))
     = getNextPlayerIdx (currentPlayerIdx g) (direction g).
Proof.
  cbv zeta.
  assert (H1 : length (hands (humanHolds r9)) = 4) by reflexivity.
  assert (H2 : currentPlayerIdx (humanHolds r9) < 4) by (simpl; lia).
  assert (H3 : moveAccepted (humanHolds r9) = true) by reflexivity.
  assert (H4 : handAfterPlay (humanHolds r9) <> []) by discriminate.
  assert (H5 : lastElem (playedCards (humanHolds r9)) = Some r9) by reflexivity.
  assert (H6 : value r9 = Wild \/ exists n, value r9 = VNum n)
    by (right; exists 9; reflexivity).
  split; [repeat split; assumption|].
  exact (proj1 (proj2 (proj2 (@plain_card_resolution source seed (humanHolds r9)
           r9 H1 H2 H3 H4 H5 H6)))).
Defined.

Lemma turn_always_passes_witness :
  let g := humanHolds r9 in
  (length (hands g) = 4 /\ currentPlayerIdx g < 4 /\ moveAccepted g = true)
  /\ ((gameOver (fst (seatTurn seed g)) = true
       /\ winner (fst (seatTurn seed g)) = Some (currentPlayerIdx g)
       /\ nth (currentPlayerIdx g) (hands (fst (seatTurn seed g))) [] = [])
      \/ (gameOver (fst (seatTurn seed g)) = false
          /\ currentPlayerIdx (fst (seatTurn seed g)) <> currentPlayerIdx g
          /\ currentPlayerIdx (fst (seatTurn seed g)) < 4
          /\ nth (currentPlayerIdx g) (hands (fst (seatTurn seed g))) [] <> [])).
Proof.
  cbv zeta.
  assert (H1 : length (hands (humanHolds r9)) = 4) by reflexivity.
  assert (H2 : currentPlayerIdx (humanHolds r9) < 4) by (simpl; lia).
  assert (H3 : moveAccepted (humanHolds r9) = true) by reflexivity.
  split; [repeat split; assumption|].
  exact (@turn_always_passes source seed (humanHolds r9) H1 H2 H3).
Defined.

Lemma accepted_play_is_legal_witness :
  let g := humanHolds r9 in
  moveAccepted g = true
  /\ canPlayMultipleCards (playedCards g) (lastElem (discard g)) (currentColor g)
     = true.
Proof.
  cbv zeta.
  assert (H : moveAccepted (humanHolds r9) = true) by reflexivity.
  split; [exact H|].
  exact (proj1 (@accepted_play_is_legal (humanHolds r9) H)).
Defined.

Lemma active_color_after_play_witness :
  let g := humanHolds r9 in
  (length (hands g) = 4 /\ currentPlayerIdx g < 4 /\ moveAccepted g = true
   /\ lastElem (playedCards g) = Some r9 /\ type r9 <> wild)
  /\ currentColor (fst (seatTurn seed g)) = color r9.
Proof.
  cbv zeta.
  assert (H1 : length (hands (humanHolds r9)) = 4) by reflexivity.
  assert (H2 : currentPlayerIdx (humanHolds r9) < 4) by (simpl; lia).
  assert (H3 : moveAccepted (humanHolds r9) = true) by reflexivity.
  assert (H4 : lastElem (playedCards (humanHolds r9)) = Some r9) by reflexivity.
  assert (H5 : type r9 <> wild) by discriminate.
  split; [repeat split; assumption|].
  exact (proj1 (@active_color_after_play source seed (humanHolds r9) r9 H1 H2 H3 H4) H5).
Defined.

Lemma opponent_win_ends_session_witness :
  let g := opponentLastCard in
  (length (hands g) = 4 /\ currentPlayerIdx g < 4 /\ currentPlayerIdx g <> 0
   /\ moveAccepted g = true /\ handAfterPlay g = [])
  /\ winner (fst (opponentTurnEffect seed g)) = Some (currentPlayerIdx g).
Proof.
  cbv zeta.
  assert (H1 : length (hands opponentLastCard) = 4) by reflexivity.
  assert (H2 : currentPlayerIdx opponentLastCard < 4) by (simpl; lia).
  assert (H3 : currentPlayerIdx opponentLastCard <> 0) by discriminate.
  assert (H4 : moveAccepted opponentLastCard = true) by reflexivity.
  assert (H5 : handAfterPlay opponentLastCard = []) by reflexivity.
  split; [repeat split; assumption|].
  exact (proj1 (proj2 (@opponent_win_ends_session source seed opponentLastCard
           H1 H2 H3 H4 H5))).
Defined.

Lemma draw_moves_top_card_witness :
  let g := humanHolds r9 in
  (currentPlayerIdx g < length (hands g) /\ drawsNow g = true
   /\ deck g = [y4; b6] ++ [g7])
  /\ deck (fst (drawTurn seed g)) = [y4; b6].
Proof.
  cbv zeta.
  assert (H1 : currentPlayerIdx (humanHolds r9) < length (hands (humanHolds r9)))
    by (simpl; lia).
  assert (H2 : drawsNow (humanHolds r9) = true) by reflexivity.
  assert (H3 : deck (humanHolds r9) = [y4; b6] ++ [g7]) by reflexivity.
  split; [repeat split; assumption|].
  exact (proj1 (@draw_moves_top_card source seed (humanHolds r9) [y4; b6] g7 H1 H2 H3)).
Defined.

Lemma draw_on_exhausted_piles_witness :
  let g := emptyDrawPile [r5] in
  (drawsNow g = true /\ deck g = [] /\ length (discard g) <= 1)
  /\ hands (fst (drawTurn seed g)) = hands g.
Proof.
  cbv zeta.
  assert (H1 : drawsNow (emptyDrawPile [r5]) = true) by reflexivity.
  assert (H2 : deck (emptyDrawPile [r5]) = []) by reflexivity.
  assert (H3 : length (discard (emptyDrawPile [r5])) <= 1) by (simpl; lia).
  split; [repeat split; assumption|].
  exact (proj1 (@draw_on_exhausted_piles source seed (emptyDrawPile [r5]) H1 H2 H3)).
Defined.

Lemma draw_recycles_discard_witness :
  let g := emptyDrawPile [y4; g7; r5] in
  (drawsNow g = true /\ deck g = [] /\ 1 < length (discard g))
  /\ exists c,
       fst (shuffle seed (slice_0_m1 (discard g))) = deck (fst (drawTurn seed g)) ++ [c]
       /\ Permutation (deck (fst (drawTurn seed g)) ++ [c]) (slice_0_m1 (discard g))
       /\ hands (fst (drawTurn seed g))
          = assign (currentPlayerIdx g)
                   (nth (currentPlayerIdx g) (hands g) [] ++ [c]) (hands g)
       /\ discard (fst (drawTurn seed g)) = discard g
       /\ currentPlayerIdx (fst (drawTurn seed g))
          = getNextPlayerIdx (currentPlayerIdx g) (direction g)
       /\ snd (drawTurn seed g) = snd (shuffle seed (slice_0_m1 (discard g))).
Proof.
  cbv zeta.
  assert (H1 : drawsNow (emptyDrawPile [y4; g7; r5]) = true) by reflexivity.
  assert (H2 : deck (emptyDrawPile [y4; g7; r5]) = []) by reflexivity.
  assert (H3 : 1 < length (discard (emptyDrawPile [y4; g7; r5]))) by (simpl; lia).
  split; [repeat split; assumption|].
  exact (@draw_recycles_discard source seed (emptyDrawPile [y4; g7; r5]) H1 H2 H3).
Defined.

Lemma toggleCardSelection_spec_witness :
  selectedCards (toggleCardSelection 1 humanWithWild) = [1]
  /\ toggleCardSelection 1 (toggleCardSelection 1 humanWithWild) = humanWithWild
  /\ toggleCardSelection 5 humanWithWild = humanWithWild.
Proof.
  pose proof (toggleCardSelection_spec 1 humanWithWild) as H. cbv zeta in H.
  destruct H as (_ & _ & _ & Hin & _).
  assert (Hl : 1 < length (nth 0 (hands humanWithWild) [])) by (simpl; lia).
  assert (Hn : ~ In 1 (selectedCards humanWithWild)) by (simpl; tauto).
  destruct (Hin Hl) as (_ & _ & Hadd). destruct (Hadd Hn) as (Hs & Ht).
  split; [exact Hs|]. split; [exact Ht|].
  pose proof (toggleCardSelection_spec 5 humanWithWild) as H. cbv zeta in H.
  destruct H as (_ & _ & Hout & _). apply Hout. simpl. lia.
Defined.

Lemma play_button_matches_handler_witness :
  let g := humanHolds r9 in
  gameOver g = false
  /\ (forall i, hd_error (selectedCards g) = Some i -> i < length (nth 0 (hands g) []))
  /\ playButtonEnabled g = playAccepted g.
Proof.
  cbv zeta.
  assert (H1 : gameOver (humanHolds r9) = false) by reflexivity.
  assert (H2 : forall i, hd_error (selectedCards (humanHolds r9)) = Some i ->
                         i < length (nth 0 (hands (humanHolds r9)) [])).
  { simpl. intros i Hi. inversion Hi; subst. lia. }
  split; [exact H1|]. split; [exact H2|].
  exact (@play_button_matches_handler (humanHolds r9) H1 H2).
Defined.

Lemma wild_play_waits_for_color_witness :
  let g := humanWithWild in
  (currentPlayerIdx g = 0 /\ gameOver g = false /\ 0 < length (hands g)
   /\ selectedCards g = [] /\ selectedColor g = None
   /\ nth_error (nth 0 (hands g) []) 0 = Some wild1 /\ type wild1 = wild
   /\ discard g <> [])
  /\ currentColor (fst (handlePlayerPlay seed (chooseColor green (toggleCardSelection 0 g))))
     = Some green.
Proof.
  cbv zeta.
  assert (H1 : currentPlayerIdx humanWithWild = 0) by reflexivity.
  assert (H2 : gameOver humanWithWild = false) by reflexivity.
  assert (H3 : 0 < length (hands humanWithWild)) by (simpl; lia).
  assert (H4 : selectedCards humanWithWild = []) by reflexivity.
  assert (H5 : selectedColor humanWithWild = None) by reflexivity.
  assert (H6 : nth_error (nth 0 (hands humanWithWild) []) 0 = Some wild1) by reflexivity.
  assert (H7 : type wild1 = wild) by reflexivity.
  assert (H8 : discard humanWithWild <> []) by discriminate.
  split; [repeat split; assumption|].
  exact (proj1 (proj2 (proj2 (proj2 (@wild_play_waits_for_color source seed
           humanWithWild 0 wild1 green H1 H2 H3 H4 H5 H6 H7 H8))))).
Defined.

Lemma opponent_skip_passes_over_witness :
  let g := opponentHoldsSkip in
  (currentPlayerIdx g < length (hands g) /\ currentPlayerIdx g <> 0
   /\ moveAccepted g = true /\ handAfterPlay g <> []
   /\ lastElem (playedCards g) = Some redSkip /\ value redSkip = Skip)
  /\ currentPlayerIdx (fst (opponentTurnEffect seed g))
     = getNextPlayerIdx (getNextPlayerIdx (currentPlayerIdx g) (direction g))
                        (direction g).
Proof.
  cbv zeta.
  assert (H1 : currentPlayerIdx opponentHoldsSkip < length (hands opponentHoldsSkip))
    by (simpl; lia).
  assert (H2 : currentPlayerIdx opponentHoldsSkip <> 0) by discriminate.
  assert (H3 : moveAccepted opponentHoldsSkip = true) by reflexivity.
  assert (H4 : handAfterPlay opponentHoldsSkip <> []) by discriminate.
  assert (H5 : lastElem (playedCards opponentHoldsSkip) = Some redSkip) by reflexivity.
  assert (H6 : value redSkip = Skip) by reflexivity.
  split; [repeat split; assumption|].
  exact (proj1 (@opponent_skip_passes_over source seed opponentHoldsSkip redSkip
           H1 H2 H3 H4 H5 H6)).
Defined.

Lemma human_win_applies_no_effect_witness :
  let g := humanLastCard in
  (0 < length (hands g) /\ playAccepted g = true /\ remainingHand g = [])
  /\ winner (fst (handlePlayerPlay seed g)) = Some 0.
Proof.
  cbv zeta.
  assert (H1 : 0 < length (hands humanLastCard)) by (simpl; lia).
  assert (H2 : playAccepted humanLastCard = true) by reflexivity.
  assert (H3 : remainingHand humanLastCard = []) by reflexivity.
  split; [repeat split; assumption|].
  exact (proj1 (proj2 (@human_win_applies_no_effect source seed humanLastCard
           H1 H2 H3))).
Defined.

Lemma reachable_wellformed_witness :
  exists g,
    fst (initialState seed) = Some g
    /\ reachable (fst (handlePlayerDraw seed (toggleCardSelection 0 g)))
    /\ wfSession (fst (handlePlayerDraw seed (toggleCardSelection 0 g))).
Proof.
  destruct (@freshSession_dealt (fst (generateDeck seed))) as (g & Hg & _).
  { rewrite generateDeck_length. lia. }
  exists g. split; [exact Hg|].
  assert (R : reachable (fst (handlePlayerDraw seed (toggleCardSelection 0 g)))).
  { apply reach_draw, reach_toggle. exact (reach_initial seed Hg). }
  split; [exact R|].
  exact (@reachable_wellformed source _ R).
Defined.
End MoreWitnesses.
